(** * dotfiles-installer: manifest resolution and component selection

  A shallow embedding of the TypeScript sources
    - [lib/fs.ts]        (resolveHomePath, getResolvedConfigPaths, performFileOperation)
    - [lib/shell.ts]     (isExecutable, ensureExecutable)
    - [lib/manifest.ts]  (ConfigSrcSchema, DotfileManifestSchema, resolveManifest,
                          getManifest, getAvailableManifests)
    - [actions/install.ts], [actions/list.ts] (getComponentBuilds, the selection filter)
  together with the properties the specification states about them, and of
    - [lib/string.ts]    (strListToArray)
    - [lib/distro.ts]    (getAvailableDistros, detectDistro)
    - [lib/shell.ts]     (runShellCommand)
    - [lib/manifest.ts]  (printComponentsSummaries)
    - [actions/install.ts], [actions/list.ts], [actions/remove.ts]
                         (the schemas of the flags, installBuilds, installConfigs
                          and the three runners)
  with further properties of the library and of the actions.

  Conventions.  A JavaScript [string] is a Rocq [string] that holds
  the text in UTF-8, so that the characters beyond ASCII the code tells
  apart (the white space [trim] removes, the line terminators after
  which [^] matches) are sequences of two or three bytes; an optional
  field is an [option]; an [async] function that may throw is a
  computation in the monad [M] below (state = the world the program
  runs in, result = a value or a thrown exception).  The services of the
  runtime (the file system, the JSONC parser, the collation used by
  [localeCompare], ...) are the operations of the class [Host]. *)

From Stdlib Require Import Ascii String QArith Lqa.
From Stdlib Require OrderedTypeEx.
From stdpp Require Import base option list gmap strings sorting pretty.

Set Warnings "-register-all".

Local Open Scope string_scope.
Local Open Scope list_scope.

(** * Strings *)

Module Str.

(** [s.split(sep)] for a one-character separator: the pieces between
    the occurrences of [sep], in order; never empty. *)
Fixpoint split (sep : ascii) (s : string) : list string :=
  match s with
  | EmptyString => [EmptyString]
  | String c rest =>
      if Ascii.eqb c sep then EmptyString :: split sep rest
      else match split sep rest with
           | [] => [String c EmptyString]
           | piece :: pieces => String c piece :: pieces
           end
  end.

(** [s.startsWith(p)] *)
Fixpoint startsWith (p s : string) : bool :=
  match p, s with
  | EmptyString, _ => true
  | String a p', String b s' => Ascii.eqb a b && startsWith p' s'
  | String _ _, EmptyString => false
  end.

(** [arr.includes(x)] on an array of strings. *)
Definition includes (x : string) (arr : list string) : bool :=
  existsb (String.eqb x) arr.

(** [s.charCodeAt(0) === 47] *)
Definition isAbsolute (s : string) : bool :=
  match s with
  | String "/" _ => true
  | _ => false
  end.

Fixpoint endsWithSlash (s : string) : bool :=
  match s with
  | EmptyString => false
  | String c EmptyString => Ascii.eqb c "/"
  | String _ rest => endsWithSlash rest
  end.

Fixpoint has_char (c : ascii) (s : string) : bool :=
  match s with
  | EmptyString => false
  | String d rest => Ascii.eqb c d || has_char c rest
  end.

End Str.

(** * Paths: the POSIX functions of [@std/path] *)

Module Path.

(** [normalizeString(path, allowAboveRoot, "/", isPosixPathSeparator)],
    on the segments of the path: empty segments and ["."] disappear,
    [".."] removes the segment before it and is kept only where nothing
    is left to remove and [allowAboveRoot] holds.  [acc] is the result
    so far, last segment first. *)
Fixpoint normalizeSegments (allowAboveRoot : bool)
    (segs acc : list string) : list string :=
  match segs with
  | [] => rev acc
  | seg :: rest =>
      if String.eqb seg "" || String.eqb seg "." then
        normalizeSegments allowAboveRoot rest acc
      else if String.eqb seg ".." then
        match acc with
        | top :: acc' =>
            if String.eqb top ".." then
              normalizeSegments allowAboveRoot rest
                (if allowAboveRoot then ".." :: acc else acc)
            else normalizeSegments allowAboveRoot rest acc'
        | [] =>
            normalizeSegments allowAboveRoot rest
              (if allowAboveRoot then [".."] else [])
        end
      else normalizeSegments allowAboveRoot rest (seg :: acc)
  end.

Definition normalizeString (path : string) (allowAboveRoot : bool) : string :=
  String.concat "/" (normalizeSegments allowAboveRoot (Str.split "/" path) []).

(** [normalize(path)] *)
Definition normalize (path : string) : string :=
  if String.eqb path "" then "."
  else
    let isAbsolute := Str.isAbsolute path in
    let trailingSeparator := Str.endsWithSlash path in
    let p := normalizeString path (negb isAbsolute) in
    let p := if String.eqb p "" && negb isAbsolute then "." else p in
    let p := if negb (String.eqb p "") && trailingSeparator then p +:+ "/" else p in
    if isAbsolute then "/" +:+ p else p.

(** [join(...paths)]: the non-empty arguments, put together with ["/"]
    and normalized. *)
Definition join (paths : list string) : string :=
  let joined := String.concat "/" (filter (λ p, p ≠ "") paths) in
  if String.eqb joined "" then "." else normalize joined.

(** The loop of [resolve]: from the last argument to the first, and
    then the current working directory, until the path is absolute. *)
Fixpoint resolveLoop (rsegs : list string) (cwd : string)
    (resolvedPath : string) : string * bool :=
  match rsegs with
  | [] =>
      if String.eqb cwd "" then (resolvedPath, false)
      else (cwd +:+ "/" +:+ resolvedPath, Str.isAbsolute cwd)
  | path :: rest =>
      if String.eqb path "" then resolveLoop rest cwd resolvedPath
      else
        let resolvedPath := path +:+ "/" +:+ resolvedPath in
        if Str.isAbsolute path then (resolvedPath, true)
        else resolveLoop rest cwd resolvedPath
  end.

(** [resolve(...pathSegments)], with [cwd] the value of [Deno.cwd()]. *)
Definition resolve (cwd : string) (pathSegments : list string) : string :=
  let '(resolvedPath, resolvedAbsolute) :=
    resolveLoop (rev pathSegments) cwd "" in
  let p := normalizeString resolvedPath (negb resolvedAbsolute) in
  if resolvedAbsolute then "/" +:+ p
  else if String.eqb p "" then "." else p.

End Path.

(** * Values of the runtime *)

(** A JavaScript number, as far as the comparison functions of
    [getAvailableManifests] produce them: a finite value (every finite
    double is a rational, and the sign of a difference of two doubles is
    the sign of the exact difference), the two infinities and [NaN]. *)
Inductive number :=
| Num (q : Q)
| Infinity
| NegInfinity
| NaN.

(** A parsed JSON(C) document.  The fields of an object have pairwise
    different keys, as a parser produces them. *)
Inductive json :=
| JNull
| JBool (b : bool)
| JNumber (q : Q)
| JString (s : string)
| JArray (items : list json)
| JObject (fields : list (string * json)).

Inductive result (E A : Type) :=
| Ok (a : A)
| Err (e : E).
Arguments Ok {E A} a.
Arguments Err {E A} e.

(** Thrown values.  The code tells [Deno.errors.NotFound] from the other
    errors and reads the [message] of all of them. *)
Inductive ErrorClass := PlainError | NotFound.

Record exn := Throw { errorClass : ErrorClass; message : string }.

Definition Error (msg : string) : exn := Throw PlainError msg.

(** [Deno.FileInfo] and [Deno.DirEntry], the fields the code reads. *)
Record FileInfo := {
  isFile : bool;
  isDirectory : bool;
  isSymlink : bool;
  mode : option Z
}.

Record DirEntry := {
  entry_name : string;
  entry_isFile : bool;
  entry_isDirectory : bool
}.

Inductive SymlinkType := TypeFile | TypeDir.

(** The calls that change the file system, as the program issues them. *)
Inductive FsCall :=
| CallEnsureDir (dir : string)
| CallRemove (path : string)
| CallCopy (src dest : string)
| CallSymlink (target path : string) (type : SymlinkType)
| CallChmod (path : string) (mode : Z).

(** [lib/log.ts]: one line of console output per call; the colours of
    [@cliffy/ansi] are not part of the text. *)
Inductive Level :=
| LTitle | LInfo | LSuccess | LAction | LWarn | LError | LSkip.

Record LogLine := { level : Level; text : string }.

(** An issue of a [ZodError]: where in the value, and the message. *)
Inductive PathKey := Key (k : string) | Index (i : nat).

Record Issue := { issue_path : list PathKey; issue_message : string }.

(** * The host: what Deno and the imported libraries provide *)

Class Host := {
  (** the state of the file system *)
  FileSystem : Type;
  (** [exists(path)] of [@std/fs]: [true], [false] where [Deno.stat]
      finds nothing, or the error of [Deno.stat] that the library throws
      again (a path that leads through a regular file, a loop of links) *)
  fs_exists : FileSystem → string → result exn bool;
  (** [Deno.stat], [Deno.lstat], [Deno.readTextFile], [Deno.readDir] *)
  fs_stat : FileSystem → string → result exn FileInfo;
  fs_lstat : FileSystem → string → result exn FileInfo;
  fs_readTextFile : FileSystem → string → result exn string;
  fs_readDir : FileSystem → string → result exn (list DirEntry);
  (** [ensureDir(dir)] and [copy(src, dest, { overwrite: true })] of
      [@std/fs]; [Deno.remove(path, { recursive: true })],
      [Deno.symlink], [Deno.chmod] *)
  fs_ensureDir : string → FileSystem → result exn unit * FileSystem;
  fs_remove : string → FileSystem → result exn unit * FileSystem;
  fs_copy : string → string → FileSystem → result exn unit * FileSystem;
  fs_symlink : string → string → SymlinkType → FileSystem → result exn unit * FileSystem;
  fs_chmod : string → Z → FileSystem → result exn unit * FileSystem;
  (** [parse(text)] of [@std/jsonc] *)
  jsonc_parse : string → result exn json;
  (** [Number(v)] for a string, an array or an object; [None] when the
      value is [NaN] or infinite *)
  coerceNumber : json → option Q;
  (** [a.localeCompare(b)] *)
  localeCompare : string → string → Z;
  (** [new URL(".", `file://${to}`).pathname] *)
  urlParentDirectory : string → string;
  (** the [message] of a [ZodError] of zod 4: the text that
      [JSON.stringify(issues, ..., 2)] gives for its issues *)
  zod_message : list Issue → string
}.

Abbreviation loc := positive.

Section Program.
Context `{host : Host}.

(** * The world of one run

    The file system, the environment ([HOME], [Deno.cwd()]), the heap of
    the arrays the program holds by reference (the command lists of
    [manifest.builds]), what was printed, and the file-system changes
    asked of the host. *)
Record World := {
  files : FileSystem;
  HOME : option string;
  cwd : string;
  heap : gmap loc (list string);
  console : list LogLine;
  calls : list FsCall
}.

Definition setFiles (fs : FileSystem) (w : World) : World :=
  {| files := fs; HOME := HOME w; cwd := cwd w; heap := heap w;
     console := console w; calls := calls w |}.

Definition setHeap (h : gmap loc (list string)) (w : World) : World :=
  {| files := files w; HOME := HOME w; cwd := cwd w; heap := h;
     console := console w; calls := calls w |}.

Definition addLine (l : LogLine) (w : World) : World :=
  {| files := files w; HOME := HOME w; cwd := cwd w; heap := heap w;
     console := console w ++ [l]; calls := calls w |}.

Definition addCall (c : FsCall) (w : World) : World :=
  {| files := files w; HOME := HOME w; cwd := cwd w; heap := heap w;
     console := console w; calls := calls w ++ [c] |}.

(** * Computations: state and exceptions *)

Definition M (A : Type) : Type := World → result exn A * World.

Definition ret {A} (a : A) : M A := λ w, (Ok a, w).

Definition bind {A B} (m : M A) (k : A → M B) : M B :=
  λ w, match m w with
       | (Ok a, w') => k a w'
       | (Err e, w') => (Err e, w')
       end.

Definition throw {A} (e : exn) : M A := λ w, (Err e, w).

(** [try { m } catch (e) { handler(e) }] *)
Definition try {A} (m : M A) (handler : exn → M A) : M A :=
  λ w, match m w with
       | (Ok a, w') => (Ok a, w')
       | (Err e, w') => handler e w'
       end.

Definition reads {A} (f : World → A) : M A := λ w, (Ok (f w), w).

Definition liftResult {A} (f : World → result exn A) : M A := λ w, (f w, w).

(** A call that changes the file system: recorded, then run by the host. *)
Definition fsCall (c : FsCall)
    (op : FileSystem → result exn unit * FileSystem) : M unit :=
  λ w, let '(r, fs) := op (files w) in (r, setFiles fs (addCall c w)).

#[global] Instance M_ret : MRet M := @ret.
#[global] Instance M_bind : MBind M := λ A B k m, bind m k.

End Program.

(** * [lib/log.ts], [Deno.env], [Deno.cwd] and the file system, as computations *)

Section Runtime.
Context `{host : Host}.

(** [log.<level>(...msg)]: the parts are joined with a space. *)
Definition log (lvl : Level) (msg : list string) : M unit :=
  λ w, (Ok tt, addLine {| level := lvl; text := String.concat " " msg |} w).

Definition Deno_env_get_HOME : M (option string) := reads HOME.
Definition Deno_cwd : M string := reads cwd.

Definition exists_ (path : string) : M bool :=
  liftResult (λ w, fs_exists (files w) path).
Definition Deno_stat (path : string) : M FileInfo :=
  liftResult (λ w, fs_stat (files w) path).
Definition Deno_lstat (path : string) : M FileInfo :=
  liftResult (λ w, fs_lstat (files w) path).
Definition Deno_readTextFile (path : string) : M string :=
  liftResult (λ w, fs_readTextFile (files w) path).
Definition Deno_readDir (path : string) : M (list DirEntry) :=
  liftResult (λ w, fs_readDir (files w) path).

Definition ensureDir (dir : string) : M unit :=
  fsCall (CallEnsureDir dir) (fs_ensureDir dir).
Definition Deno_remove (path : string) : M unit :=
  fsCall (CallRemove path) (fs_remove path).
Definition copy (src dest : string) : M unit :=
  fsCall (CallCopy src dest) (fs_copy src dest).
Definition Deno_symlink (target path : string) (type : SymlinkType) : M unit :=
  fsCall (CallSymlink target path type) (fs_symlink target path type).
Definition Deno_chmod (path : string) (m : Z) : M unit :=
  fsCall (CallChmod path m) (fs_chmod path m).

(** [for (const x of xs) body(x)] *)
Fixpoint forEach {A} (xs : list A) (body : A → M unit) : M unit :=
  match xs with
  | [] => ret tt
  | x :: rest => body x;; forEach rest body
  end.

(** ** [lib/fs.ts]: resolveHomePath *)

(** The replacement text of [String.prototype.replace] for a pattern
    without capture groups (GetSubstitution of ECMA-262): [$$] is a
    dollar sign, [$&] the matched text, [$`] and [$'] the text before and
    after the match; every other [$] stands for itself. *)
Fixpoint GetSubstitution (matched before after template : string) : string :=
  match template with
  | EmptyString => EmptyString
  | String c tl =>
      if Ascii.eqb c "$" then
        match tl with
        | String d rest =>
            if Ascii.eqb d "$" then
              "$" +:+ GetSubstitution matched before after rest
            else if Ascii.eqb d "&" then
              matched +:+ GetSubstitution matched before after rest
            else if Ascii.eqb d "`" then
              before +:+ GetSubstitution matched before after rest
            else if Ascii.eqb d "'" then
              after +:+ GetSubstitution matched before after rest
            else String c (GetSubstitution matched before after tl)
        | EmptyString => String c EmptyString
        end
      else String c (GetSubstitution matched before after tl)
  end.

(** Does [/^~(?=$|\/|\\)/] match?  A [~] at the start, followed by the
    end of the string, a slash or a backslash. *)
Definition tildeAtStart (path : string) : bool :=
  match path with
  | String "~" EmptyString => true
  | String "~" (String c _) => Ascii.eqb c "/" || Ascii.eqb c "\"
  | _ => false
  end.

(** [path.replace(/^~(?=$|\/|\\)/, home)] *)
Definition replaceTilde (path home : string) : string :=
  match path with
  | String "~" rest =>
      if tildeAtStart path then GetSubstitution "~" "" rest home +:+ rest
      else path
  | _ => path
  end.

Definition resolveHomePath (path : string) : M string :=
  if Str.startsWith "~" path then
    home ← Deno_env_get_HOME;
    match home with
    | Some h =>
        if String.eqb h "" then
          throw (Error "Cannot resolve '~': HOME environment variable is not set.")
        else
          dir ← Deno_cwd;
          ret (Path.resolve dir [replaceTilde path h])
    | None =>
        throw (Error "Cannot resolve '~': HOME environment variable is not set.")
    end
  else
    dir ← Deno_cwd;
    ret (Path.resolve dir [path]).

End Runtime.

(** * [lib/manifest.ts]: the manifest and its schema *)

Inductive Method := copy_ | symlink_.

(** [ConfigSrc = z.infer<typeof ConfigSrcSchema>] *)
Record ConfigSrc := {
  from : string;
  to : string;
  method : Method;
  force : bool;
  tags : list string
}.

(** [DotfileManifest = z.infer<typeof DotfileManifestSchema>].  [Arr] is
    how a command list of [builds] is held: the list itself in a parsed
    document, a reference into the heap where the code updates it in
    place. *)
Record DotfileManifest (Arr : Type) := {
  name : string;
  description : option string;
  priority : option Q;
  builds : option (gmap string Arr);
  configs : option (list ConfigSrc);
  cleanup : option (list string)
}.
Arguments name {Arr} _.
Arguments description {Arr} _.
Arguments priority {Arr} _.
Arguments builds {Arr} _.
Arguments configs {Arr} _.
Arguments cleanup {Arr} _.

(** [constants/distro.ts] and [getAvailableDistros()] *)
Definition PackagerByDistro : list (string * string) :=
  [("fedora", "dnf"); ("nobara", "dnf"); ("arch", "pacman"); ("cachyos", "pacman")].

Definition getAvailableDistros : list string := PackagerByDistro.*1.

Definition availableTags : list string := getAvailableDistros ++ ["*"].

(** ** A small model of zod

    A schema reads a value that may be [undefined] ([None]) and gives the
    typed value or the list of issues. *)

Definition Schema (A : Type) : Type := option json → result (list Issue) A.

Definition issue (msg : string) : list Issue :=
  [{| issue_path := []; issue_message := msg |}].

Definition under {A} (k : PathKey) (r : result (list Issue) A) : result (list Issue) A :=
  match r with
  | Ok a => Ok a
  | Err issues =>
      Err (map (λ i, {| issue_path := k :: issue_path i;
                        issue_message := issue_message i |}) issues)
  end.

(** Two fields of one object: the issues of both are reported. *)
Definition both {A B} (x : result (list Issue) A) (y : result (list Issue) B)
    : result (list Issue) (A * B) :=
  match x, y with
  | Ok a, Ok b => Ok (a, b)
  | Err e, Ok _ => Err e
  | Ok _, Err e => Err e
  | Err e1, Err e2 => Err (e1 ++ e2)
  end.

(** [input[key]] on a parsed object *)
Fixpoint property {A} (key : string) (fields : list (string * A)) : option A :=
  match fields with
  | [] => None
  | (k, v) :: rest => if String.eqb k key then Some v else property key rest
  end.

Definition field {A} (key : string) (s : Schema A) (fields : list (string * json))
    : result (list Issue) A :=
  under (Key key) (s (property key fields)).

(** [z.string({ error })] *)
Definition z_string (error : string) : Schema string :=
  λ v, match v with
       | Some (JString s) => Ok s
       | _ => Err (issue error)
       end.

(** [z.enum(values, { error })], each value with what it is typed as *)
Definition z_enum {A} (values : list (string * A)) (error : string) : Schema A :=
  λ v, match v with
       | Some (JString s) =>
           match property s values with
           | Some a => Ok a
           | None => Err (issue error)
           end
       | _ => Err (issue error)
       end.

(** [Boolean(v)] *)
Definition toBoolean (v : option json) : bool :=
  match v with
  | None | Some JNull => false
  | Some (JBool b) => b
  | Some (JNumber q) => negb (Qeq_bool q 0)
  | Some (JString s) => negb (String.eqb s "")
  | Some (JArray _) | Some (JObject _) => true
  end.

(** [z.coerce.boolean()] *)
Definition z_coerce_boolean : Schema bool := λ v, Ok (toBoolean v).

Section Schemas.
Context `{host : Host}.

(** [Number(v)]; [None] is [NaN] (or an infinity), which [z.number()] refuses. *)
Definition toNumber (v : option json) : option Q :=
  match v with
  | None => None
  | Some JNull => Some 0%Q
  | Some (JBool b) => Some (if b then 1%Q else 0%Q)
  | Some (JNumber q) => Some q
  | Some j => coerceNumber j
  end.

(** [z.coerce.number()] *)
Definition z_coerce_number : Schema Q :=
  λ v, match toNumber v with
       | Some q => Ok q
       | None => Err (issue "Invalid input: expected number, received NaN")
       end.

(** [schema.default(d)]: [undefined] becomes [d]. *)
Definition z_default {A} (s : Schema A) (d : A) : Schema A :=
  λ v, match v with
       | None => Ok d
       | Some _ => s v
       end.

(** [schema.optional()]: [undefined] stays [undefined]. *)
Definition z_optional {A} (s : Schema A) : Schema (option A) :=
  λ v, match v with
       | None => Ok None
       | Some _ => match s v with
                   | Ok a => Ok (Some a)
                   | Err e => Err e
                   end
       end.

Fixpoint parseItems {A} (s : Schema A) (i : nat) (items : list json)
    : result (list Issue) (list A) :=
  match items with
  | [] => Ok []
  | x :: rest =>
      match both (under (Index i) (s (Some x))) (parseItems s (S i) rest) with
      | Ok (a, l) => Ok (a :: l)
      | Err e => Err e
      end
  end.

(** [z.array(item)] *)
Definition z_array {A} (item : Schema A) : Schema (list A) :=
  λ v, match v with
       | Some (JArray items) => parseItems item 0 items
       | _ => Err (issue "Invalid input: expected array")
       end.

Fixpoint parseEntries {A B} (key : Schema A) (value : Schema B)
    (fields : list (string * json)) : result (list Issue) (list (string * B)) :=
  match fields with
  | [] => Ok []
  | (k, v) :: rest =>
      if String.eqb k "__proto__" then parseEntries key value rest
      else
        match both (both (under (Key k) (key (Some (JString k))))
                         (under (Key k) (value (Some v))))
                   (parseEntries key value rest) with
        | Ok (_, b, l) => Ok ((k, b) :: l)
        | Err e => Err e
        end
  end.

(** [z.partialRecord(key, value)]: every key of the input must pass
    [key], every value [value]; no key is required. *)
Definition z_partialRecord {A B} (key : Schema A) (value : Schema B)
    : Schema (gmap string B) :=
  λ v, match v with
       | Some (JObject fields) =>
           match parseEntries key value fields with
           | Ok l => Ok (list_to_map l)
           | Err e => Err e
           end
       | _ => Err (issue "Invalid input: expected record")
       end.

Definition z_tag : Schema string :=
  z_enum (map (λ t, (t, t)) availableTags) "Invalid option".

Definition ConfigSrcSchema : Schema ConfigSrc :=
  λ v, match v with
       | Some (JObject o) =>
           match
             both (field "from" (z_string "'from' path is required for a config source.") o)
            (both (field "to" (z_string "'to' path is required for a config source.") o)
            (both (field "method"
                     (z_enum [("copy", copy_); ("symlink", symlink_)]
                        "'method' must be either 'copy' or 'symlink'.") o)
            (both (field "force" (z_default z_coerce_boolean false) o)
                  (field "tags" (z_default (z_array z_tag) ["*"]) o))))
           with
           | Ok (f, (t, (m, (fo, tg)))) =>
               Ok {| from := f; to := t; method := m; force := fo; tags := tg |}
           | Err e => Err e
           end
       | _ => Err (issue "Invalid input: expected object")
       end.

Definition DotfileManifestSchema : Schema (DotfileManifest (list string)) :=
  λ v, match v with
       | Some (JObject o) =>
           match
             both (field "name" (z_string "Component 'name' is required.") o)
            (both (field "description"
                     (z_optional (z_string "Invalid input: expected string")) o)
            (both (field "priority" (z_optional z_coerce_number) o)
            (both (field "builds"
                     (z_optional
                        (z_partialRecord z_tag
                           (z_array (z_string "Invalid input: expected string")))) o)
            (both (field "configs" (z_optional (z_array ConfigSrcSchema)) o)
                  (field "cleanup"
                     (z_optional (z_array (z_string "Invalid input: expected string"))) o)))))
           with
           | Ok (n, (d, (p, (b, (c, cl))))) =>
               Ok {| name := n; description := d; priority := p;
                     builds := b; configs := c; cleanup := cl |}
           | Err e => Err e
           end
       | _ => Err (issue "Invalid input: expected object")
       end.

(** The [ZodError] that [schema.parse] throws: an [Error] whose [message]
    is the text zod makes of the issues. *)
Definition ZodError (issues : list Issue) : exn :=
  Error (zod_message issues).

End Schemas.

(** * [Array.prototype.sort] and the numbers a comparison function returns *)

(** [p ?? Infinity] *)
Definition orInfinity (p : option Q) : number :=
  match p with
  | Some q => Num q
  | None => Infinity
  end.

(** [a !== b] on numbers *)
Definition strictNotEqual (a b : number) : bool :=
  match a, b with
  | Num x, Num y => negb (Qeq_bool x y)
  | Infinity, Infinity => false
  | NegInfinity, NegInfinity => false
  | _, _ => true
  end.

(** [a - b] *)
Definition minus (a b : number) : number :=
  match a, b with
  | NaN, _ | _, NaN => NaN
  | Num x, Num y => Num (x - y)
  | Num _, Infinity => NegInfinity
  | Num _, NegInfinity => Infinity
  | Infinity, Infinity => NaN
  | Infinity, _ => Infinity
  | NegInfinity, NegInfinity => NaN
  | NegInfinity, _ => NegInfinity
  end.

(** [v > 0]; false for [NaN], which the sort reads as [+0]. *)
Definition isPositive (v : number) : bool :=
  match v with
  | Num q => match (0 ?= q)%Q with Lt => true | _ => false end
  | Infinity => true
  | NegInfinity | NaN => false
  end.

(** [v < 0] *)
Definition isNegative (v : number) : bool :=
  match v with
  | Num q => match (q ?= 0)%Q with Lt => true | _ => false end
  | NegInfinity => true
  | Infinity | NaN => false
  end.

Section Sort.
Context {A : Type} (comparefn : A → A → number).

(** [x] goes before the first element it is not greater than. *)
Fixpoint insertSorted (x : A) (sorted : list A) : list A :=
  match sorted with
  | [] => [x]
  | y :: rest =>
      if isPositive (comparefn x y) then y :: insertSorted x rest
      else x :: y :: rest
  end.

(** [array.sort(comparefn)].  The sort of ECMAScript is stable, and for a
    consistent comparison function its result is the one stable sorted
    arrangement, which insertion from the right computes. *)
Definition Array_sort (array : list A) : list A :=
  foldr insertSorted [] array.

End Sort.

(** * [lib/manifest.ts]: resolveManifest, getManifest, getAvailableManifests *)

Inductive SortBy := byPriority | byName.

Abbreviation Manifest := (DotfileManifest (list string)).

Section Catalog.
Context `{host : Host}.

Definition resolveManifest (cmpName sourcePath : string) : M Manifest :=
  let componentDir := Path.join [sourcePath; cmpName] in
  let manifestPath := Path.join [componentDir; "manifest.jsonc"] in
  let srcPath := Path.join [componentDir] in
  try
    (found ← exists_ manifestPath;
     (if negb found
      then throw (Error ("Manifest file not found: " +:+ manifestPath))
      else ret tt);;
     rawManifest ← Deno_readTextFile manifestPath;
     parsedManifest ← liftResult (λ _, jsonc_parse rawManifest);
     manifest ← match DotfileManifestSchema (Some parsedManifest) with
                | Ok m => ret m
                | Err issues => throw (ZodError issues)
                end;
     srcStat ← try (st ← Deno_stat srcPath; ret (Some st)) (λ _, ret None);
     (if match srcStat with
         | Some st => negb (isDirectory st)
         | None => true
         end
      then throw (Error ("Missing or invalid 'src/' directory for component '"
                         +:+ cmpName +:+ "': " +:+ srcPath))
      else ret tt);;
     match configs manifest with
     | Some cs =>
         forEach cs (λ config,
           let fullFromPath := Path.join [srcPath; from config] in
           found ← exists_ fullFromPath;
           if negb found
           then throw (Error ("Source file/directory not found for config '"
                              +:+ from config +:+ "' in component '" +:+ cmpName
                              +:+ "': " +:+ fullFromPath))
           else ret tt)
     | None => ret tt
     end;;
     ret manifest)
    (λ error,
       throw (Error ("Failed to resolve manifest for component '" +:+ cmpName
                     +:+ "': " +:+ message error))).

Definition getManifest (entryName componentsPath : string) : M (option Manifest) :=
  try
    (manifest ← resolveManifest entryName componentsPath; ret (Some manifest))
    (λ e,
       log LWarn ["Skipping component '" +:+ entryName +:+ "': " +:+ message e];;
       ret None).

(** [resolve(Deno.cwd(), "components")], with [dir] the working directory *)
Definition DEFAULT_COMPONENTS_BASE_PATH (dir : string) : string :=
  Path.resolve dir [dir; "components"].

(** The comparison functions of the two [manifests.sort] calls. *)
Definition comparePriority {Arr} (a b : DotfileManifest Arr) : number :=
  let ap := orInfinity (priority a) in
  let bp := orInfinity (priority b) in
  if strictNotEqual ap bp then minus ap bp
  else Num (inject_Z (localeCompare (name a) (name b))).

Definition compareName {Arr} (a b : DotfileManifest Arr) : number :=
  Num (inject_Z (localeCompare (name a) (name b))).

Definition sortManifests {Arr} (sortBy : SortBy)
    (manifests : list (DotfileManifest Arr)) : list (DotfileManifest Arr) :=
  match sortBy with
  | byPriority => Array_sort comparePriority manifests
  | byName => Array_sort compareName manifests
  end.

(** A loop that pushes onto a local array. *)
Fixpoint forEachPush {X Y} (xs : list X) (body : X → M (option Y))
    (acc : list Y) : M (list Y) :=
  match xs with
  | [] => ret acc
  | x :: rest =>
      r ← body x;
      forEachPush rest body (match r with Some y => acc ++ [y] | None => acc end)
  end.

(** [source ? resolve(source) : DEFAULT_COMPONENTS_BASE_PATH] *)
Definition componentsPathOf (source : option string) (dir : string) : string :=
  match source with
  | Some s =>
      if String.eqb s "" then DEFAULT_COMPONENTS_BASE_PATH dir
      else Path.resolve dir [s]
  | None => DEFAULT_COMPONENTS_BASE_PATH dir
  end.

Definition getAvailableManifests (sortBy : SortBy) (cmpNames : list string)
    (source : option string) : M (list Manifest) :=
  dir ← Deno_cwd;
  let componentsPath := componentsPathOf source dir in
  found ← exists_ componentsPath;
  if negb found then
    log LError ["Components source directory not found: " +:+ componentsPath];;
    ret []
  else
    manifests ←
      (if (0 <? length cmpNames)%nat then
         forEachPush cmpNames (λ cmpName, getManifest cmpName componentsPath) []
       else
         entries ← Deno_readDir componentsPath;
         forEachPush entries
           (λ entry,
              if entry_isDirectory entry
              then getManifest (entry_name entry) componentsPath
              else ret None) []);
    ret (sortManifests sortBy manifests).

End Catalog.

(** * [actions/list.ts], [actions/install.ts]: the selection filter *)

(** [xs?.length] as a condition *)
Definition hasLength {X} (xs : option (list X)) : bool :=
  match xs with
  | Some (_ :: _) => true
  | _ => false
  end.

Section Selection.
Context {Arr : Type}.

(** [f.tags ?? [machineId, "*"]] *)
Definition autoTags (tags : option (list string)) (machineId : string) : list string :=
  match tags with
  | Some t => t
  | None => [machineId; "*"]
  end.

(** [x.configs?.some((c) => c.tags.some((t) => autoTags.includes(t)))] *)
Definition hasTaggedConfig (selected : list string) (x : DotfileManifest Arr) : bool :=
  match configs x with
  | Some cs => existsb (λ c, existsb (λ t, Str.includes t selected) (tags c)) cs
  | None => false
  end.

Definition filteredByTags (tags : option (list string)) (machineId : string)
    (all : list (DotfileManifest Arr)) : list (DotfileManifest Arr) :=
  if hasLength tags
  then List.filter (hasTaggedConfig (autoTags tags machineId)) all
  else all.

Definition finalList (tags exclude : option (list string)) (machineId : string)
    (all : list (DotfileManifest Arr)) : list (DotfileManifest Arr) :=
  if hasLength exclude
  then List.filter (λ x, negb (Str.includes (name x) (default [] exclude)))
         (filteredByTags tags machineId all)
  else filteredByTags tags machineId all.

End Selection.

(** * [lib/shell.ts], [lib/fs.ts] and [getComponentBuilds] *)

Definition dquote : string := String (ascii_of_nat 34) EmptyString.

Definition lineFeed : string := String (ascii_of_nat 10) EmptyString.

(** [(mode & 0o111) !== 0] *)
Definition isExecutable (m : Z) : bool := negb (Z.land m 73 =? 0)%Z.

Section Install.
Context `{host : Host}.

Definition ensureExecutable (path : string) : M bool :=
  try
    (stat ← Deno_lstat path;
     if negb (isFile stat) then
       log LWarn ["Path is not a file, skipping executable check: " +:+ path];;
       ret false
     else
       match mode stat with
       | None =>
           log LWarn ["Could not determine file mode for: " +:+ path];;
           ret false
       | Some m =>
           if negb (isExecutable m) then
             log LInfo ["Making file executable: " +:+ path];;
             Deno_chmod path 493;;
             newStat ← Deno_lstat path;
             ret (match mode newStat with
                  | Some m' => isExecutable m'
                  | None => false
                  end)
           else ret true
       end)
    (λ err,
       match errorClass err with
       | NotFound =>
           log LWarn ["File not found, cannot ensure executable: " +:+ path];;
           ret false
       | PlainError =>
           log LError ["Error ensuring executable for " +:+ path +:+ ": "
                       +:+ message err];;
           throw err
       end).

(** The array literal [[]]: a new array in the heap. *)
Definition newArray (items : list string) : M loc :=
  λ w, let r := fresh (dom (heap w)) in
       (Ok r, setHeap (<[r := items]> (heap w)) w).

(** [array.push(x)]: the array behind the reference grows, for every
    holder of the reference. *)
Definition push (array : loc) (x : string) : M unit :=
  λ w, (Ok tt, setHeap (alter (λ items, items ++ [x]) array (heap w)) w).

(** [(man.builds as any)?.[machineId] || man.builds?.["*"] || []]: an
    array is truthy, also an empty one, so the first list that is there
    is taken, by reference.  ([builds] holds the own properties of the
    validated object.) *)
Definition initialCommands (machineId : string) (man : DotfileManifest loc) : M loc :=
  match builds man ≫= (.!! machineId) with
  | Some commands => ret commands
  | None =>
      match builds man ≫= (.!! "*") with
      | Some commands => ret commands
      | None => newArray []
      end
  end.

(** [source ? join(source, man.name, "builds")
           : join("./components", man.name, "builds")] *)
Definition buildsDir (source : option string) (man : DotfileManifest loc) : string :=
  match source with
  | Some s =>
      if String.eqb s "" then Path.join ["./components"; name man; "builds"]
      else Path.join [s; name man; "builds"]
  | None => Path.join ["./components"; name man; "builds"]
  end.

Definition getComponentBuilds (machineId : string) (man : DotfileManifest loc)
    (source : option string) : M loc :=
  commands ← initialCommands machineId man;
  fullPath ← resolveHomePath (buildsDir source man);
  found ← exists_ fullPath;
  if negb found then ret commands
  else
    entries ← Deno_readDir fullPath;
    forEach entries (λ entry,
      let matched :=
        String.eqb (default "" (head (Str.split "." (entry_name entry)))) machineId in
      if negb (entry_isFile entry) || negb matched then ret tt
      else
        let filePath := fullPath +:+ "/" +:+ entry_name entry in
        ensureExecutable filePath;;
        push commands ("bash -c " +:+ dquote +:+ filePath +:+ dquote));;
    ret commands.

Definition getResolvedConfigPaths (sourcePath cmpName : string) (entry : ConfigSrc)
    : M (string * string) :=
  dir ← Deno_cwd;
  let from_ := Path.resolve dir [sourcePath; cmpName; from entry] in
  to_ ← resolveHomePath (to entry);
  ret (from_, to_).

Definition performFileOperation (sourcePath cmpName : string) (entry : ConfigSrc)
    (force_ : bool) : M unit :=
  paths ← getResolvedConfigPaths sourcePath cmpName entry;
  let from_ := paths.1 in
  let to_ := paths.2 in
  try
    (sourceStat ← Deno_stat from_;
     let destDir := urlParentDirectory to_ in
     ensureDir destDir;;
     let isForced := force_ || force entry in
     destExists ← try (st ← Deno_lstat to_; ret (Some st)) (λ _, ret None);
     let place :=
       match method entry with
       | copy_ =>
           log LInfo ["Copying from " +:+ from_ +:+ " to " +:+ to_];;
           copy from_ to_
       | symlink_ =>
           let sourceType := if isDirectory sourceStat then TypeDir else TypeFile in
           log LInfo ["Symlinking " +:+ (if isDirectory sourceStat then "dir" else "file")
                      +:+ " from " +:+ from_ +:+ " to " +:+ to_];;
           Deno_symlink from_ to_ sourceType
       end;;
       log LSuccess ["Operation successful for " +:+ cmpName +:+ ": "
                     +:+ from_ +:+ " -> " +:+ to_] in
     match destExists with
     | Some _ =>
         if negb isForced then
           log LSkip ["Destination exists and force not set -- skipping: " +:+ to_]
         else
           log LInfo ["Force removing existing destination: " +:+ to_];;
           try (Deno_remove to_)
             (λ err,
                log LError ["Failed to remove existing destination " +:+ to_ +:+ ": "
                            +:+ message err];;
                throw err);;
           place
     | None => place
     end)
    (λ error,
       log LError ["Failed to perform file operation for " +:+ cmpName
                   +:+ " (from: " +:+ from_ +:+ ", to: " +:+ to_ +:+ "): "
                   +:+ message error];;
       throw error).

End Install.

(** * A host to run the code on

    A file system as a finite map from absolute paths to nodes, a parser
    that knows a given table of documents, and a collation.  The examples
    below run on it. *)

Inductive Node :=
| FileNode (content : string) (permissions : Z)
| DirNode
| LinkNode (target : string).

Abbreviation Tree := (gmap string Node).

Definition notFound (path : string) : exn :=
  Throw NotFound ("No such file or directory: " +:+ path).

Definition absolute (path : string) : string := Path.resolve "/" [path].

Definition infoOf (n : Node) : FileInfo :=
  match n with
  | FileNode _ m =>
      {| isFile := true; isDirectory := false; isSymlink := false; mode := Some m |}
  | DirNode =>
      {| isFile := false; isDirectory := true; isSymlink := false; mode := Some 493%Z |}
  | LinkNode _ =>
      {| isFile := false; isDirectory := false; isSymlink := true; mode := Some 511%Z |}
  end.

(** The node a path leads to, through at most [fuel] links. *)
Fixpoint follow (fuel : nat) (t : Tree) (path : string) : option Node :=
  match t !! absolute path with
  | Some (LinkNode target) =>
      match fuel with
      | O => None
      | S fuel' => follow fuel' t target
      end
  | other => other
  end.

(** The directories from the root down to the one of the given segments. *)
Fixpoint ancestors (prefix : string) (segs : list string) : list string :=
  match segs with
  | [] => []
  | s :: rest => (prefix +:+ "/" +:+ s) :: ancestors (prefix +:+ "/" +:+ s) rest
  end.

(** The path leads through a regular file: one of the directories above
    it is a file. *)
Definition throughFile (t : Tree) (path : string) : bool :=
  existsb (λ d, match follow 8 t d with
                | Some (FileNode _ _) => true
                | _ => false
                end)
    (removelast
       (ancestors "" (Path.normalizeSegments false (Str.split "/" (absolute path)) []))).

(** The error of [Deno.stat] for such a path: not a [NotFound]. *)
Definition notADirectory (path : string) : exn :=
  Error ("Not a directory: " +:+ path).

(** The error of a call on a path nothing is at. *)
Definition missing (t : Tree) (path : string) : exn :=
  if throughFile t path then notADirectory path else notFound path.

Definition tree_lstat (t : Tree) (path : string) : result exn FileInfo :=
  match t !! absolute path with
  | Some n => Ok (infoOf n)
  | None => Err (missing t path)
  end.

Definition tree_stat (t : Tree) (path : string) : result exn FileInfo :=
  match follow 8 t path with
  | Some n => Ok (infoOf n)
  | None => Err (missing t path)
  end.

(** [exists] of [@std/fs] is [Deno.stat] with its [NotFound] caught:
    every other error is thrown again. *)
Definition tree_exists (t : Tree) (path : string) : result exn bool :=
  match tree_stat t path with
  | Ok _ => Ok true
  | Err e =>
      match errorClass e with
      | NotFound => Ok false
      | PlainError => Err e
      end
  end.

Definition tree_readTextFile (t : Tree) (path : string) : result exn string :=
  match follow 8 t path with
  | Some (FileNode content _) => Ok content
  | Some _ => Err (Error ("Is a directory: " +:+ path))
  | None => Err (missing t path)
  end.

(** The name of [path] in the directory [dir], when it lies directly in it. *)
Definition childName (dir path : string) : option string :=
  let prefix := if String.eqb dir "/" then "/" else dir +:+ "/" in
  if Str.startsWith prefix path then
    let rest := String.substring (String.length prefix)
                  (String.length path - String.length prefix) path in
    if String.eqb rest "" || Str.has_char "/" rest then None else Some rest
  else None.

Definition tree_readDir (t : Tree) (path : string) : result exn (list DirEntry) :=
  match follow 8 t path with
  | Some DirNode =>
      Ok (omap (λ kv,
            match childName (absolute path) kv.1 with
            | Some n =>
                Some {| entry_name := n;
                        entry_isFile := isFile (infoOf kv.2);
                        entry_isDirectory := isDirectory (infoOf kv.2) |}
            | None => None
            end) (map_to_list t))
  | Some _ => Err (Error ("Not a directory: " +:+ path))
  | None => Err (missing t path)
  end.

Definition tree_ensureDir (dir : string) (t : Tree) : result exn unit * Tree :=
  let dirs := ancestors "" (Path.normalizeSegments false (Str.split "/" (absolute dir)) []) in
  if forallb (λ d, match follow 8 t d with
                   | Some DirNode | None => true
                   | Some _ => false
                   end) dirs
  then (Ok tt, foldr (λ d acc, match acc !! d with
                               | None => <[d := DirNode]> acc
                               | Some _ => acc
                               end) t dirs)
  else (Err (Error ("Ensure path exists, expected 'dir': " +:+ dir)), t).

Definition isUnder (dir path : string) : bool :=
  String.eqb dir path || Str.startsWith (dir +:+ "/") path.

Definition tree_remove (path : string) (t : Tree) : result exn unit * Tree :=
  match t !! absolute path with
  | Some _ => (Ok tt, filter (λ kv, isUnder (absolute path) kv.1 = false) t)
  | None => (Err (missing t path), t)
  end.

Definition tree_copy (src dest : string) (t : Tree) : result exn unit * Tree :=
  match follow 8 t src with
  | Some _ =>
      let moved :=
        omap (λ kv,
          if isUnder (absolute src) kv.1
          then Some (absolute dest +:+
                       String.substring (String.length (absolute src))
                         (String.length kv.1 - String.length (absolute src)) kv.1,
                     kv.2)
          else None) (map_to_list t) in
      (Ok tt, list_to_map moved ∪ t)
  | None => (Err (missing t src), t)
  end.

Definition tree_symlink (target path : string) (type : SymlinkType) (t : Tree)
    : result exn unit * Tree :=
  match t !! absolute path with
  | Some _ => (Err (Error ("File exists: " +:+ path)), t)
  | None => (Ok tt, <[absolute path := LinkNode target]> t)
  end.

Definition tree_chmod (path : string) (m : Z) (t : Tree) : result exn unit * Tree :=
  match t !! absolute path with
  | Some (FileNode content _) => (Ok tt, <[absolute path := FileNode content m]> t)
  | Some _ => (Ok tt, t)
  | None => (Err (missing t path), t)
  end.

(** [-1], [0] or [1] by the character codes. *)
Definition compareCodes (a b : string) : Z :=
  match String.compare a b with
  | Lt => (-1)%Z
  | Eq => 0%Z
  | Gt => 1%Z
  end.

(** The collation of ICU, which [localeCompare] uses in Deno, on names
    made of ASCII letters: the letters decide without regard to case, and
    between names that differ in case only, the first difference decides,
    lower case before upper case.  (Other characters are kept in the
    order of their codes.) *)
Definition isUpper (c : ascii) : bool :=
  (65 <=? N_of_ascii c)%N && (N_of_ascii c <=? 90)%N.

Definition toLower (c : ascii) : ascii :=
  if isUpper c then ascii_of_N (N_of_ascii c + 32) else c.

Definition caseMark (c : ascii) : ascii :=
  if isUpper c then "1"%char else "0"%char.

Fixpoint mapChars (f : ascii → ascii) (s : string) : string :=
  match s with
  | EmptyString => EmptyString
  | String c rest => String (f c) (mapChars f rest)
  end.

Definition letterCollation (a b : string) : Z :=
  match String.compare (mapChars toLower a) (mapChars toLower b) with
  | Lt => (-1)%Z
  | Gt => 1%Z
  | Eq => compareCodes (mapChars caseMark a) (mapChars caseMark b)
  end.

(** Canonically equivalent strings compare as equal in ICU: the letter
    [e] followed by the combining acute accent (U+0301, the bytes 204
    and 129) is the letter U+00E9 (the bytes 195 and 169).  [compose]
    puts the second form for the first, and [canonicalCollation] compares
    what it gives. *)
Fixpoint compose (s : string) : string :=
  match s with
  | EmptyString => EmptyString
  | String c rest =>
      match c, rest with
      | "e"%char, String "204"%char (String "129"%char rest') =>
          String "195"%char (String "169"%char (compose rest'))
      | _, _ => String c (compose rest)
      end
  end.

Definition canonicalCollation (a b : string) : Z :=
  letterCollation (compose a) (compose b).

(** The directory part of a path, with its closing slash. *)
Definition parentDirectory (path : string) : string :=
  String.concat "/" (removelast (Str.split "/" path)) +:+ "/".

(** The issues of a [ZodError] in the layout of [JSON.stringify] with an
    indentation of two: the example host prints of each issue its [path]
    and its [message], the two fields [Issue] has. *)
Definition printKey (k : PathKey) : string :=
  match k with
  | Key k => dquote +:+ k +:+ dquote
  | Index i => pretty i
  end.

Definition printPath (path : list PathKey) : string :=
  match path with
  | [] => "[]"
  | _ => "[" +:+ lineFeed
         +:+ String.concat ("," +:+ lineFeed) (map (λ k, "      " +:+ printKey k) path)
         +:+ lineFeed +:+ "    ]"
  end.

Definition printIssue (i : Issue) : string :=
  "  {" +:+ lineFeed
  +:+ "    " +:+ dquote +:+ "path" +:+ dquote +:+ ": " +:+ printPath (issue_path i)
  +:+ "," +:+ lineFeed
  +:+ "    " +:+ dquote +:+ "message" +:+ dquote +:+ ": "
  +:+ dquote +:+ issue_message i +:+ dquote +:+ lineFeed
  +:+ "  }".

Definition printIssues (issues : list Issue) : string :=
  match issues with
  | [] => "[]"
  | _ => "[" +:+ lineFeed
         +:+ String.concat ("," +:+ lineFeed) (map printIssue issues)
         +:+ lineFeed +:+ "]"
  end.

Definition treeHostWith (collation : string → string → Z)
    (documents : list (string * json)) : Host := {|
  FileSystem := Tree;
  fs_exists := tree_exists;
  fs_stat := tree_stat;
  fs_lstat := tree_lstat;
  fs_readTextFile := tree_readTextFile;
  fs_readDir := tree_readDir;
  fs_ensureDir := tree_ensureDir;
  fs_remove := tree_remove;
  fs_copy := tree_copy;
  fs_symlink := tree_symlink;
  fs_chmod := tree_chmod;
  jsonc_parse := λ text,
    match property text documents with
    | Some doc => Ok doc
    | None => Err (Error "Unexpected token")
    end;
  coerceNumber := λ _, None;
  localeCompare := collation;
  urlParentDirectory := parentDirectory;
  zod_message := printIssues
|}.

Definition treeHost (documents : list (string * json)) : Host :=
  treeHostWith letterCollation documents.

(** A world on that host: nothing printed and nothing asked of the file
    system yet. *)
Definition treeWorld (documents : list (string * json)) (t : Tree)
    (home : option string) (dir : string) (h : gmap loc (list string))
    : @World (treeHost documents) :=
  @Build_World (treeHost documents) t home dir h [] [].


(** * The vocabulary of the specification *)

(** The manifest as a value: each command list of [builds] read through
    the heap. *)
Definition snapshot (h : gmap loc (list string)) (man : DotfileManifest loc) : Manifest :=
  {| name := name man;
     description := description man;
     priority := priority man;
     builds := (λ b : gmap string loc, omap (λ l, h !! l) b) <$> builds man;
     configs := configs man;
     cleanup := cleanup man |}.

(** No reference of the manifest dangles. *)
Definition allocated (h : gmap loc (list string)) (man : DotfileManifest loc) : Prop :=
  ∀ b key l, builds man = Some b → b !! key = Some l → is_Some (h !! l).

(** The starting list in the words of the specification:
    [manifest.builds[machineId]] if present, else [manifest.builds["*"]]
    if present, else the empty list. *)
Definition specStartingCommands (man : Manifest) (machineId : string) : list string :=
  match builds man with
  | Some b =>
      match b !! machineId with
      | Some commands => commands
      | None =>
          match b !! "*" with
          | Some commands => commands
          | None => []
          end
      end
  | None => []
  end.

(** Priorities in the order of the specification: ascending, an absent
    priority above every number. *)
Definition priorityLt (p q : option Q) : Prop :=
  match p, q with
  | Some x, Some y => (x < y)%Q
  | Some _, None => True
  | None, _ => False
  end.

Definition priorityEq (p q : option Q) : Prop :=
  match p, q with
  | Some x, Some y => (x == y)%Q
  | None, None => True
  | _, _ => False
  end.

(** Names in the order of the host's collation: [a] is not after [b]
    when [a.localeCompare(b)] is not positive. *)
Definition collates `{host : Host} (a b : string) : Prop :=
  (localeCompare a b ≤ 0)%Z.

Definition precedesByPriority `{host : Host} {Arr} (a b : DotfileManifest Arr) : Prop :=
  priorityLt (priority a) (priority b) ∨
  (priorityEq (priority a) (priority b) ∧ collates (name a) (name b)).

Definition precedesByName `{host : Host} {Arr} (a b : DotfileManifest Arr) : Prop :=
  collates (name a) (name b).

(** The collation compares consistently, as [Array.prototype.sort] asks
    of a comparison function: comparing the other way round gives the
    opposite sign, and the order is transitive.  Different names may
    compare as equal (as canonically equivalent strings do). *)
Definition consistentCollation `{host : Host} : Prop :=
  (∀ a b, (localeCompare b a ?= 0)%Z = CompOpp (localeCompare a b ?= 0)%Z) ∧
  (∀ a b c, collates a b → collates b c → collates a c).

(** Names in the lexicographic order of their character codes, upper
    and lower case apart (upper case first), and the hosts whose
    collation is that order. *)
Definition nameLe (a b : string) : Prop := String.compare a b ≠ Gt.

Definition codeOrderCollation `{host : Host} : Prop :=
  ∀ a b, (localeCompare a b ?= 0)%Z = String.compare a b.

(** What a comparison function says of two elements the sort leaves in
    this order. *)
Definition notAfter {A} (comparefn : A → A → number) (x y : A) : Prop :=
  isPositive (comparefn x y) = false.

(** * Components and worlds for the examples *)

Definition component (n : string) (p : option Q) : Manifest :=
  {| name := n; description := None; priority := p; builds := None;
     configs := None; cleanup := None |}.

(** The name [café], with the letter U+00E9 and with [e] and the
    combining accent U+0301. *)
Definition cafe : string :=
  "caf" +:+ String "195" (String "169" EmptyString).

Definition cafe' : string :=
  "cafe" +:+ String "204" (String "129" EmptyString).

Definition exampleCatalog : list Manifest :=
  [component "Zsh" None; component "git" (Some 5%Q); component "vim" None;
   component "bash" (Some 1%Q); component "core" (Some 0%Q)].

(** What resolving one component gives in a world: the manifest, or
    nothing when [resolveManifest] throws. *)
Definition resolved `{host : Host} (w : World) (componentsPath entryName : string)
    : option Manifest :=
  match (resolveManifest entryName componentsPath w).1 with
  | Ok manifest => Some manifest
  | Err _ => None
  end.

(** The warnings of the components that fail to resolve, in order. *)
Definition skipWarnings `{host : Host} (w : World) (componentsPath : string)
    (names : list string) : list LogLine :=
  omap (λ entryName,
          match (resolveManifest entryName componentsPath w).1 with
          | Ok _ => None
          | Err e => Some {| level := LWarn;
                             text := "Skipping component '" +:+ entryName
                                     +:+ "': " +:+ message e |}
          end) names.

Definition addLines `{host : Host} (lines : list LogLine) (w : World) : World :=
  {| files := files w; HOME := HOME w; cwd := cwd w; heap := heap w;
     console := console w ++ lines; calls := calls w |}.

(** A computation that only reads the file system: the world is left as
    it is and the result depends on the files alone. *)
Definition readsFiles `{host : Host} {A} (m : M A) : Prop :=
  ∀ w, (m w).2 = w ∧ ∀ w', files w' = files w → (m w').1 = (m w).1.

(** A source root [/dots] with three components: [git] and [vim] are
    complete, the manifest of [broken] names a file that is not there.
    The parser of the host knows the three manifest texts. *)
Definition gitDocument : json :=
  JObject [("name", JString "git");
           ("configs",
            JArray [JObject [("from", JString "gitconfig");
                             ("to", JString "~/.gitconfig");
                             ("method", JString "symlink");
                             ("tags", JArray [JString "*"])]])].

Definition vimDocument : json :=
  JObject [("name", JString "vim");
           ("priority", JNumber 1%Q);
           ("configs",
            JArray [JObject [("from", JString "vimrc");
                             ("to", JString "~/.vimrc");
                             ("method", JString "copy")]])].

Definition brokenDocument : json :=
  JObject [("name", JString "broken");
           ("configs",
            JArray [JObject [("from", JString "missing");
                             ("to", JString "~/.vimrc");
                             ("method", JString "copy")]])].

Definition exampleDocuments : list (string * json) :=
  [("// git", gitDocument); ("// vim", vimDocument); ("// broken", brokenDocument)].

Definition exampleTree : Tree :=
  list_to_map
    [("/dots", DirNode);
     ("/dots/git", DirNode);
     ("/dots/git/manifest.jsonc", FileNode "// git" 420%Z);
     ("/dots/git/gitconfig", FileNode "[user]" 420%Z);
     ("/dots/vim", DirNode);
     ("/dots/vim/manifest.jsonc", FileNode "// vim" 420%Z);
     ("/dots/vim/vimrc", FileNode "set nocompatible" 420%Z);
     ("/dots/broken", DirNode);
     ("/dots/broken/manifest.jsonc", FileNode "// broken" 420%Z);
     ("/home", DirNode);
     ("/home/u", DirNode);
     ("/home/u/.vimrc", FileNode "syntax on" 420%Z)].

Definition exampleWorld : @World (treeHost exampleDocuments) :=
  treeWorld exampleDocuments exampleTree (Some "/home/u") "/work" ∅.

Definition gitConfig : ConfigSrc :=
  {| from := "gitconfig"; to := "~/.gitconfig"; method := symlink_;
     force := false; tags := ["*"] |}.

Definition vimConfig : ConfigSrc :=
  {| from := "vimrc"; to := "~/.vimrc"; method := copy_;
     force := false; tags := ["*"] |}.


Definition gitManifest : Manifest :=
  {| name := "git"; description := None; priority := None; builds := None;
     configs := Some [gitConfig]; cleanup := None |}.

Definition vimManifest : Manifest :=
  {| name := "vim"; description := None; priority := Some 1%Q; builds := None;
     configs := Some [vimConfig]; cleanup := None |}.

(** Equality of manifests is decidable, so their occurrences in a
    catalog can be counted. *)
#[global] Instance Q_eq_dec : EqDecision Q.
Proof. solve_decision. Defined.

#[global] Instance Method_eq_dec : EqDecision Method.
Proof. solve_decision. Defined.

#[global] Instance ConfigSrc_eq_dec : EqDecision ConfigSrc.
Proof. solve_decision. Defined.

#[global] Instance DotfileManifest_eq_dec {Arr} `{EqDecision Arr} :
  EqDecision (DotfileManifest Arr).
Proof. solve_decision. Defined.

Definition occurrences {X} `{EqDecision X} (x : X) (l : list X) : nat :=
  length (filter (λ y, y = x) l).

(** A component [shell] whose [builds] hold two command lists, by
    reference into [buildsHeap], and a source root where its scripts
    directory holds a script for [fedora]. *)
Definition buildsHeap : gmap loc (list string) :=
  <[1%positive := ["a"]]> (<[2%positive := ["b"]]> ∅).

Definition shellManifest : DotfileManifest loc :=
  {| name := "shell"; description := None; priority := None;
     builds := Some (<["fedora" := 1%positive]> (<["*" := 2%positive]> ∅));
     configs := None; cleanup := None |}.

Definition bareManifest : DotfileManifest loc :=
  {| name := "shell"; description := None; priority := None;
     builds := None; configs := None; cleanup := None |}.

Definition scriptTree : Tree :=
  list_to_map
    [("/dots", DirNode);
     ("/dots/shell", DirNode);
     ("/dots/shell/builds", DirNode);
     ("/dots/shell/builds/fedora.sh", FileNode "dnf install zsh" 493%Z)].

Definition fedoraScript : string :=
  "bash -c " +:+ dquote +:+ "/dots/shell/builds/fedora.sh" +:+ dquote.

(** * [lib/string.ts]: strListToArray *)

(** A string holds its text in UTF-8.  The white space and the line
    terminators [trim] removes are, of one byte: tab, line feed,
    vertical tab, form feed, carriage return and space; *)
Definition isWhiteSpace (c : ascii) : bool :=
  let n := N_of_ascii c in
  ((9 <=? n) && (n <=? 13) || (n =? 32))%N.

(** of two bytes: the no-break space U+00A0; *)
Definition isWhiteSpace2 (c1 c2 : ascii) : bool :=
  ((N_of_ascii c1 =? 194) && (N_of_ascii c2 =? 160))%N.

(** of three bytes: U+1680, the spaces U+2000 to U+200A, the line and
    the paragraph separator U+2028 and U+2029, U+202F, U+205F, U+3000
    and the byte order mark U+FEFF. *)
Definition isWhiteSpace3 (c1 c2 c3 : ascii) : bool :=
  let n1 := N_of_ascii c1 in
  let n2 := N_of_ascii c2 in
  let n3 := N_of_ascii c3 in
  ((n1 =? 225) && (n2 =? 154) && (n3 =? 128)
   || (n1 =? 226) && (n2 =? 128)
      && ((128 <=? n3) && (n3 <=? 138) || (n3 =? 168) || (n3 =? 169) || (n3 =? 175))
   || (n1 =? 226) && (n2 =? 129) && (n3 =? 159)
   || (n1 =? 227) && (n2 =? 128) && (n3 =? 128)
   || (n1 =? 239) && (n2 =? 187) && (n3 =? 191))%N.

(** Does the text begin with white space? *)
Definition startsWhite (s : string) : bool :=
  match s with
  | String c1 r1 =>
      isWhiteSpace c1
      || match r1 with
         | String c2 r2 =>
             isWhiteSpace2 c1 c2
             || match r2 with
                | String c3 _ => isWhiteSpace3 c1 c2 c3
                | EmptyString => false
                end
         | EmptyString => false
         end
  | EmptyString => false
  end.

(** [s.trimStart()]: the text without the white space it begins with. *)
Fixpoint trimStart (s : string) : string :=
  match s with
  | EmptyString => EmptyString
  | String c1 r1 =>
      if isWhiteSpace c1 then trimStart r1
      else
        match r1 with
        | String c2 r2 =>
            if isWhiteSpace2 c1 c2 then trimStart r2
            else
              match r2 with
              | String c3 r3 => if isWhiteSpace3 c1 c2 c3 then trimStart r3 else s
              | EmptyString => s
              end
        | EmptyString => s
        end
  end.

(** Is the text white space and nothing else? *)
Definition isBlank (s : string) : bool :=
  match trimStart s with
  | EmptyString => true
  | String _ _ => false
  end.

(** [s.trimEnd()]: the text without the longest end that is white
    space. *)
Fixpoint trimEnd (s : string) : string :=
  match s with
  | EmptyString => EmptyString
  | String c rest => if isBlank s then EmptyString else String c (trimEnd rest)
  end.

(** [s.trim()] *)
Definition trim (s : string) : string := trimEnd (trimStart s).

(** The text of the given bytes. *)
Definition bytes (codes : list nat) : string :=
  string_of_list_ascii (map ascii_of_nat codes).

(** The white space and the line terminators of JavaScript, in UTF-8:
    U+0009 to U+000D, U+0020, U+00A0, U+1680, U+2000 to U+200A, U+2028,
    U+2029, U+202F, U+205F, U+3000 and U+FEFF. *)
Definition whiteSpaces : list string :=
  ((λ n, bytes [n]) <$> [9; 10; 11; 12; 13; 32]%nat)
  ++ [bytes [194; 160]; bytes [225; 154; 128]]
  ++ ((λ n, bytes [226; 128; n]) <$> seq 128 11)
  ++ [bytes [226; 128; 168]; bytes [226; 128; 169]; bytes [226; 128; 175];
      bytes [226; 129; 159]; bytes [227; 128; 128]; bytes [239; 187; 191]].

(** The texts of a list, one after the other. *)
Definition joined (texts : list string) : string := foldr String.append "" texts.

(** A byte that begins a character of UTF-8; the others continue one. *)
Definition leadByte (c : ascii) : bool :=
  ((N_of_ascii c <? 128) || (192 <=? N_of_ascii c))%N.

Definition startsLead (s : string) : bool :=
  match s with
  | EmptyString => true
  | String c _ => leadByte c
  end.

(** An element with white space around it. *)
Definition padded (p : list string * string * list string) : string :=
  joined p.1.1 +:+ p.1.2 +:+ joined p.2.

Definition padding (p : list string * string * list string) : Prop :=
  Forall (.∈ whiteSpaces) p.1.1 ∧ Forall (.∈ whiteSpaces) p.2.

Definition noBreakSpace : string := bytes [194; 160].

Definition lineSeparator : string := bytes [226; 128; 168].

(** [Boolean(s)] for a string *)
Definition nonEmpty (s : string) : bool := negb (String.eqb s "").

(** [str.split(",").map((t) => t.trim()).filter(Boolean)], and
    [undefined] for [undefined]. *)
Definition strListToArray (str : option string) : option (list string) :=
  match str with
  | None => None
  | Some s => Some (List.filter nonEmpty (map trim (Str.split "," s)))
  end.


(** An element as [strListToArray] gives them: not empty, without a
    comma, and with no white space at either end ([trim] leaves it as
    it is). *)
Definition listItem (t : string) : Prop :=
  t ≠ "" ∧ Str.has_char "," t = false ∧ trim t = t.

(** * The process: what the actions do beyond the library

    [console.log] outside [lib/log.ts], the commands given to the shell,
    and [Deno.exit]. *)

(** A line printed by [console.log] itself, with the number of lines
    [lib/log.ts] had printed before it, and a command run by the shell. *)
Inductive Event :=
| Printed (after : nat) (text : string)
| Executed (cmd : string).

(** How a computation ends: it returns, it throws, or the process exits. *)
Inductive Outcome (A : Type) :=
| Returned (a : A)
| Thrown (e : exn)
| Exited (code : Z).
Arguments Returned {A} a.
Arguments Thrown {A} e.
Arguments Exited {A} code.

Section Process.
Context `{host : Host}.

Record Session := {
  world : World;
  events : list Event
}.

Definition Proc (A : Type) : Type := Session → Outcome A * Session.

Definition retP {A} (a : A) : Proc A := λ s, (Returned a, s).

Definition bindP {A B} (m : Proc A) (k : A → Proc B) : Proc B :=
  λ s, match m s with
       | (Returned a, s') => k a s'
       | (Thrown e, s') => (Thrown e, s')
       | (Exited code, s') => (Exited code, s')
       end.

Definition throwP {A} (e : exn) : Proc A := λ s, (Thrown e, s).

(** [Deno.exit(code)]: nothing after it runs, and no [catch] sees it. *)
Definition Deno_exit {A} (code : Z) : Proc A := λ s, (Exited code, s).

(** [try { m } catch (e) { handler(e) }] *)
Definition tryP {A} (m : Proc A) (handler : exn → Proc A) : Proc A :=
  λ s, match m s with
       | (Thrown e, s') => handler e s'
       | other => other
       end.

(** A computation of the library, run in the session. *)
Definition liftM {A} (m : M A) : Proc A :=
  λ s, match m (world s) with
       | (Ok a, w) => (Returned a, {| world := w; events := events s |})
       | (Err e, w) => (Thrown e, {| world := w; events := events s |})
       end.

(** [console.log(text)] *)
Definition console_log (text : string) : Proc unit :=
  λ s, (Returned tt,
        {| world := world s;
           events := events s ++ [Printed (length (console (world s))) text] |}).

#[global] Instance Proc_ret : MRet Proc := @retP.
#[global] Instance Proc_bind : MBind Proc := λ A B k m, bindP m k.

(** A session that begins in a world. *)
Definition session (w : World) : Session := {| world := w; events := [] |}.

End Process.

(** * [lib/distro.ts]: detectDistro *)

(** [a-zA-Z0-9] *)
Definition isAlnum (c : ascii) : bool :=
  let n := N_of_ascii c in
  ((48 <=? n) && (n <=? 57) || (65 <=? n) && (n <=? 90)
   || (97 <=? n) && (n <=? 122))%N.

(** The longest run of letters and digits a string begins with. *)
Fixpoint takeAlnum (s : string) : string :=
  match s with
  | String c rest => if isAlnum c then String c (takeAlnum rest) else EmptyString
  | EmptyString => EmptyString
  end.

(** [ID="?([a-zA-Z0-9]+)"?] at the start of [s]: what the group
    captures.  The quote after [ID=] is taken when it is there (without
    it, the group would have to begin with the quote). *)
Definition matchIdHere (s : string) : option string :=
  match s with
  | String "I" (String "D" (String "=" rest)) =>
      let rest :=
        match rest with
        | String "034" quoted => quoted
        | _ => rest
        end in
      match takeAlnum rest with
      | EmptyString => None
      | id => Some id
      end
  | _ => None
  end.

(** A line terminator, after which [^] matches under the flag [m]: of
    one byte, the line feed and the carriage return; *)
Definition isLineTerminator (c : ascii) : bool :=
  Ascii.eqb c "010" || Ascii.eqb c "013".

(** of three bytes, the line separator U+2028 and the paragraph
    separator U+2029. *)
Definition isLineTerminator3 (c1 c2 c3 : ascii) : bool :=
  ((N_of_ascii c1 =? 226) && (N_of_ascii c2 =? 128)
   && ((N_of_ascii c3 =? 168) || (N_of_ascii c3 =? 169)))%N.

(** [s.match(/^ID="?([a-zA-Z0-9]+)"?/m)?.[1]]: the capture at the first
    line start of [s] the pattern matches at; [lineStart] tells whether
    [s] begins a line.  The pattern matches at no byte of a separator,
    and the search goes on after it. *)
Fixpoint matchId (lineStart : bool) (s : string) : option string :=
  match (if lineStart then matchIdHere s else None) with
  | Some id => Some id
  | None =>
      match s with
      | EmptyString => None
      | String c1 rest =>
          match rest with
          | String c2 (String c3 rest') =>
              if isLineTerminator3 c1 c2 c3 then matchId true rest'
              else matchId (isLineTerminator c1) rest
          | _ => matchId (isLineTerminator c1) rest
          end
      end
  end.

(** [s.toLowerCase()], on the letters of ASCII *)
Definition toLowerCase (s : string) : string := mapChars toLower s.

Section Distro.
Context `{host : Host}.

Definition detectDistro : Proc string :=
  tryP
    (osRelease ← liftM (Deno_readTextFile "/etc/os-release");
     let selected := toLowerCase <$> matchId true osRelease in
     match selected with
     | Some id =>
         if String.eqb id "" then
           liftM (log LError ["Could not detect distribution ID from /etc/os-release."]);;
           Deno_exit 1
         else
           let availableDistros := getAvailableDistros in
           if negb (Str.includes id availableDistros) then
             throwP (Error ("Detected distribution " +:+ dquote +:+ id +:+ dquote
                            +:+ " is not supported. "
                            +:+ "Supported distributions are: "
                            +:+ String.concat ", " availableDistros +:+ "."))
           else retP id
     | None =>
         liftM (log LError ["Could not detect distribution ID from /etc/os-release."]);;
         Deno_exit 1
     end)
    (λ err,
       liftM (log LError ["Failed to detect distribution: " +:+ message err]);;
       Deno_exit 1).

End Distro.

(** ** Texts of [/etc/os-release] *)






(** The lines of a text, each closed by a line feed. *)
Fixpoint unlines (lines : list string) : string :=
  match lines with
  | [] => EmptyString
  | l :: rest => l +:+ String "010" (unlines rest)
  end.

Definition osReleaseTree (text : string) : Tree :=
  list_to_map [("/etc", DirNode); ("/etc/os-release", FileNode text 420%Z)].

(** A file whose first line is closed by the line separator U+2028. *)
Definition separatorText : string :=
  "NAME=x" +:+ lineSeparator +:+ "ID=arch" +:+ bytes [10]
  +:+ "ID=fedora" +:+ bytes [10].

(** The file of Fedora Asahi Remix, in short. *)
Definition asahiText : string :=
  unlines ["NAME=" +:+ dquote +:+ "Fedora Linux Asahi Remix" +:+ dquote;
           "VERSION_ID=42"; "ID_LIKE=fedora";
           "ID=fedora-asahi-remix"].

(** * Vocabulary for the library *)

(** What the [catch] of [ensureExecutable] does with an error. *)
Definition caught `{host : Host} (path : string) (err : exn) (w : World)
    : result exn bool * World :=
  match errorClass err with
  | NotFound =>
      (Ok false,
       addLine {| level := LWarn;
                  text := "File not found, cannot ensure executable: " +:+ path |} w)
  | PlainError =>
      (Err err,
       addLine {| level := LError;
                  text := "Error ensuring executable for " +:+ path +:+ ": "
                          +:+ message err |} w)
  end.

(** A file of mode 0o644, to make executable. *)
Definition plainScriptTree : Tree :=
  list_to_map
    [("/dots", DirNode);
     ("/dots/setup.sh", FileNode "echo setup" 420%Z)].

(** The call that puts an entry in place: a copy, or a link of the type
    of the source. *)
Definition placement (entry : ConfigSrc) (sourceIsDirectory : bool)
    (from_ to_ : string) : FsCall :=
  match method entry with
  | copy_ => CallCopy from_ to_
  | symlink_ =>
      CallSymlink from_ to_ (if sourceIsDirectory then TypeDir else TypeFile)
  end.

(** The error line of [performFileOperation]. *)
Definition operationFailed (cmpName from_ to_ : string) (e : exn) : LogLine :=
  {| level := LError;
     text := "Failed to perform file operation for " +:+ cmpName
             +:+ " (from: " +:+ from_ +:+ ", to: " +:+ to_ +:+ "): "
             +:+ message e |}.

(** The last steps of [performFileOperation], once the destination is
    free: the line that announces the copy or the link, the call, and
    the line of success or of failure. *)
Definition place `{host : Host} (cmpName : string) (entry : ConfigSrc)
    (sourceStat : FileInfo) (from_ to_ : string) (w : World)
    : result exn unit * World :=
  let started :=
    addLine {| level := LInfo;
               text := match method entry with
                       | copy_ => "Copying from " +:+ from_ +:+ " to " +:+ to_
                       | symlink_ =>
                           "Symlinking "
                           +:+ (if isDirectory sourceStat then "dir" else "file")
                           +:+ " from " +:+ from_ +:+ " to " +:+ to_
                       end |} w in
  let done :=
    match method entry with
    | copy_ => fs_copy from_ to_ (files w)
    | symlink_ =>
        fs_symlink from_ to_
          (if isDirectory sourceStat then TypeDir else TypeFile) (files w)
    end in
  let w' :=
    setFiles done.2
      (addCall (placement entry (isDirectory sourceStat) from_ to_) started) in
  match done.1 with
  | Ok _ =>
      (Ok tt,
       addLine {| level := LSuccess;
                  text := "Operation successful for " +:+ cmpName +:+ ": "
                          +:+ from_ +:+ " -> " +:+ to_ |} w')
  | Err e => (Err e, addLine (operationFailed cmpName from_ to_ e) w')
  end.

(** The paths [resolveManifest] looks at. *)
Definition manifestPathOf (sourcePath cmpName : string) : string :=
  Path.join [Path.join [sourcePath; cmpName]; "manifest.jsonc"].

Definition srcPathOf (sourcePath cmpName : string) : string :=
  Path.join [Path.join [sourcePath; cmpName]].

(** What a string holds before the first [sep]. *)
Fixpoint firstPiece (sep : ascii) (s : string) : string :=
  match s with
  | EmptyString => EmptyString
  | String c rest =>
      if Ascii.eqb c sep then EmptyString else String c (firstPiece sep rest)
  end.

(** The entries of the scripts directory [getComponentBuilds] takes for
    a machine id: [entry.isFile] and
    [entry.name.split(".")[0] === machineId]. *)
Definition scriptFor (machineId : string) (entry : DirEntry) : bool :=
  entry_isFile entry &&
  String.eqb (default "" (head (Str.split "." (entry_name entry)))) machineId.

(** [`bash -c "${fullPath}/${entry.name}"`] *)
Definition scriptCommand (fullPath : string) (entry : DirEntry) : string :=
  "bash -c " +:+ dquote +:+ (fullPath +:+ "/" +:+ entry_name entry) +:+ dquote.

(** A validated config entry as the JavaScript object it is. *)
Definition methodName (m : Method) : string :=
  match m with
  | copy_ => "copy"
  | symlink_ => "symlink"
  end.

Definition ConfigSrc_value (c : ConfigSrc) : json :=
  JObject [("from", JString (from c));
           ("to", JString (to c));
           ("method", JString (methodName (method c)));
           ("force", JBool (force c));
           ("tags", JArray (map JString (tags c)))].

(** A manifest that sets [priority] to [null] and [force] to the string
    ["false"]. *)
Definition coercedDocument : json :=
  JObject [("name", JString "zsh");
           ("priority", JNull);
           ("configs",
            JArray [JObject [("from", JString "zshrc");
                             ("to", JString "~/.zshrc");
                             ("method", JString "copy");
                             ("force", JString "false")]])].

(** * [lib/shell.ts]: runShellCommand *)

(** The shell of [@david/dax]: what running [$`'${cmd}'`] does.  It
    returns or throws, and the command may change the file system. *)
Class Shell (host : Host) := {
  sh_run : string → FileSystem → result exn unit * FileSystem
}.

Section Shell.
Context `{host : Host} `{shell : !Shell host}.

(** [for (const x of xs) body(x)], in the process *)
Fixpoint forEachP {A} (xs : list A) (body : A → Proc unit) : Proc unit :=
  match xs with
  | [] => retP tt
  | x :: rest => body x;; forEachP rest body
  end.

(** [await $`'${cmd}'`] *)
Definition dax (cmd : string) : Proc unit :=
  λ s, let '(r, fs) := sh_run cmd (files (world s)) in
       (match r with
        | Ok _ => Returned tt
        | Err e => Thrown e
        end,
        {| world := setFiles fs (world s);
           events := events s ++ [Executed cmd] |}).

(** [log.dryRun()]: a line of its own kind, printed as it is. *)
Definition log_dryRun : Proc unit :=
  console_log "[DRY-RUN] No changes applied...".

Definition runShellCommand (cmd : string) (dryRun : bool) : Proc unit :=
  if dryRun then
    log_dryRun;;
    console_log ("Simulating command: " +:+ cmd)
  else
    liftM (log LAction ["Executing command: " +:+ cmd]);;
    tryP (dax cmd)
      (λ error,
         liftM (log LError ["Command failed: " +:+ cmd; message error]);;
         throwP error).

End Shell.

(** * [actions/install.ts]: installBuilds and installConfigs *)

(** [z.infer<typeof schemaActionInstall>] *)
Record Flags := {
  flag_tags : option (list string);
  flag_exclude : option (list string);
  flag_sort : SortBy;
  flag_dryRun : bool;
  flag_force : bool;
  flag_skipBuilds : bool;
  flag_skipFiles : bool;
  flag_source : option string
}.

(** [config.method.toUpperCase()] *)
Definition methodUpper (m : Method) : string :=
  match m with
  | copy_ => "COPY"
  | symlink_ => "SYMLINK"
  end.

(** [config.method === "symlink" ? "🔗" : "📄"] *)
Definition methodIcon (m : Method) : string :=
  match m with
  | symlink_ => "🔗"
  | copy_ => "📄"
  end.

(** [config.tags.some((x) => selectedTags.includes(x))] *)
Definition hasTagged (selectedTags : list string) (config : ConfigSrc) : bool :=
  existsb (λ x, Str.includes x selectedTags) (tags config).

Section Actions.
Context `{host : Host} `{shell : !Shell host}.

(** [schema.parse(value)]: the typed value, or a [ZodError] thrown. *)
Definition parse {A} (schema : Schema A) (value : json) : Proc A :=
  match schema (Some value) with
  | Ok a => retP a
  | Err issues => throwP (ZodError issues)
  end.

Definition installBuilds (id : string) (entry : DotfileManifest loc) (flags : Flags)
    : Proc unit :=
  if flag_skipBuilds flags then
    liftM (log LSkip ["--skip-builds for " +:+ name entry +:+ "..."])
  else
    liftM (log LTitle ["Installing component " +:+ name entry +:+ "..."]);;
    tryP
      (commands ← liftM (getComponentBuilds id entry (flag_source flags));
       items ← liftM (reads (λ w, default [] (heap w !! commands)));
       if negb (0 <? length items)%nat then
         liftM (log LSkip [name entry +:+ " has no build commands."])
       else
         forEachP items (λ cmd, runShellCommand cmd (flag_dryRun flags)))
      (λ error,
         liftM (log LError ["Failed to execute builds for " +:+ name entry;
                            message error])).

Definition installConfigs {Arr} (id : string) (entry : DotfileManifest Arr) (f : Flags)
    : Proc unit :=
  tryP
    (let configs := configs entry in
     if flag_skipFiles f then
       liftM (log LSkip ["Component: " +:+ name entry +:+ ". --skip-files specified"])
     else if negb (hasLength configs) then
       liftM (log LSkip ["Component: " +:+ name entry +:+ " has no configs provided"])
     else
       liftM (log LInfo ["Configurations:"]);;
       forEachP (default [] configs) (λ rawConfig,
         config ← parse ConfigSrcSchema (ConfigSrc_value rawConfig);
         let selectedTags := autoTags (flag_tags f) id in
         if negb (hasTagged selectedTags config) then retP tt
         else
           let msg := methodIcon (method config) +:+ " " +:+ methodUpper (method config)
                      +:+ ": " +:+ from config +:+ " → " +:+ to config in
           console_log msg;;
           match flag_source f with
           | Some source =>
               if flag_dryRun f || String.eqb source "" then retP tt
               else liftM (performFileOperation source (name entry) config
                             (flag_force f))
           | None => retP tt
           end);;
       liftM (log LSuccess ["✔ Config: '" +:+ name entry +:+ "' installed!"]))
    (λ err,
       liftM (log LError ["Failed to install config for " +:+ dquote +:+ name entry
                          +:+ dquote +:+ ". " +:+ message err])).

End Actions.

(** * [actions/remove.ts] *)

(** [z.infer<typeof schemaActionRemove>] *)
Record RemoveFlags := {
  remove_dryRun : bool;
  remove_sourcePath : string
}.

Section Remove.
Context `{host : Host} `{shell : !Shell host}.

Definition schemaActionRemove : Schema RemoveFlags :=
  λ v, match v with
       | Some (JObject o) =>
           match
             both (field "dryRun" (z_default z_coerce_boolean false) o)
                  (field "sourcePath" (z_string "Invalid input: expected string") o)
           with
           | Ok (d, s) => Ok {| remove_dryRun := d; remove_sourcePath := s |}
           | Err e => Err e
           end
       | _ => Err (issue "Invalid input: expected object")
       end.

(** [[...args].filter((x) => typeof x === "string")] *)
Definition stringsOf (args : list json) : list string :=
  omap (λ x, match x with JString s => Some s | _ => None end) args.

(** The body of the loop over the component names. *)
Definition removeOne (flags : RemoveFlags) (cmpName : string) : Proc unit :=
  tryP
    (manifest ← liftM (resolveManifest cmpName (remove_sourcePath flags));
     if hasLength (cleanup manifest) then
       liftM (log LInfo ["Executing cleanup commands for " +:+ name manifest +:+ ":"]);;
       forEachP (default [] (cleanup manifest))
         (λ cmd, runShellCommand cmd (remove_dryRun flags))
     else
       liftM (log LInfo ["No cleanup commands found for " +:+ name manifest +:+ "."]))
    (λ error,
       liftM (log LError ["Failed to remove component " +:+ cmpName +:+ ": "
                          +:+ message error])).

Definition actionRemoveComponent (rawFlags : json) (args : list json) : Proc unit :=
  flags ← parse schemaActionRemove rawFlags;
  let cmpNames := stringsOf args in
  forEachP cmpNames (removeOne flags).

End Remove.

(** ** A shell for the examples *)

(** The command [false] fails, [touch /tmp/done] makes that file, every
    other command succeeds and changes nothing. *)
Definition tree_run (cmd : string) (t : Tree) : result exn unit * Tree :=
  if String.eqb cmd "false" then (Err (Error "Exited with code: 1"), t)
  else if String.eqb cmd "touch /tmp/done"
       then (Ok tt, <["/tmp/done" := FileNode "" 420%Z]> t)
       else (Ok tt, t).

Definition treeShell (documents : list (string * json)) : Shell (treeHost documents) :=
  @Build_Shell (treeHost documents) tree_run.

Definition dryRunFlags : Flags :=
  {| flag_tags := None; flag_exclude := None; flag_sort := byPriority;
     flag_dryRun := true; flag_force := false; flag_skipBuilds := false;
     flag_skipFiles := false; flag_source := Some "/dots" |}.

Definition installFlags : Flags :=
  {| flag_tags := None; flag_exclude := None; flag_sort := byPriority;
     flag_dryRun := false; flag_force := false; flag_skipBuilds := false;
     flag_skipFiles := false; flag_source := Some "/dots" |}.

(** ** Vocabulary for the actions *)

Definition isPrinted (e : Event) : bool :=
  match e with
  | Printed _ _ => true
  | Executed _ => false
  end.

(** From [s] to [s'] no command was run by the shell. *)
Definition runsNothing `{host : Host} (s s' : Session) : Prop :=
  ∃ printed, events s' = events s ++ printed ∧ Forall (λ e, isPrinted e = true) printed.

(** From [s] to [s'] nothing happened but printing: the file system,
    the environment, the heap and the calls are the same, the console
    has grown, and no command was run. *)
Definition printsOnly `{host : Host} (s s' : Session) : Prop :=
  files (world s') = files (world s) ∧
  HOME (world s') = HOME (world s) ∧
  cwd (world s') = cwd (world s) ∧
  heap (world s') = heap (world s) ∧
  calls (world s') = calls (world s) ∧
  (∃ lines, console (world s') = console (world s) ++ lines) ∧
  runsNothing s s'.

(** From [w] to [w'] nothing was done to the file system but to make
    the files of some paths executable, one after the other, and the
    environment is the same. *)
Definition chmodsOnly `{host : Host} (w w' : World) : Prop :=
  HOME w' = HOME w ∧ cwd w' = cwd w ∧
  ∃ paths,
    calls w' = calls w ++ map (λ path, CallChmod path 493) paths ∧
    files w' = foldl (λ fs path, (fs_chmod path 493 fs).2) (files w) paths.

Section Commands.
Context `{host : Host} `{shell : !Shell host}.

(** The file system after the shell has run the commands, one after
    the other. *)
Definition shFiles (fs : FileSystem) (cmds : list string) : FileSystem :=
  foldl (λ fs cmd, (sh_run cmd fs).2) fs cmds.

(** Each command succeeds on the file system the ones before it left. *)
Fixpoint succeeds (fs : FileSystem) (cmds : list string) : Prop :=
  match cmds with
  | [] => True
  | cmd :: rest => (sh_run cmd fs).1 = Ok tt ∧ succeeds (sh_run cmd fs).2 rest
  end.

(** The lines [runShellCommand] prints for a command it runs. *)
Definition executing (cmd : string) : LogLine :=
  {| level := LAction; text := "Executing command: " +:+ cmd |}.

Definition commandFailed (cmd : string) (e : exn) : LogLine :=
  {| level := LError; text := "Command failed: " +:+ cmd +:+ " " +:+ message e |}.

(** The commands were run from [s] to [s'], all with success. *)
Definition allRun (cmds : list string) (s s' : Session) : Prop :=
  succeeds (files (world s)) cmds ∧
  events s' = events s ++ map Executed cmds ∧
  files (world s') = shFiles (files (world s)) cmds ∧
  console (world s') = console (world s) ++ map executing cmds.

(** The commands were run from [s] to [s'] up to [cmd], which failed
    with [e] after [done] had succeeded; [rest] was not run. *)
Definition stoppedAt (done : list string) (cmd : string) (e : exn)
    (s s' : Session) : Prop :=
  succeeds (files (world s)) done ∧
  (sh_run cmd (shFiles (files (world s)) done)).1 = Err e ∧
  events s' = events s ++ map Executed (done ++ [cmd]) ∧
  files (world s') = (sh_run cmd (shFiles (files (world s)) done)).2 ∧
  console (world s')
  = console (world s) ++ map executing (done ++ [cmd]) ++ [commandFailed cmd e].

End Commands.

(** ** Examples for the actions *)

(** The commands of [shell] for [fedora], the second of which fails. *)
Definition failingHeap : gmap loc (list string) :=
  <[1%positive := ["a"; "false"; "b"]]> (<[2%positive := ["c"]]> ∅).

(** The scripts directory of [shell], its script not yet executable. *)
Definition plainBuildsTree : Tree :=
  list_to_map
    [("/dots", DirNode);
     ("/dots/shell", DirNode);
     ("/dots/shell/builds", DirNode);
     ("/dots/shell/builds/fedora.sh", FileNode "dnf install zsh" 420%Z)].

(** A component whose manifest has cleanup commands. *)
Definition tmuxDocument : json :=
  JObject [("name", JString "tmux");
           ("cleanup", JArray [JString "rm -rf ~/.tmux"; JString "false";
                               JString "touch /tmp/done"])].

Definition tmuxTree : Tree :=
  list_to_map
    [("/dots", DirNode);
     ("/dots/tmux", DirNode);
     ("/dots/tmux/manifest.jsonc", FileNode "// tmux" 420%Z)].

Definition tmuxDocuments : list (string * json) := [("// tmux", tmuxDocument)].

Definition removeFlags (dryRun : bool) : json :=
  JObject [("dryRun", JBool dryRun); ("sourcePath", JString "/dots")].

(** * [lib/manifest.ts]: printComponentsSummaries *)

Inductive PrintType := json_ | table_.

(** What the rendering is left to: [JSON.stringify(entries, null, 2)],
    [priority.toString()], and the text that
    [new Table().header(h).border(true).body(rows).render()] prints. *)
Class Printer := {
  JSON_stringify : list Manifest → string;
  Number_toString : Q → string;
  Table_toString : list string → list (list string) → string
}.

(** [self.indexOf(value)], counted from [i]; [-1] when it is not there. *)
Fixpoint indexOfFrom (i : nat) (value : string) (self : list string) : Z :=
  match self with
  | [] => (-1)%Z
  | x :: rest =>
      if String.eqb x value then Z.of_nat i else indexOfFrom (S i) value rest
  end.

Definition indexOf (value : string) (self : list string) : Z :=
  indexOfFrom 0 value self.

(** [arr.filter((value, index) => keep(value, index))], counted from [i] *)
Fixpoint filterFrom {A} (keep : A → nat → bool) (i : nat) (arr : list A) : list A :=
  match arr with
  | [] => []
  | x :: rest =>
      if keep x i then x :: filterFrom keep (S i) rest
      else filterFrom keep (S i) rest
  end.

(** [self.filter((value, index, self) => self.indexOf(value) === index)] *)
Definition uniqueTags (self : list string) : list string :=
  filterFrom (λ value index, (indexOf value self =? Z.of_nat index)%Z) 0 self.

(** [text || fallback], where [text] may be [undefined].  (The cells are
    taken without their colours; with colours on, a cell made of empty
    strings is not empty, and the fallback is for no entry at all.) *)
Definition orElse (text : option string) (fallback : string) : string :=
  match text with
  | Some s => if String.eqb s "" then fallback else s
  | None => fallback
  end.

Definition newline : string := String "010" EmptyString.

Section Summaries.
Context `{host : Host} `{printer : Printer}.

(** [cmp.configs?.map((x) => x.from).join("\n") || " N/A "] *)
Definition sourcePaths (cmp : Manifest) : string :=
  orElse ((λ cs, String.concat newline (map from cs)) <$> configs cmp) " N/A ".

Definition destPaths (cmp : Manifest) : string :=
  orElse ((λ cs, String.concat newline (map to cs)) <$> configs cmp) " N/A ".

Definition tagsCell (cmp : Manifest) : string :=
  orElse ((λ cs, String.concat ", " (uniqueTags (flat_map tags cs))) <$> configs cmp)
    " N/A ".

(** A row of the table. *)
Definition row (cmp : Manifest) : list string :=
  [name cmp;
   match priority cmp with
   | Some p => Number_toString p
   | None => "N/A"
   end;
   sourcePaths cmp; destPaths cmp; tagsCell cmp].

Definition printComponentsSummaries (entries : list Manifest) (printType : PrintType)
    : Proc unit :=
  match printType with
  | json_ => console_log (JSON_stringify entries)
  | table_ =>
      if (length entries =? 0)%nat then
        liftM (log LInfo ["No components found to display."])
      else
        console_log
          (Table_toString ["Component"; "Priority"; "Source"; "Destination"; "Tags"]
             (map row entries))
  end.

End Summaries.

(** * [actions/list.ts] *)

(** [text.replace(pattern, replacement)] for a pattern that is a string
    and a replacement without [$]: the first occurrence is replaced. *)
Fixpoint stripPrefix (p s : string) : option string :=
  match p, s with
  | EmptyString, _ => Some s
  | String a p', String b s' => if Ascii.eqb a b then stripPrefix p' s' else None
  | String _ _, EmptyString => None
  end.

Fixpoint replace (pattern replacement text : string) : string :=
  match stripPrefix pattern text with
  | Some rest => replacement +:+ rest
  | None =>
      match text with
      | EmptyString => EmptyString
      | String c rest => String c (replace pattern replacement rest)
      end
  end.

(** The title of a listing: [msg], then the tags when there is a
    component, then the excluded names when there are some. *)
Definition selectionTitle {Arr} (msg : string) (finalList : list (DotfileManifest Arr))
    (autoTags : list string) (exclude : option (list string)) : string :=
  msg
  +:+ (if (0 <? length finalList)%nat
       then " Tags: " +:+ replace ",*" "" (String.concat "," autoTags)
       else "")
  +:+ (if hasLength exclude
       then " | Excluded: " +:+ String.concat "," (default [] exclude)
       else "").

(** [z.boolean()] *)
Definition z_boolean : Schema bool :=
  λ v, match v with
       | Some (JBool b) => Ok b
       | _ => Err (issue "Invalid input: expected boolean")
       end.

(** [z.string().optional().transform(strListToArray)] *)
Definition z_strList : Schema (option (list string)) :=
  λ v, match z_optional (z_string "Invalid input: expected string") v with
       | Ok str => Ok (strListToArray str)
       | Err e => Err e
       end.

(** [z.enum(["priority", "name"]).optional().default("priority")] *)
Definition z_sort : Schema SortBy :=
  z_default (z_enum [("priority", byPriority); ("name", byName)] "Invalid option")
    byPriority.

(** [z.infer<typeof schemaActionList>] *)
Record ListFlags := {
  list_tags : option (list string);
  list_exclude : option (list string);
  list_json : option bool;
  list_table : option bool;
  list_sort : SortBy;
  list_source : option string
}.

(** The object, then the refinement [!(v.json && v.table)]. *)
Definition schemaActionList : Schema ListFlags :=
  λ v, match v with
       | Some (JObject o) =>
           match
             both (field "tags" z_strList o)
            (both (field "exclude" z_strList o)
            (both (field "json" (z_optional z_boolean) o)
            (both (field "table" (z_optional z_boolean) o)
            (both (field "sort" z_sort o)
                  (field "source"
                     (z_optional (z_string "Invalid input: expected string")) o)))))
           with
           | Ok (t, (e, (j, (tb, (so, src))))) =>
               if default false j && default false tb then
                 Err [{| issue_path := [Key "json"];
                         issue_message :=
                           "Can't use --json and --table at the same time." |}]
               else
                 Ok {| list_tags := t; list_exclude := e; list_json := j;
                       list_table := tb; list_sort := so; list_source := src |}
           | Err e => Err e
           end
       | _ => Err (issue "Invalid input: expected object")
       end.

Section List.
Context `{host : Host} `{printer : Printer}.

Definition actionListComponents (rawFlags : json) : Proc unit :=
  f ← parse schemaActionList rawFlags;
  let listType := if default false (list_json f) then json_ else table_ in
  tryP
    (machineId ← detectDistro;
     let autoTags := autoTags (list_tags f) machineId in
     all ← liftM (getAvailableManifests (list_sort f) [] (list_source f));
     let finalList := finalList (list_tags f) (list_exclude f) machineId all in
     let msg := selectionTitle "Available components:" finalList autoTags
                  (list_exclude f) in
     liftM (log LTitle [msg]);;
     printComponentsSummaries finalList listType)
    (λ e, liftM (log LError [message e])).

End List.

(** * [actions/install.ts]: the runner *)

Definition schemaActionInstall : Schema Flags :=
  λ v, match v with
       | Some (JObject o) =>
           match
             both (field "tags" z_strList o)
            (both (field "exclude" z_strList o)
            (both (field "sort" z_sort o)
            (both (field "dryRun" (z_default z_coerce_boolean false) o)
            (both (field "force" (z_default z_coerce_boolean false) o)
            (both (field "skipBuilds" (z_default z_coerce_boolean false) o)
            (both (field "skipFiles" (z_default z_coerce_boolean false) o)
                  (field "source"
                     (z_optional (z_string "Invalid input: expected string")) o)))))))
           with
           | Ok (t, (e, (so, (d, (fo, (sb, (sf, src))))))) =>
               Ok {| flag_tags := t; flag_exclude := e; flag_sort := so;
                     flag_dryRun := d; flag_force := fo; flag_skipBuilds := sb;
                     flag_skipFiles := sf; flag_source := src |}
           | Err e => Err e
           end
       | _ => Err (issue "Invalid input: expected object")
       end.

Section InstallRunner.
Context `{host : Host} `{shell : !Shell host} `{printer : Printer}.

(** The command lists of a parsed manifest are arrays: objects, which
    [getComponentBuilds] reaches by reference.  They are put in the heap
    where the runner hands the manifest on. *)
Fixpoint allocateAll (lists : list (string * list string)) : M (gmap string loc) :=
  match lists with
  | [] => ret ∅
  | (key, commands) :: rest =>
      array ← newArray commands;
      others ← allocateAll rest;
      ret (<[key := array]> others)
  end.

Definition allocate (entry : Manifest) : M (DotfileManifest loc) :=
  arrays ← match builds entry with
           | Some lists => arrays ← allocateAll (map_to_list lists); ret (Some arrays)
           | None => ret None
           end;
  ret {| name := name entry; description := description entry;
         priority := priority entry; builds := arrays;
         configs := configs entry; cleanup := cleanup entry |}.

Definition actionInstallComponents (rawFlags : json) (args : list json) : Proc unit :=
  let cmpNames := stringsOf args in
  f ← parse schemaActionInstall rawFlags;
  (if flag_skipFiles f && flag_skipBuilds f then
     liftM (log LError ["Can't use --only-files and --only-builds together."]);;
     Deno_exit 1
   else retP tt);;
  machineId ← detectDistro;
  let autoTags := autoTags (flag_tags f) machineId in
  all ← liftM (getAvailableManifests (flag_sort f) cmpNames (flag_source f));
  let finalList := finalList (flag_tags f) (flag_exclude f) machineId all in
  let msg := selectionTitle "Following component(s) will be installed." finalList
               autoTags (flag_exclude f) in
  liftM (log LTitle [msg]);;
  printComponentsSummaries finalList table_;;
  forEachP finalList (λ manifest,
    entry ← liftM (allocate manifest);
    installBuilds machineId entry f;;
    installConfigs machineId entry f).

End InstallRunner.

(** ** Vocabulary for the runners *)

(** The first occurrences in a list, of what was not [seen] before. *)
Fixpoint firsts (seen l : list string) : list string :=
  match l with
  | [] => []
  | x :: rest =>
      if Str.includes x seen then firsts seen rest
      else x :: firsts (x :: seen) rest
  end.

(** From [s] to [s'] no command was run, and nothing was done to the
    file system but to make files executable. *)
Definition dryStep `{host : Host} (s s' : Session) : Prop :=
  runsNothing s s' ∧ chmodsOnly (world s) (world s').

(** ** Examples for the runners *)

(** A printer for the examples: the names for JSON, a row per line with
    bars between the cells, and numbers as fractions. *)
Definition barPrinter : Printer :=
  {| JSON_stringify := λ entries, String.concat "," (map name entries);
     Number_toString := λ q,
       if (Qden q =? 1)%positive then pretty (Qnum q)
       else pretty (Qnum q) +:+ "/" +:+ pretty (Zpos (Qden q));
     Table_toString := λ header rows,
       unlines (map (String.concat " | ") (header :: rows)) |}.

(** A machine that runs Fedora, with the components of [exampleTree]
    and a component [shell] that has commands and a script. *)
Definition shellDocument : json :=
  JObject [("name", JString "shell");
           ("priority", JNumber 0%Q);
           ("builds",
            JObject [("fedora", JArray [JString "a"; JString "false"; JString "b"]);
                     ("*", JArray [JString "c"])])].

Definition fedoraDocuments : list (string * json) :=
  exampleDocuments ++ [("// shell", shellDocument)].

Definition fedoraTree : Tree :=
  <["/etc" := DirNode]>
  (<["/etc/os-release" := FileNode (unlines ["NAME=Fedora"; "ID=fedora"]) 420%Z]>
  (<["/dots/shell" := DirNode]>
  (<["/dots/shell/manifest.jsonc" := FileNode "// shell" 420%Z]>
  (<["/dots/shell/builds" := DirNode]>
  (<["/dots/shell/builds/fedora.sh" := FileNode "dnf install zsh" 420%Z]>
     exampleTree))))).

Definition fedoraSession : @Session (treeHost fedoraDocuments) :=
  session (treeWorld fedoraDocuments fedoraTree (Some "/home/u") "/work" ∅).

(** * Properties *)

#[local] Arguments Ascii.eqb : simpl never.
#[local] Arguments String.eqb : simpl never.

(** ** Strings and paths *)

(** The path functions on the paths of the examples. *)
Example path_examples :
  Path.resolve "/work" ["components"] = "/work/components" ∧
  Path.resolve "/work" ["/dots"; "vim"; "vimrc"] = "/dots/vim/vimrc" ∧
  Path.resolve "/work" ["/home/u/../v/./x/"] = "/home/v/x" ∧
  Path.join ["/dots"; "git"; "manifest.jsonc"] = "/dots/git/manifest.jsonc" ∧
  Path.join ["./components"; "shell"; "builds"] = "components/shell/builds" ∧
  Str.split "." "fedora.sh" = ["fedora"; "sh"].
Proof. repeat split. Qed.

(** The replacement of a leading [~]: the value of [HOME] is a
    replacement text, so [$&] in it stands for the [~] it replaces. *)
Example replaceTilde_examples :
  replaceTilde "~/x" "/home/u" = "/home/u/x" ∧
  replaceTilde "~" "/home/u" = "/home/u" ∧
  replaceTilde "~x" "/home/u" = "~x" ∧
  replaceTilde "~/x" "/h/$&" = "/h/~/x".
Proof. repeat split. Qed.






(** ** resolveHomePath *)






(** ** getComponentBuilds *)

(** [resolveHomePath] reads [HOME] and the working directory, nothing
    else, and leaves the world as it is. *)
Lemma resolveHomePath_run `{host : Host} (path : string) (w : World) :
  resolveHomePath path w = ((resolveHomePath path w).1, w).
Proof.
  unfold resolveHomePath, mbind, M_bind, bind, Deno_env_get_HOME, Deno_cwd, reads.
  destruct (Str.startsWith "~" path); simpl; [|reflexivity].
  destruct (HOME w) as [h|]; simpl; [|reflexivity].
  destruct (String.eqb h ""); reflexivity.
Qed.

Lemma resolveHomePath_env `{host : Host} (path : string) (w1 w2 : World) :
  HOME w1 = HOME w2 → cwd w1 = cwd w2 →
  (resolveHomePath path w1).1 = (resolveHomePath path w2).1.
Proof.
  intros Hh Hc.
  unfold resolveHomePath, mbind, M_bind, bind, Deno_env_get_HOME, Deno_cwd, reads.
  destruct (Str.startsWith "~" path); simpl; rewrite ?Hh, ?Hc; [|reflexivity].
  destruct (HOME w2) as [h|]; simpl; [|reflexivity].
  destruct (String.eqb h ""); simpl; rewrite ?Hc; reflexivity.
Qed.

Lemma snapshot_lookup (h : gmap loc (list string)) (man : DotfileManifest loc)
    (b : gmap string loc) (key : string) :
  builds man = Some b →
  builds (snapshot h man) ≫= (.!! key) = b !! key ≫= (h !!.).
Proof.
  intros Hb. unfold snapshot; simpl. rewrite Hb; simpl.
  now rewrite lookup_omap.
Qed.

(** The first list that is there, by reference; a new empty array when
    there is none.  Only the heap can change, and only by a new cell. *)
Lemma initialCommands_spec `{host : Host} (w : World) (machineId : string)
    (man : DotfileManifest loc) :
  allocated (heap w) man →
  ∃ commands h',
    initialCommands machineId man w = (Ok commands, setHeap h' w) ∧
    h' !! commands = Some (specStartingCommands (snapshot (heap w) man) machineId).
Proof.
  intros Hal. unfold initialCommands, specStartingCommands, snapshot. simpl.
  assert (Hnew : ∃ commands h',
             newArray [] w = (Ok commands, setHeap h' w) ∧ h' !! commands = Some []).
  { eexists _, _. split; [reflexivity|]. apply lookup_insert_eq. }
  destruct (builds man) as [b|] eqn:Hb; simpl; [|exact Hnew].
  rewrite !lookup_omap.
  destruct (b !! machineId) as [l|] eqn:Hl; simpl.
  { destruct (Hal b machineId l Hb Hl) as [c Hc]. rewrite Hc.
    exists l, (heap w). split; [|exact Hc]. now destruct w. }
  destruct (b !! "*") as [l|] eqn:Hs; simpl; [|exact Hnew].
  destruct (Hal b "*" l Hb Hs) as [c Hc]. rewrite Hc.
  exists l, (heap w). split; [|exact Hc]. now destruct w.
Qed.

(** C1: the command list [getComponentBuilds] starts from is
    [manifest.builds[machineId]] when that key is there (an empty list
    included), else [manifest.builds["*"]] when that is there, else the
    empty list, one of the three and never two of them joined; and with
    no scripts directory that list is what the call returns. *)
Theorem getComponentBuilds_starting_commands `{host : Host} (w : World)
    (machineId : string) (man : DotfileManifest loc) (source : option string) :
  allocated (heap w) man →
  (∃ commands w',
     initialCommands machineId man w = (Ok commands, w') ∧
     heap w' !! commands
       = Some (specStartingCommands (snapshot (heap w) man) machineId)) ∧
  (∀ fullPath,
     (resolveHomePath (buildsDir source man) w).1 = Ok fullPath →
     fs_exists (files w) fullPath = Ok false →
     ∃ commands w',
       getComponentBuilds machineId man source w = (Ok commands, w') ∧
       heap w' !! commands
         = Some (specStartingCommands (snapshot (heap w) man) machineId)).
Proof.
  intros Hal.
  destruct (initialCommands_spec w machineId man Hal) as (commands & h' & Hrun & Hget).
  split.
  - exists commands, (setHeap h' w). split; [exact Hrun | exact Hget].
  - intros fullPath Hres Hno.
    exists commands, (setHeap h' w). split; [|exact Hget].
    unfold getComponentBuilds, mbind, M_bind, bind. rewrite Hrun.
    rewrite resolveHomePath_run.
    rewrite (resolveHomePath_env _ (setHeap h' w) w eq_refl eq_refl), Hres.
    unfold exists_, reads; simpl. now rewrite Hno.
Qed.

(** ** The selection filter *)

Lemma filter_twice {X} (f g : X → bool) (l : list X) :
  List.filter g (List.filter f (List.filter g (List.filter f l)))
  = List.filter g (List.filter f l).
Proof.
  induction l as [|x l IH]; simpl; [reflexivity|].
  destruct (f x) eqn:Hf; simpl; [|exact IH].
  destruct (g x) eqn:Hg; simpl; [|exact IH].
  rewrite Hf; simpl. rewrite Hg. now f_equal.
Qed.

Lemma filter_once {X} (f : X → bool) (l : list X) :
  List.filter f (List.filter f l) = List.filter f l.
Proof.
  induction l as [|x l IH]; simpl; [reflexivity|].
  destruct (f x) eqn:Hf; simpl; [|exact IH].
  rewrite Hf. now f_equal.
Qed.

(** C9: the selection filter is idempotent. *)
Theorem finalList_idempotent {Arr} (tags exclude : option (list string))
    (machineId : string) (all : list (DotfileManifest Arr)) :
  finalList tags exclude machineId (finalList tags exclude machineId all)
  = finalList tags exclude machineId all.
Proof.
  unfold finalList, filteredByTags.
  destruct (hasLength exclude), (hasLength tags);
    auto using filter_twice, filter_once.
Qed.

(** ** Sorting *)

Section SortFacts.
Context {A : Type} (comparefn : A → A → number).

Lemma insertSorted_Permutation (x : A) (l : list A) :
  insertSorted comparefn x l ≡ₚ x :: l.
Proof.
  induction l as [|y l IH]; simpl; [reflexivity|].
  destruct (isPositive (comparefn x y)); [|reflexivity].
  rewrite IH. apply Permutation_swap.
Qed.

Lemma Array_sort_Permutation (l : list A) : Array_sort comparefn l ≡ₚ l.
Proof.
  induction l as [|x l IH]; simpl; [reflexivity|].
  rewrite insertSorted_Permutation. now constructor.
Qed.

Hypothesis comparefn_total :
  ∀ x y, isPositive (comparefn x y) = true → notAfter comparefn y x.
Hypothesis comparefn_trans :
  ∀ x y z, notAfter comparefn x y → notAfter comparefn y z → notAfter comparefn x z.

Lemma insertSorted_StronglySorted (x : A) (l : list A) :
  StronglySorted (notAfter comparefn) l →
  StronglySorted (notAfter comparefn) (insertSorted comparefn x l).
Proof.
  induction 1 as [|y l Hl IH Hy]; simpl.
  - repeat constructor.
  - destruct (isPositive (comparefn x y)) eqn:Hxy.
    + constructor; [exact IH|].
      rewrite insertSorted_Permutation. constructor; [|exact Hy].
      now apply comparefn_total.
    + constructor; [now constructor|].
      constructor; [exact Hxy|].
      eapply Forall_impl; [exact Hy|]. intros z Hz.
      now apply comparefn_trans with y.
Qed.

Lemma Array_sort_StronglySorted (l : list A) :
  StronglySorted (notAfter comparefn) (Array_sort comparefn l).
Proof.
  induction l as [|x l IH]; simpl; [constructor|].
  now apply insertSorted_StronglySorted.
Qed.

End SortFacts.

Lemma StronglySorted_weaken {A} (R S : A → A → Prop) (l : list A) :
  (∀ x y, R x y → S x y) → StronglySorted R l → StronglySorted S l.
Proof.
  intros HRS. induction 1 as [|x l Hl IH Hx]; constructor; [exact IH|].
  eapply Forall_impl; [exact Hx | auto].
Qed.

(** In a strongly sorted list, what comes later is not before. *)
Lemma StronglySorted_split {A} (R : A → A → Prop) (l1 l2 l3 : list A) (x y : A) :
  StronglySorted R (l1 ++ x :: l2 ++ y :: l3) → R x y.
Proof.
  induction l1 as [|z l1 IH]; simpl; intros Hs.
  - apply StronglySorted_inv in Hs as [_ Hx].
    rewrite Forall_app in Hx. destruct Hx as [_ Hx].
    now apply Forall_inv in Hx.
  - apply StronglySorted_inv in Hs as [Hs _]. auto.
Qed.

(** ** The order of character codes *)

Lemma compare_Gt_Lt (a b : string) :
  String.compare a b = Gt ↔ String.compare b a = Lt.
Proof.
  rewrite (String.compare_antisym a b).
  destruct (String.compare b a); simpl; split; congruence.
Qed.

Lemma compare_refl (a : string) : String.compare a a = Eq.
Proof. now apply OrderedTypeEx.String_as_OT.cmp_eq. Qed.

Lemma compare_Lt_trans (a b c : string) :
  String.compare a b = Lt → String.compare b c = Lt → String.compare a c = Lt.
Proof.
  intros E1 E2.
  apply OrderedTypeEx.String_as_OT.cmp_lt in E1, E2.
  now apply OrderedTypeEx.String_as_OT.cmp_lt,
    (OrderedTypeEx.String_as_OT.lt_trans _ _ _ E1 E2).
Qed.

Lemma nameLe_trans (a b c : string) : nameLe a b → nameLe b c → nameLe a c.
Proof.
  unfold nameLe. intros Hab Hbc.
  destruct (String.compare a b) eqn:E1; [| |congruence].
  - apply String.compare_eq_iff in E1 as ->. exact Hbc.
  - destruct (String.compare b c) eqn:E2; [| |congruence].
    + apply String.compare_eq_iff in E2 as <-. congruence.
    + rewrite (compare_Lt_trans a b c E1 E2). discriminate.
Qed.

Lemma compareCodes_sign (a b : string) :
  (compareCodes a b ?= 0)%Z = String.compare a b.
Proof. unfold compareCodes. now destruct (String.compare a b). Qed.

(** ** Collations *)

Section Collations.
Context `{host : Host}.

Lemma collates_sign (a b : string) :
  collates a b ↔ (localeCompare a b ?= 0)%Z ≠ Gt.
Proof. unfold collates. now rewrite Z.compare_le_iff. Qed.

(** The order of character codes is consistent, and in it only equal
    names compare as equal. *)
Lemma codeOrder_consistent : codeOrderCollation → consistentCollation.
Proof.
  intros Hcode. split.
  - intros a b. rewrite !Hcode. apply String.compare_antisym.
  - intros a b c. rewrite !collates_sign, !Hcode. apply nameLe_trans.
Qed.

Lemma codeOrder_separates :
  codeOrderCollation → ∀ a b, localeCompare a b = 0%Z → a = b.
Proof.
  intros Hcode a b Hz. apply String.compare_eq_iff. rewrite <- Hcode, Hz. reflexivity.
Qed.

Lemma codeOrder_collates :
  codeOrderCollation → ∀ a b, collates a b ↔ nameLe a b.
Proof. intros Hcode a b. unfold nameLe. now rewrite collates_sign, Hcode. Qed.

Hypothesis collation : consistentCollation.

Lemma collates_total (a b : string) : ¬ collates a b → collates b a.
Proof.
  destruct collation as (Hanti & _).
  rewrite !collates_sign, (Hanti a b).
  destruct (localeCompare a b ?= 0)%Z; simpl; intros H;
    first [discriminate | exfalso; apply H; discriminate].
Qed.

Lemma collates_antisym (a b : string) :
  collates a b → collates b a → localeCompare a b = 0%Z.
Proof.
  destruct collation as (Hanti & _).
  rewrite !collates_sign, (Hanti a b).
  destruct (localeCompare a b ?= 0)%Z eqn:E; simpl; try congruence.
  intros _ _. now apply Z.compare_eq_iff in E.
Qed.

Lemma collates_trans (a b c : string) : collates a b → collates b c → collates a c.
Proof. destruct collation as (_ & Htrans). apply Htrans. Qed.

End Collations.

(** The collation of the examples is consistent, and in it only equal
    names compare as equal. *)
Lemma mapChars_toLower_caseMark (a b : string) :
  mapChars toLower a = mapChars toLower b →
  mapChars caseMark a = mapChars caseMark b → a = b.
Proof.
  revert b. induction a as [|c a IH]; intros [|d b]; simpl; try congruence.
  intros [= Hl Hrest] [= Hm Hmarks]. f_equal; [|now apply IH].
  unfold toLower, caseMark in *.
  destruct (isUpper c) eqn:Hc, (isUpper d) eqn:Hd; try congruence.
  unfold isUpper in *.
  apply andb_true_iff in Hc as [_ Hc], Hd as [_ Hd].
  apply N.leb_le in Hc, Hd.
  apply (f_equal N_of_ascii) in Hl.
  rewrite !N_ascii_embedding in Hl by lia.
  rewrite <- (ascii_N_embedding c), <- (ascii_N_embedding d).
  f_equal. lia.
Qed.

Lemma letterCollation_sign (a b : string) :
  (letterCollation a b ?= 0)%Z =
  match String.compare (mapChars toLower a) (mapChars toLower b) with
  | Eq => String.compare (mapChars caseMark a) (mapChars caseMark b)
  | c => c
  end.
Proof.
  unfold letterCollation.
  destruct (String.compare (mapChars toLower a) (mapChars toLower b));
    [apply compareCodes_sign | reflexivity | reflexivity].
Qed.

Lemma letterCollation_consistent (documents : list (string * json)) :
  @consistentCollation (treeHost documents).
Proof.
  split; simpl.
  - intros a b. rewrite !letterCollation_sign.
    rewrite (String.compare_antisym (mapChars toLower a)),
            (String.compare_antisym (mapChars caseMark a)).
    now destruct (String.compare (mapChars toLower b) (mapChars toLower a)),
      (String.compare (mapChars caseMark b) (mapChars caseMark a)).
  - intros a b c. unfold collates, Z.le; simpl.
    rewrite !letterCollation_sign.
    destruct (String.compare (mapChars toLower a) (mapChars toLower b)) eqn:E1;
      [| |congruence];
      destruct (String.compare (mapChars toLower b) (mapChars toLower c)) eqn:E2;
      try congruence.
    + apply String.compare_eq_iff in E1, E2. rewrite E1, E2, compare_refl.
      apply nameLe_trans.
    + apply String.compare_eq_iff in E1. rewrite E1, E2. discriminate.
    + apply String.compare_eq_iff in E2. rewrite <- E2, E1. discriminate.
    + rewrite (compare_Lt_trans _ _ _ E1 E2). discriminate.
Qed.

Lemma letterCollation_separates (a b : string) :
  letterCollation a b = 0%Z → a = b.
Proof.
  intros Hz.
  assert (Hs : (letterCollation a b ?= 0)%Z = Eq) by now rewrite Hz.
  rewrite letterCollation_sign in Hs.
  destruct (String.compare (mapChars toLower a) (mapChars toLower b)) eqn:E;
    try discriminate.
  apply String.compare_eq_iff in E, Hs.
  now apply mapChars_toLower_caseMark.
Qed.

(** A collation that compares the images of the names under [f] is as
    consistent as the collation of the images. *)
Lemma consistentCollation_preimage (collation : string → string → Z)
    (f : string → string) (documents : list (string * json)) :
  @consistentCollation (treeHostWith collation documents) →
  @consistentCollation
    (treeHostWith (λ a b, collation (f a) (f b)) documents).
Proof.
  intros [Hanti Htrans]. split.
  - intros a b. exact (Hanti (f a) (f b)).
  - intros a b c. exact (Htrans (f a) (f b) (f c)).
Qed.

Lemma canonicalCollation_consistent (documents : list (string * json)) :
  @consistentCollation (treeHostWith canonicalCollation documents).
Proof.
  apply (consistentCollation_preimage letterCollation compose),
    letterCollation_consistent.
Qed.

(** ** The comparison functions of the catalog *)

Lemma isPositive_inject_Z (z : Z) :
  isPositive (Num (inject_Z z)) = match (z ?= 0)%Z with Gt => true | _ => false end.
Proof.
  unfold isPositive, Qcompare, inject_Z; simpl.
  rewrite Z.mul_1_r. now destruct z.
Qed.

Lemma isNegative_inject_Z (z : Z) :
  isNegative (Num (inject_Z z)) = match (z ?= 0)%Z with Lt => true | _ => false end.
Proof.
  unfold isNegative, Qcompare, inject_Z; simpl.
  rewrite Z.mul_1_r. now destruct z.
Qed.

Lemma isPositive_minus (x y : Q) :
  isPositive (Num (x - y)) = true ↔ (y < x)%Q.
Proof.
  unfold isPositive. destruct (0 ?= x - y)%Q eqn:E.
  - apply Qeq_alt in E. split; [discriminate | intros; lra].
  - apply Qlt_alt in E. split; [intros; lra | reflexivity].
  - apply Qgt_alt in E. split; [discriminate | intros; lra].
Qed.

Lemma isNegative_minus (x y : Q) :
  isNegative (Num (x - y)) = true ↔ (x < y)%Q.
Proof.
  unfold isNegative. destruct (x - y ?= 0)%Q eqn:E.
  - apply Qeq_alt in E. split; [discriminate | intros; lra].
  - apply Qlt_alt in E. split; [intros; lra | reflexivity].
  - apply Qgt_alt in E. split; [discriminate | intros; lra].
Qed.

#[local] Arguments isPositive : simpl never.
#[local] Arguments isNegative : simpl never.

Section Comparators.
Context `{host : Host} {Arr : Type}.
Implicit Types a b c : DotfileManifest Arr.

Lemma isPositive_zero : isPositive (Num (inject_Z 0)) = false.
Proof. reflexivity. Qed.

Lemma isNegative_zero : isNegative (Num (inject_Z 0)) = false.
Proof. reflexivity. Qed.

Lemma compareName_notAfter a b :
  notAfter compareName a b ↔ precedesByName a b.
Proof.
  unfold notAfter, compareName, precedesByName.
  rewrite isPositive_inject_Z, collates_sign.
  destruct (localeCompare (name a) (name b) ?= 0)%Z; split; congruence.
Qed.

Lemma comparePriority_notAfter a b :
  notAfter comparePriority a b ↔ precedesByPriority a b.
Proof.
  unfold notAfter, comparePriority, precedesByPriority.
  destruct (priority a) as [x|], (priority b) as [y|]; simpl.
  - destruct (Qeq_bool x y) eqn:E; simpl.
    + apply Qeq_bool_iff in E.
      rewrite isPositive_inject_Z, collates_sign.
      destruct (localeCompare (name a) (name b) ?= 0)%Z; split;
        try congruence; try (intros _; right; split; [exact E | congruence]).
      intros [H|[_ H]]; [lra | congruence].
    + apply Qeq_bool_neq in E.
      destruct (isPositive (Num (x - y))) eqn:P.
      * apply isPositive_minus in P.
        split; [discriminate | intros [H|[H _]]; lra].
      * split; [intros _; left | reflexivity].
        destruct (Qlt_le_dec y x) as [H|H].
        -- apply isPositive_minus in H. congruence.
        -- destruct (Qle_lt_or_eq _ _ H) as [H'|H']; [exact H' | congruence].
  - split; [intros _; left; exact I | reflexivity].
  - split; [discriminate | intros [[]|[[] _]]].
  - rewrite isPositive_inject_Z, collates_sign.
    destruct (localeCompare (name a) (name b) ?= 0)%Z; split;
      try congruence; try (intros _; right; split; [exact I | congruence]).
    intros [[]|[_ H]]. congruence.
Qed.

(** What makes the sort treat two components as equal. *)
Lemma compareName_equal a b :
  isPositive (compareName a b) = false → isNegative (compareName a b) = false →
  localeCompare (name a) (name b) = 0%Z.
Proof.
  unfold compareName. rewrite isPositive_inject_Z, isNegative_inject_Z.
  destruct (localeCompare (name a) (name b) ?= 0)%Z eqn:E; try discriminate.
  intros _ _. now apply Z.compare_eq_iff.
Qed.

Lemma comparePriority_equal a b :
  isPositive (comparePriority a b) = false →
  isNegative (comparePriority a b) = false →
  priorityEq (priority a) (priority b) ∧ localeCompare (name a) (name b) = 0%Z.
Proof.
  unfold comparePriority.
  destruct (priority a) as [x|], (priority b) as [y|]; simpl; try discriminate.
  - destruct (Qeq_bool x y) eqn:E; simpl.
    + apply Qeq_bool_iff in E. intros P N. split; [exact E|].
      now apply compareName_equal.
    + apply Qeq_bool_neq in E. intros P N. exfalso.
      destruct (Q_dec x y) as [[Hlt|Hgt]|Heq]; [| |tauto].
      * apply isNegative_minus in Hlt. congruence.
      * apply isPositive_minus in Hgt. congruence.
  - intros P N. split; [exact I|]. now apply compareName_equal.
Qed.

(** And conversely. *)
Lemma compareName_tie a b :
  localeCompare (name a) (name b) = 0%Z →
  isPositive (compareName a b) = false ∧ isNegative (compareName a b) = false.
Proof.
  unfold compareName. intros ->. split; [apply isPositive_zero | apply isNegative_zero].
Qed.

Lemma comparePriority_tie a b :
  priorityEq (priority a) (priority b) → localeCompare (name a) (name b) = 0%Z →
  isPositive (comparePriority a b) = false ∧ isNegative (comparePriority a b) = false.
Proof.
  unfold comparePriority.
  destruct (priority a) as [x|], (priority b) as [y|]; simpl; try tauto.
  - intros E ->. apply Qeq_bool_iff in E. rewrite E. simpl.
    split; [apply isPositive_zero | apply isNegative_zero].
  - intros _ ->. split; [apply isPositive_zero | apply isNegative_zero].
Qed.

Hypothesis collation : consistentCollation.

Lemma precedesByPriority_total a b :
  ¬ precedesByPriority a b → precedesByPriority b a.
Proof.
  unfold precedesByPriority. intros H.
  destruct (priority a) as [x|], (priority b) as [y|]; simpl in *.
  - destruct (Q_dec x y) as [[Hlt|Hgt]|Heq].
    + exfalso. apply H. now left.
    + now left.
    + right. split; [lra|]. apply collates_total; [exact collation|].
      intros Hn. apply H. now right.
  - exfalso. apply H. now left.
  - now left.
  - right. split; [exact I|]. apply collates_total; [exact collation|].
    intros Hn. apply H. now right.
Qed.

Lemma precedesByPriority_trans a b c :
  precedesByPriority a b → precedesByPriority b c → precedesByPriority a c.
Proof.
  unfold precedesByPriority.
  destruct (priority a) as [x|], (priority b) as [y|], (priority c) as [z|];
    simpl; intros [H1|[H1 N1]] [H2|[H2 N2]]; try tauto;
    try (left; lra).
  - right. split; [lra | eauto using collates_trans].
  - right. split; [exact I | eauto using collates_trans].
Qed.

Lemma comparePriority_total a b :
  isPositive (comparePriority a b) = true → notAfter comparePriority b a.
Proof.
  intros H. apply comparePriority_notAfter, precedesByPriority_total.
  rewrite <- comparePriority_notAfter. unfold notAfter. congruence.
Qed.

Lemma comparePriority_trans a b c :
  notAfter comparePriority a b → notAfter comparePriority b c →
  notAfter comparePriority a c.
Proof.
  rewrite !comparePriority_notAfter. apply precedesByPriority_trans.
Qed.

Lemma compareName_total a b :
  isPositive (compareName a b) = true → notAfter compareName b a.
Proof.
  intros H. apply compareName_notAfter, collates_total; [exact collation|].
  change (¬ precedesByName a b).
  rewrite <- compareName_notAfter. unfold notAfter. congruence.
Qed.

Lemma compareName_trans a b c :
  notAfter compareName a b → notAfter compareName b c → notAfter compareName a c.
Proof.
  rewrite !compareName_notAfter. apply collates_trans. exact collation.
Qed.

End Comparators.

(** C4, as amended: the sorted catalog holds the components it was
    given.  In [priority] mode it is ordered by ascending priority, an
    absent priority above every number, and where the priorities tie by
    name in the order of the host's collation ([localeCompare]); in
    [name] mode by name in that order alone; any two components are
    comparable, and no component without priority comes before one of
    priority 0: all this for every collation that compares
    consistently.  Two components compare as equal exactly when their
    priorities are equal (in [priority] mode) and the collation takes
    their names for equal, so they have the same name where the
    collation tells these two names apart.  A component of priority 0
    compares as less than every component without priority.  The order
    of the names is the case-sensitive lexicographic one exactly on the
    hosts whose collation is the order of character codes; that
    collation is consistent and tells all different names apart. *)
Theorem sortManifests_order `{host : Host} {Arr : Type}
    (manifests : list (DotfileManifest Arr)) :
  (sortManifests byPriority manifests ≡ₚ manifests ∧
   sortManifests byName manifests ≡ₚ manifests) ∧
  (consistentCollation →
   StronglySorted precedesByPriority (sortManifests byPriority manifests) ∧
   StronglySorted precedesByName (sortManifests byName manifests) ∧
   (∀ a b : DotfileManifest Arr,
      (precedesByPriority a b ∨ precedesByPriority b a) ∧
      (precedesByName a b ∨ precedesByName b a)) ∧
   (∀ (a b : DotfileManifest Arr) (q : Q),
      priority a = Some q → (q == 0)%Q → priority b = None →
      ∀ l1 l2 l3, sortManifests byPriority manifests ≠ l1 ++ b :: l2 ++ a :: l3)) ∧
  (∀ a b : DotfileManifest Arr,
     (isPositive (comparePriority a b) = false ∧
      isNegative (comparePriority a b) = false
      ↔ priorityEq (priority a) (priority b) ∧
        localeCompare (name a) (name b) = 0%Z) ∧
     (isPositive (compareName a b) = false ∧
      isNegative (compareName a b) = false
      ↔ localeCompare (name a) (name b) = 0%Z) ∧
     ((localeCompare (name a) (name b) = 0%Z → name a = name b) →
      (isPositive (comparePriority a b) = false →
       isNegative (comparePriority a b) = false → name a = name b) ∧
      (isPositive (compareName a b) = false →
       isNegative (compareName a b) = false → name a = name b))) ∧
  (∀ (a b : DotfileManifest Arr) (q : Q),
     priority a = Some q → (q == 0)%Q → priority b = None →
     isNegative (comparePriority a b) = true) ∧
  (codeOrderCollation →
   consistentCollation ∧
   (∀ x y : string, localeCompare x y = 0%Z → x = y) ∧
   (∀ x y : string, collates x y ↔ nameLe x y)).
Proof.
  split; [split; apply Array_sort_Permutation|].
  split; [|split; [|split]].
  - intros collation.
    assert (HP : StronglySorted precedesByPriority
                   (sortManifests byPriority manifests)).
    { apply StronglySorted_weaken with (R := notAfter comparePriority).
      - intros x y. now apply comparePriority_notAfter.
      - apply Array_sort_StronglySorted;
          eauto using comparePriority_total, comparePriority_trans. }
    split; [exact HP|]. split; [|split].
    + apply StronglySorted_weaken with (R := notAfter compareName).
      * intros x y. now apply compareName_notAfter.
      * apply Array_sort_StronglySorted;
          eauto using compareName_total, compareName_trans.
    + intros a b. split.
      * destruct (isPositive (comparePriority a b)) eqn:E.
        -- right. now apply comparePriority_notAfter, comparePriority_total.
        -- left. now apply comparePriority_notAfter.
      * destruct (isPositive (compareName a b)) eqn:E.
        -- right. now apply compareName_notAfter, compareName_total.
        -- left. now apply compareName_notAfter.
    + intros a b q Ha Hq Hb l1 l2 l3 E. rewrite E in HP.
      apply StronglySorted_split in HP.
      unfold precedesByPriority in HP. rewrite Ha, Hb in HP.
      simpl in HP. tauto.
  - intros a b. split; [|split].
    + split.
      * intros [P N]. now apply comparePriority_equal.
      * intros [E Z]. now apply comparePriority_tie.
    + split.
      * intros [P N]. now apply compareName_equal.
      * apply compareName_tie.
    + intros Hapart. split; intros P N; apply Hapart.
      * now apply (comparePriority_equal a b).
      * now apply compareName_equal.
  - intros a b q Ha Hq Hb. unfold comparePriority. now rewrite Ha, Hb.
  - intros Hcode. split; [now apply codeOrder_consistent|].
    split; [now apply codeOrder_separates | now apply codeOrder_collates].
Qed.

(** The theorem on a host whose collation takes canonically equivalent
    names for equal: the two spellings of [café] compare as equal, the
    collation is consistent all the same, and the catalog is sorted,
    with the two in the order they were found in. *)
Lemma sortManifests_order_witness :
  @localeCompare (treeHostWith canonicalCollation []) cafe cafe' = 0%Z ∧
  cafe ≠ cafe' ∧
  @consistentCollation (treeHostWith canonicalCollation []) ∧
  StronglySorted (@precedesByPriority (treeHostWith canonicalCollation []) _)
    (@sortManifests (treeHostWith canonicalCollation []) _ byPriority
       (component cafe' None :: component cafe None :: exampleCatalog)) ∧
  @sortManifests (treeHostWith canonicalCollation []) _ byPriority
    (component cafe' None :: component cafe None :: exampleCatalog)
  = [component "core" (Some 0%Q); component "bash" (Some 1%Q);
     component "git" (Some 5%Q); component cafe' None; component cafe None;
     component "vim" None; component "Zsh" None].
Proof.
  split; [reflexivity|]. split; [discriminate|].
  split; [apply canonicalCollation_consistent|]. split.
  - apply (@sortManifests_order (treeHostWith canonicalCollation []) _
             (component cafe' None :: component cafe None :: exampleCatalog)).
    apply canonicalCollation_consistent.
  - reflexivity.
Defined.

(** C4 as stated fails: in the case-sensitive lexicographic order [Zsh]
    is before [alacritty] (upper case before lower case), but
    [localeCompare] puts [alacritty] first, and so does the catalog in
    either mode. *)
Lemma sortManifests_letters_before_case :
  String.compare "Zsh" "alacritty" = Lt ∧
  @sortManifests (treeHost []) _ byName
    [component "Zsh" None; component "alacritty" None]
  = [component "alacritty" None; component "Zsh" None] ∧
  @sortManifests (treeHost []) _ byPriority
    [component "Zsh" None; component "alacritty" None]
  = [component "alacritty" None; component "Zsh" None].
Proof. repeat split. Qed.

(** The hosts of the two collations exist. *)
Lemma compareCodes_codeOrder (documents : list (string * json)) :
  @codeOrderCollation (treeHostWith compareCodes documents).
Proof. intros a b. apply compareCodes_sign. Qed.

(** ** Computations that only read the file system *)

Section Readers.
Context `{host : Host}.

Lemma readsFiles_ret {A} (a : A) : readsFiles (ret a).
Proof. intros w. split; reflexivity. Qed.

Lemma readsFiles_throw {A} (e : exn) : readsFiles (throw (A := A) e).
Proof. intros w. split; reflexivity. Qed.

Lemma readsFiles_bind {A B} (m : M A) (k : A → M B) :
  readsFiles m → (∀ a, readsFiles (k a)) → readsFiles (bind m k).
Proof.
  intros Hm Hk w. unfold bind.
  destruct (Hm w) as [Hw Hr].
  split.
  - destruct (m w) as [[a|e] w1]; simpl in *; subst; [apply Hk | reflexivity].
  - intros w' Hf. specialize (Hr w' Hf).
    destruct (Hm w') as [Hw' _].
    destruct (m w) as [[a|e] w1], (m w') as [[a'|e'] w1'];
      simpl in *; subst; try congruence.
    injection Hr as ->. now apply Hk.
Qed.

Lemma readsFiles_try {A} (m : M A) (handler : exn → M A) :
  readsFiles m → (∀ e, readsFiles (handler e)) → readsFiles (try m handler).
Proof.
  intros Hm Hh w. unfold try.
  destruct (Hm w) as [Hw Hr].
  split.
  - destruct (m w) as [[a|e] w1]; simpl in *; subst; [reflexivity | apply Hh].
  - intros w' Hf. specialize (Hr w' Hf).
    destruct (Hm w') as [Hw' _].
    destruct (m w) as [[a|e] w1], (m w') as [[a'|e'] w1'];
      simpl in *; subst; try congruence.
    injection Hr as ->. now apply Hh.
Qed.

Lemma readsFiles_liftResult {A} (f : FileSystem → result exn A) :
  readsFiles (liftResult (λ w, f (files w))).
Proof. intros w. split; [reflexivity|]. intros w' Hf. simpl. now rewrite Hf. Qed.

Lemma readsFiles_exists (path : string) : readsFiles (exists_ path).
Proof.
  intros w. split; [reflexivity|]. intros w' Hf.
  unfold exists_, reads. simpl. now rewrite Hf.
Qed.

Lemma readsFiles_forEach {A} (xs : list A) (body : A → M unit) :
  (∀ x, readsFiles (body x)) → readsFiles (forEach xs body).
Proof.
  intros Hb. induction xs as [|x xs IH]; simpl.
  - apply readsFiles_ret.
  - apply readsFiles_bind; [apply Hb | intros _; exact IH].
Qed.

Lemma readsFiles_if {A} (c : bool) (m1 m2 : M A) :
  readsFiles m1 → readsFiles m2 → readsFiles (if c then m1 else m2).
Proof. now destruct c. Qed.

Ltac reader :=
  repeat first
    [ apply readsFiles_ret
    | apply readsFiles_throw
    | apply readsFiles_exists
    | apply (readsFiles_liftResult (λ fs, fs_stat fs _))
    | apply (readsFiles_liftResult (λ fs, fs_readTextFile fs _))
    | apply (readsFiles_liftResult (λ _, _))
    | apply readsFiles_if
    | apply readsFiles_forEach; intros ?
    | apply readsFiles_try; [|intros ?]
    | apply readsFiles_bind; [|intros ?]
    | match goal with |- readsFiles (match ?x with _ => _ end) => destruct x end ].

Lemma resolveManifest_readsFiles (cmpName sourcePath : string) :
  readsFiles (resolveManifest cmpName sourcePath).
Proof.
  unfold resolveManifest, mbind, M_bind, Deno_stat, Deno_readTextFile.
  reader.
Qed.

End Readers.

(** ** The catalog *)

Section CatalogFacts.
Context `{host : Host}.

Lemma addLine_addLines (l : LogLine) (lines : list LogLine) (w : World) :
  addLine l (addLines lines w) = addLines (lines ++ [l]) w.
Proof. unfold addLine, addLines; simpl. now rewrite app_assoc. Qed.

Lemma addLines_nil (w : World) : addLines [] w = w.
Proof. destruct w. unfold addLines; simpl. now rewrite app_nil_r. Qed.

(** One component: its manifest, or a warning and nothing. *)
Lemma getManifest_run (entryName componentsPath : string) (w : World) :
  getManifest entryName componentsPath w =
  match (resolveManifest entryName componentsPath w).1 with
  | Ok manifest => (Ok (Some manifest), w)
  | Err e =>
      (Ok None,
       addLine {| level := LWarn;
                  text := "Skipping component '" +:+ entryName +:+ "': "
                          +:+ message e |} w)
  end.
Proof.
  unfold getManifest, try, mbind, M_bind, bind.
  destruct (resolveManifest_readsFiles entryName componentsPath w) as [Hw _].
  destruct (resolveManifest entryName componentsPath w) as [[m|e] w1];
    simpl in *; subst; reflexivity.
Qed.

Lemma resolveManifest_addLines (entryName componentsPath : string)
    (lines : list LogLine) (w : World) :
  (resolveManifest entryName componentsPath (addLines lines w)).1
  = (resolveManifest entryName componentsPath w).1.
Proof.
  now apply (resolveManifest_readsFiles entryName componentsPath w).
Qed.

(** The loop over the entries of the source directory, and with
    [keep := λ _, true] and the names as entries the loop over the
    explicit names: every component is resolved as if it were alone. *)
Lemma collect_run {X} (nameOf : X → string) (keep : X → bool) (xs : list X)
    (componentsPath : string) (acc : list Manifest) (lines : list LogLine)
    (w : World) :
  forEachPush xs
    (λ x, if keep x then getManifest (nameOf x) componentsPath else ret None)
    acc (addLines lines w)
  = (Ok (acc ++ omap (resolved w componentsPath) (nameOf <$> List.filter keep xs)),
     addLines (lines ++ skipWarnings w componentsPath (nameOf <$> List.filter keep xs)) w).
Proof.
  revert acc lines. induction xs as [|x xs IH]; intros acc lines; simpl.
  - now rewrite !app_nil_r.
  - unfold mbind, M_bind, bind. destruct (keep x); simpl.
    + rewrite getManifest_run, resolveManifest_addLines.
      unfold resolved, skipWarnings in *. simpl.
      destruct (resolveManifest (nameOf x) componentsPath w).1 as [m|e]; simpl.
      * rewrite IH. now rewrite <- app_assoc.
      * rewrite addLine_addLines, IH. now rewrite <- app_assoc.
    + apply IH.
Qed.

Lemma filter_all {X} (xs : list X) : List.filter (λ _, true) xs = xs.
Proof. induction xs; simpl; congruence. Qed.

Lemma explicit_run (cmpNames : list string) (componentsPath : string) (w : World) :
  forEachPush cmpNames (λ cmpName, getManifest cmpName componentsPath) [] w
  = (Ok (omap (resolved w componentsPath) cmpNames),
     addLines (skipWarnings w componentsPath cmpNames) w).
Proof.
  rewrite <- (addLines_nil w) at 1.
  pose proof (collect_run id (λ _, true) cmpNames componentsPath [] [] w) as H.
  rewrite filter_all, list_fmap_id in H. exact H.
Qed.

Lemma enumerate_run (entries : list DirEntry) (componentsPath : string) (w : World) :
  forEachPush entries
    (λ entry, if entry_isDirectory entry
              then getManifest (entry_name entry) componentsPath
              else ret None) [] w
  = (Ok (omap (resolved w componentsPath)
           (entry_name <$> List.filter entry_isDirectory entries)),
     addLines (skipWarnings w componentsPath
                 (entry_name <$> List.filter entry_isDirectory entries)) w).
Proof.
  rewrite <- (addLines_nil w) at 1.
  exact (collect_run entry_name entry_isDirectory entries componentsPath [] [] w).
Qed.

End CatalogFacts.

(** What the catalog does, case by case: the answer of [exists] for the
    source root, then the names or the listing of the root. *)
Lemma getAvailableManifests_run `{host : Host} (w : World)
    (sortBy : SortBy) (cmpNames : list string) (source : option string) :
  let root := componentsPathOf source (cwd w) in
  let catalog names :=
    (Ok (sortManifests sortBy (omap (resolved w root) names)),
     addLines (skipWarnings w root names) w) in
  getAvailableManifests sortBy cmpNames source w
  = match fs_exists (files w) root with
    | Err e => (Err e, w)
    | Ok false =>
        (Ok [],
         addLine {| level := LError;
                    text := "Components source directory not found: " +:+ root |} w)
    | Ok true =>
        match cmpNames with
        | _ :: _ => catalog cmpNames
        | [] =>
            match fs_readDir (files w) root with
            | Ok entries =>
                catalog (entry_name <$> List.filter entry_isDirectory entries)
            | Err e => (Err e, w)
            end
        end
    end.
Proof.
  cbn zeta.
  unfold getAvailableManifests, mbind, M_bind, bind, Deno_cwd, exists_, reads,
    liftResult.
  cbn [fst snd].
  destruct (fs_exists (files w) (componentsPathOf source (cwd w))) as [[|]|e];
    cbn [negb]; [|reflexivity..].
  destruct cmpNames as [|n ns].
  - change (0 <? length [])%nat with false. cbv iota.
    unfold Deno_readDir, liftResult.
    destruct (fs_readDir (files w) (componentsPathOf source (cwd w))) as [entries|e];
      [|reflexivity].
    now rewrite enumerate_run.
  - change (0 <? length (n :: ns))%nat with true. cbv iota.
    now rewrite explicit_run.
Qed.

(** When the source root is not there, the catalog is the empty list
    and one error is reported. *)
Lemma getAvailableManifests_missing_root `{host : Host} (w : World)
    (sortBy : SortBy) (cmpNames : list string) (source : option string) :
  fs_exists (files w) (componentsPathOf source (cwd w)) = Ok false →
  getAvailableManifests sortBy cmpNames source w
  = (Ok [],
     addLine {| level := LError;
                text := "Components source directory not found: "
                        +:+ componentsPathOf source (cwd w) |} w).
Proof. intros Hno. rewrite getAvailableManifests_run. cbn zeta. now rewrite Hno. Qed.

(** C5, as amended: under a source root that is there, a component
    whose resolution fails is left out with a warning and changes
    nothing for the others.  With explicit names the catalog does not
    throw and is the sorted list of the components that resolve, each
    resolved as if it were alone, and the console gains one warning for
    each component that fails; without explicit names the same holds of
    the directories the root lists.  Under a root that [exists] finds
    missing the catalog is empty, whatever the names resolve to.  The
    catalog throws only what the look for the root or its listing
    throws, never what the resolution of a component throws. *)
Theorem getAvailableManifests_skips_failures `{host : Host} (w : World)
    (sortBy : SortBy) (cmpNames : list string) (source : option string) :
  let root := componentsPathOf source (cwd w) in
  (fs_exists (files w) root = Ok true →
   (cmpNames ≠ [] →
    getAvailableManifests sortBy cmpNames source w
    = (Ok (sortManifests sortBy (omap (resolved w root) cmpNames)),
       addLines (skipWarnings w root cmpNames) w)) ∧
   (cmpNames = [] →
    ∀ entries,
      fs_readDir (files w) root = Ok entries →
      getAvailableManifests sortBy cmpNames source w
      = (Ok (sortManifests sortBy
               (omap (resolved w root)
                  (entry_name <$> List.filter entry_isDirectory entries))),
         addLines (skipWarnings w root
                     (entry_name <$> List.filter entry_isDirectory entries)) w))) ∧
  (fs_exists (files w) root = Ok false →
   (getAvailableManifests sortBy cmpNames source w).1 = Ok []) ∧
  (∀ e, getAvailableManifests sortBy cmpNames source w = (Err e, w) ↔
        fs_exists (files w) root = Err e ∨
        cmpNames = [] ∧ fs_exists (files w) root = Ok true ∧
        fs_readDir (files w) root = Err e).
Proof.
  cbn zeta. rewrite getAvailableManifests_run. cbn zeta. split; [|split].
  - intros ->. split.
    + intros Hne. destruct cmpNames; [congruence | reflexivity].
    + intros -> entries ->. reflexivity.
  - intros ->. reflexivity.
  - intros e.
    destruct (fs_exists (files w) (componentsPathOf source (cwd w))) as [[|]|e0].
    + destruct cmpNames as [|n ns].
      * destruct (fs_readDir (files w) (componentsPathOf source (cwd w)))
          as [entries|e1].
        -- split; [discriminate | intros [[=]|(_ & _ & [=])]].
        -- split; [intros [= <-]; auto | now intros [[=]|(_ & _ & [= <-])]].
      * split; [discriminate | intros [[=]|([=] & _)]].
    + split; [discriminate | intros [[=]|(_ & [=] & _)]].
    + split; [intros [= <-]; auto | now intros [[= <-]|(_ & [=] & _)]].
Qed.

(** ** Counting *)

Lemma occurrences_Permutation {X} `{EqDecision X} (x : X) (l1 l2 : list X) :
  l1 ≡ₚ l2 → occurrences x l1 = occurrences x l2.
Proof. intros Hp. unfold occurrences. now rewrite Hp. Qed.

Lemma occurrences_omap {X Y} `{EqDecision Y} (f : X → option Y) (y : Y) (l : list X) :
  occurrences y (omap f l) = length (filter (λ x, f x = Some y) l).
Proof.
  unfold occurrences. induction l as [|x l IH]; simpl; [reflexivity|].
  rewrite (filter_cons (λ x, f x = Some y)).
  destruct (f x) as [z|] eqn:E.
  - rewrite filter_cons.
    repeat case_decide; simplify_eq; simpl; try congruence;
      change (list_omap X Y f l) with (omap f l); now rewrite IH.
  - case_decide; [congruence | exact IH].
Qed.

Lemma occurrences_le_omap {X Y} `{EqDecision X} `{EqDecision Y}
    (f : X → option Y) (x : X) (y : Y) (l : list X) :
  f x = Some y → (occurrences x l ≤ occurrences y (omap f l))%nat.
Proof.
  intros Hf. rewrite occurrences_omap. unfold occurrences.
  induction l as [|x' l IH]; simpl; [lia|].
  rewrite !filter_cons.
  destruct (decide (x' = x)) as [->|Hne].
  - rewrite decide_True by exact Hf. simpl. lia.
  - destruct (decide (f x' = Some y)); simpl; lia.
Qed.

Lemma occurrences_eq_omap {X Y} `{EqDecision X} `{EqDecision Y}
    (f : X → option Y) (x : X) (y : Y) (l : list X) :
  f x = Some y → (∀ x', x' ∈ l → f x' = Some y → x' = x) →
  occurrences y (omap f l) = occurrences x l.
Proof.
  intros Hf Honly. rewrite occurrences_omap. unfold occurrences.
  induction l as [|x' l IH]; simpl; [reflexivity|].
  rewrite !filter_cons.
  assert (IH' : length (filter (λ x0, f x0 = Some y) l)
                = length (filter (λ y0, y0 = x) l)).
  { apply IH. intros z Hz. apply Honly. now constructor. }
  destruct (decide (x' = x)) as [->|Hne].
  - rewrite decide_True by exact Hf. simpl. now rewrite IH'.
  - destruct (decide (f x' = Some y)) as [Hy|Hy]; simpl; [|exact IH'].
    exfalso. apply Hne, Honly; [constructor | exact Hy].
Qed.

(** C10, as amended: explicit names are not de-duplicated.  Under a
    source root that is there, what the catalog collects, and what it
    returns after sorting, holds one manifest for each name of the list
    that resolves: a manifest is there as often as names of the list
    resolve to it.  For a name that occurs [k] times that is at least
    [k] times, and exactly [k] times when no other name of the list
    resolves to the same manifest. *)
Theorem getAvailableManifests_keeps_duplicates `{host : Host} (w : World)
    (sortBy : SortBy) (cmpNames : list string) (source : option string) :
  let root := componentsPathOf source (cwd w) in
  fs_exists (files w) root = Ok true →
  cmpNames ≠ [] →
  ∃ collected,
    collected = omap (resolved w root) cmpNames ∧
    (getAvailableManifests sortBy cmpNames source w).1
      = Ok (sortManifests sortBy collected) ∧
    sortManifests sortBy collected ≡ₚ collected ∧
    ∀ n m,
      resolved w root n = Some m →
      occurrences m (sortManifests sortBy collected) = occurrences m collected ∧
      occurrences m collected
      = length (filter (λ n', resolved w root n' = Some m) cmpNames) ∧
      (occurrences n cmpNames ≤ occurrences m collected)%nat ∧
      ((∀ n', n' ∈ cmpNames → resolved w root n' = Some m → n' = n) →
       occurrences m (sortManifests sortBy collected) = occurrences n cmpNames).
Proof.
  cbn zeta. intros Hroot Hne. eexists. split; [reflexivity|].
  assert (Hperm : ∀ l : list Manifest, sortManifests sortBy l ≡ₚ l).
  { intros l. destruct sortBy; apply Array_sort_Permutation. }
  split.
  { rewrite getAvailableManifests_run. cbn zeta. rewrite Hroot.
    destruct cmpNames; [congruence | reflexivity]. }
  split; [apply Hperm|].
  intros n m Hres.
  rewrite (occurrences_Permutation m _ _ (Hperm _)).
  split; [reflexivity|]. split; [apply occurrences_omap|]. split.
  - now apply occurrences_le_omap.
  - intros Honly. now apply occurrences_eq_omap.
Qed.

(** ** The schema *)

Lemma both_Ok {A B} (x : result (list Issue) A) (y : result (list Issue) B)
    (a : A) (b : B) :
  both x y = Ok (a, b) → x = Ok a ∧ y = Ok b.
Proof. destruct x, y; simpl; intros [=]; subst; auto. Qed.

Lemma under_Ok {A} (k : PathKey) (r : result (list Issue) A) (a : A) :
  under k r = Ok a → r = Ok a.
Proof. destruct r; simpl; intros [=]; subst; auto. Qed.

Lemma field_default_unset {A} (key : string) (s : Schema A) (d a : A)
    (o : list (string * json)) :
  property key o = None → field key (z_default s d) o = Ok a → a = d.
Proof. unfold field, z_default. intros ->. simpl. congruence. Qed.

Lemma field_optional_unset {A} (key : string) (s : Schema A) (a : option A)
    (o : list (string * json)) :
  property key o = None → field key (z_optional s) o = Ok a → a = None.
Proof. unfold field, z_optional. intros ->. simpl. congruence. Qed.

Lemma parseItems_lookup {A} (s : Schema A) (i : nat) (items : list json)
    (l : list A) (j : nat) (x : json) :
  parseItems s i items = Ok l → items !! j = Some x →
  ∃ a, l !! j = Some a ∧ s (Some x) = Ok a.
Proof.
  revert i l j. induction items as [|y items IH]; intros i l j; simpl.
  - intros _ [=].
  - destruct (both (under (Index i) (s (Some y))) (parseItems s (S i) items))
      as [[a l']|e] eqn:E; intros [=]; subst.
    apply both_Ok in E as [Ha Hl]. apply under_Ok in Ha.
    destruct j as [|j]; simpl.
    + intros [= <-]. eauto.
    + intros Hj. eapply IH; eauto.
Qed.

Lemma ConfigSrcSchema_defaults `{host : Host} (o : list (string * json)) (c : ConfigSrc) :
  ConfigSrcSchema (Some (JObject o)) = Ok c →
  (property "force" o = None → force c = false) ∧
  (property "tags" o = None → tags c = ["*"]).
Proof.
  unfold ConfigSrcSchema.
  match goal with |- context [match ?b with Ok _ => _ | Err _ => _ end] =>
    destruct b as [[f [t [m [fo tg]]]]|e] eqn:E end; [|discriminate].
  intros [= <-]. simpl.
  apply both_Ok in E as [_ E]. apply both_Ok in E as [_ E].
  apply both_Ok in E as [_ E]. apply both_Ok in E as [Hf Ht].
  split; intros Hunset.
  - exact (field_default_unset _ _ _ _ _ Hunset Hf).
  - exact (field_default_unset _ _ _ _ _ Hunset Ht).
Qed.

(** An array passes [z.array(item)] when each of its elements passes
    [item]. *)
Lemma parseItems_Forall2 {A} (s : Schema A) (i : nat) (items : list json)
    (l : list A) :
  Forall2 (λ x a, s (Some x) = Ok a) items l → parseItems s i items = Ok l.
Proof.
  intros H. revert i. induction H as [|x a items l Hx _ IH]; intros i; [reflexivity|].
  cbn [parseItems]. now rewrite Hx, IH.
Qed.

(** A config entry with its three required fields is accepted, with
    the defaults for what is unset. *)
Lemma ConfigSrcSchema_accepts `{host : Host} (o : list (string * json))
    (f t ms : string) (m : Method) (fo : bool) (tg : list string) :
  property "from" o = Some (JString f) →
  property "to" o = Some (JString t) →
  property "method" o = Some (JString ms) →
  property ms [("copy", copy_); ("symlink", symlink_)] = Some m →
  match property "force" o with
  | None => fo = false
  | Some v => fo = toBoolean (Some v)
  end →
  match property "tags" o with
  | None => tg = ["*"]
  | Some v => z_array z_tag (Some v) = Ok tg
  end →
  ConfigSrcSchema (Some (JObject o))
  = Ok {| from := f; to := t; method := m; force := fo; tags := tg |}.
Proof.
  intros Hfrom Hto Hmethod Hm Hforce Htags.
  unfold ConfigSrcSchema, field. rewrite Hfrom, Hto, Hmethod.
  unfold z_string, z_enum. rewrite Hm. cbn [under both].
  unfold z_default, z_coerce_boolean.
  destruct (property "force" o) as [v|]; subst fo;
    destruct (property "tags" o) as [v'|]; [rewrite Htags| |rewrite Htags|];
    subst; reflexivity.
Qed.

(** C7: validation applies the defaults.  A config entry with [from],
    [to] and a [method] is accepted: without [force] it comes back
    with [force = false], without [tags] with [tags = ["*"]], and with
    what the two fields hold when they are set.  A document with a
    [name] is accepted when its other fields are: without [priority]
    the manifest has no priority, and its [configs] are the entries of
    the array, each validated as said.  And whatever document is
    accepted: its manifest has no priority when the document has none,
    and the entry at each place of [configs] is what the entry schema
    gives, with [force = false] and [tags = ["*"]] where the entry sets
    none. *)
Theorem DotfileManifestSchema_defaults `{host : Host} :
  (∀ (o : list (string * json)) (f t ms : string) (m : Method)
     (fo : bool) (tg : list string),
     property "from" o = Some (JString f) →
     property "to" o = Some (JString t) →
     property "method" o = Some (JString ms) →
     property ms [("copy", copy_); ("symlink", symlink_)] = Some m →
     match property "force" o with
     | None => fo = false
     | Some v => fo = toBoolean (Some v)
     end →
     match property "tags" o with
     | None => tg = ["*"]
     | Some v => z_array z_tag (Some v) = Ok tg
     end →
     ConfigSrcSchema (Some (JObject o))
     = Ok {| from := f; to := t; method := m; force := fo; tags := tg |}) ∧
  (∀ (fields : list (string * json)) (n : string) (d : option string)
     (p : option Q) (b : option (gmap string (list string)))
     (cs : option (list ConfigSrc)) (cl : option (list string)),
     property "name" fields = Some (JString n) →
     z_optional (z_string "Invalid input: expected string")
       (property "description" fields) = Ok d →
     match property "priority" fields with
     | None => p = None
     | Some v => ∃ q, toNumber (Some v) = Some q ∧ p = Some q
     end →
     z_optional (z_partialRecord z_tag
                   (z_array (z_string "Invalid input: expected string")))
       (property "builds" fields) = Ok b →
     match property "configs" fields with
     | None => cs = None
     | Some (JArray items) =>
         ∃ l, Forall2 (λ item c, ConfigSrcSchema (Some item) = Ok c) items l ∧
              cs = Some l
     | Some _ => False
     end →
     z_optional (z_array (z_string "Invalid input: expected string"))
       (property "cleanup" fields) = Ok cl →
     DotfileManifestSchema (Some (JObject fields))
     = Ok {| name := n; description := d; priority := p; builds := b;
             configs := cs; cleanup := cl |}) ∧
  (∀ (fields : list (string * json)) (manifest : Manifest),
     DotfileManifestSchema (Some (JObject fields)) = Ok manifest →
     (property "priority" fields = None → priority manifest = None) ∧
     (∀ items i o,
        property "configs" fields = Some (JArray items) →
        items !! i = Some (JObject o) →
        ∃ cs c,
          configs manifest = Some cs ∧ cs !! i = Some c ∧
          ConfigSrcSchema (Some (JObject o)) = Ok c ∧
          (property "force" o = None → force c = false) ∧
          (property "tags" o = None → tags c = ["*"]))).
Proof.
  split; [|split].
  - intros o f t ms m fo tg. apply ConfigSrcSchema_accepts.
  - intros fields n d p b cs cl Hname Hd Hp Hb Hcs Hcl.
    unfold DotfileManifestSchema, field.
    rewrite Hname, Hd, Hb, Hcl. unfold z_string. cbn [under both].
    assert (Hpriority : z_optional z_coerce_number (property "priority" fields) = Ok p).
    { unfold z_optional, z_coerce_number.
      destruct (property "priority" fields) as [v|]; [|now subst].
      destruct Hp as (q & -> & ->). reflexivity. }
    assert (Hconfigs : z_optional (z_array ConfigSrcSchema) (property "configs" fields)
                       = Ok cs).
    { unfold z_optional, z_array.
      destruct (property "configs" fields) as [[]|]; try contradiction; [|now subst].
      destruct Hcs as (l & Hl & ->).
      now rewrite (parseItems_Forall2 _ _ _ _ Hl). }
    rewrite Hpriority, Hconfigs. reflexivity.
  - intros fields manifest. unfold DotfileManifestSchema.
    match goal with |- context [match ?b with Ok _ => _ | Err _ => _ end] =>
      destruct b as [[n [d [p [b' [c cl]]]]]|e] eqn:E end; [|discriminate].
    intros [= <-]. simpl.
    apply both_Ok in E as [_ E]. apply both_Ok in E as [_ E].
    apply both_Ok in E as [Hp E]. apply both_Ok in E as [_ E].
    apply both_Ok in E as [Hc _].
    split.
    + intros Hunset. exact (field_optional_unset _ _ _ _ Hunset Hp).
    + intros items i o Hitems Hi.
      unfold field in Hc. apply under_Ok in Hc.
      rewrite Hitems in Hc. unfold z_optional, z_array in Hc.
      destruct (parseItems ConfigSrcSchema 0 items) as [cs|e] eqn:Hcs; [|discriminate].
      injection Hc as <-.
      destruct (parseItems_lookup _ _ _ _ _ _ Hcs Hi) as (c' & Hlookup & Hparse).
      exists cs, c'. repeat split; auto; now apply (ConfigSrcSchema_defaults o c').
Qed.

(** The theorem on the documents of the examples: the entry of [vim]
    sets neither [force] nor [tags] and is accepted with the defaults;
    the document of [git] sets no [priority] and is accepted without
    one. *)
Lemma DotfileManifestSchema_defaults_witness :
  ConfigSrcSchema
    (Some (JObject [("from", JString "vimrc"); ("to", JString "~/.vimrc");
                    ("method", JString "copy")]))
  = Ok {| from := "vimrc"; to := "~/.vimrc"; method := copy_;
          force := false; tags := ["*"] |} ∧
  @DotfileManifestSchema (treeHost exampleDocuments) (Some gitDocument)
  = Ok {| name := "git"; description := None; priority := None; builds := None;
          configs := Some [{| from := "gitconfig"; to := "~/.gitconfig";
                              method := symlink_; force := false;
                              tags := ["*"] |}];
          cleanup := None |} ∧
  (∀ manifest,
     @DotfileManifestSchema (treeHost exampleDocuments) (Some vimDocument)
     = Ok manifest →
     ∃ c, configs manifest = Some [c] ∧ force c = false ∧ tags c = ["*"]).
Proof.
  destruct (@DotfileManifestSchema_defaults (treeHost exampleDocuments))
    as (Hentry & Hdocument & Haccepted).
  split; [|split].
  - apply (Hentry _ "vimrc" "~/.vimrc" "copy" copy_ false ["*"]); reflexivity.
  - apply (Hdocument _ "git" None None None _ None); try reflexivity.
    cbn. eexists. split; [|reflexivity].
    constructor; [|constructor].
    apply (Hentry _ "gitconfig" "~/.gitconfig" "symlink" symlink_ false ["*"]);
      reflexivity.
  - intros manifest Hok.
    destruct (Haccepted _ manifest Hok) as [_ H].
    destruct (H _ 0%nat _ eq_refl eq_refl) as (cs & c & Hcs & Hc & Hparse & Hforce & Htags).
    exists c. split; [|split; [apply Hforce | apply Htags]; reflexivity].
    vm_compute in Hok. injection Hok as <-.
    cbn in Hcs. injection Hcs as <-. cbn in Hc. injection Hc as <-. reflexivity.
Defined.

(** ** performFileOperation *)

Lemma getResolvedConfigPaths_run `{host : Host} (sourcePath cmpName : string)
    (entry : ConfigSrc) (w : World) :
  getResolvedConfigPaths sourcePath cmpName entry w
  = ((getResolvedConfigPaths sourcePath cmpName entry w).1, w).
Proof.
  unfold getResolvedConfigPaths, mbind, M_bind, bind, Deno_cwd, reads. simpl.
  rewrite resolveHomePath_run.
  now destruct (resolveHomePath (to entry) w).1.
Qed.






(** ** The examples of the build-command resolver *)

Lemma shellManifest_allocated : allocated buildsHeap shellManifest.
Proof.
  intros b key l [= <-] Hl.
  apply lookup_insert_Some in Hl as [[_ <-]|[_ Hl]]; [by eexists|].
  apply lookup_insert_Some in Hl as [[_ <-]|[_ Hl]]; [by eexists|].
  by rewrite lookup_empty in Hl.
Qed.

(** The example of C1, from the theorem: with
    [builds = {"fedora": ["a"], "*": ["b"]}] and no scripts directory the
    commands for [fedora] are [["a"]] and those for [arch] are [["b"]]. *)
Lemma getComponentBuilds_starting_commands_witness :
  let w := treeWorld [] exampleTree None "/work" buildsHeap in
  (∃ commands w',
     getComponentBuilds "fedora" shellManifest (Some "/dots") w = (Ok commands, w') ∧
     heap w' !! commands = Some ["a"]) ∧
  (∃ commands w',
     getComponentBuilds "arch" shellManifest (Some "/dots") w = (Ok commands, w') ∧
     heap w' !! commands = Some ["b"]).
Proof.
  intros w. split.
  - destruct (getComponentBuilds_starting_commands w "fedora" shellManifest
                (Some "/dots") shellManifest_allocated) as [_ H].
    exact (H "/dots/shell/builds" eq_refl eq_refl).
  - destruct (getComponentBuilds_starting_commands w "arch" shellManifest
                (Some "/dots") shellManifest_allocated) as [_ H].
    exact (H "/dots/shell/builds" eq_refl eq_refl).
Defined.

(** C2 fails on the code: with a script for [fedora] in the scripts
    directory, the call appends its command to the array it took from
    [manifest.builds], so the manifest is no longer what it was.  Where
    the manifest declares no list, the script goes to a new array and the
    manifest stays as it is. *)
Lemma getComponentBuilds_appends_to_manifest :
  let w := treeWorld [] scriptTree None "/work" buildsHeap in
  let run := getComponentBuilds "fedora" shellManifest (Some "/dots") w in
  let bare := getComponentBuilds "fedora" bareManifest (Some "/dots") w in
  run.1 = Ok 1%positive ∧
  builds (snapshot (heap w) shellManifest) ≫= (.!! "fedora") = Some ["a"] ∧
  builds (snapshot (heap run.2) shellManifest) ≫= (.!! "fedora")
    = Some ["a"; fedoraScript] ∧
  snapshot (heap run.2) shellManifest ≠ snapshot (heap w) shellManifest ∧
  bare.1 = Ok 3%positive ∧
  heap bare.2 !! 3%positive = Some [fedoraScript] ∧
  snapshot (heap bare.2) bareManifest = snapshot (heap w) bareManifest.
Proof.
  intros w run bare.
  split; [vm_compute; reflexivity|].
  split; [vm_compute; reflexivity|].
  split; [vm_compute; reflexivity|].
  split.
  { intros H.
    apply (f_equal (λ m : Manifest, builds m ≫= (.!! "fedora"))) in H.
    vm_compute in H. discriminate. }
  split; [vm_compute; reflexivity|].
  split; vm_compute; reflexivity.
Qed.

(** ** The examples of the catalog *)

(** The theorem on the source root of the examples: [broken] is left
    out with a warning, [git] and [vim] are resolved as if alone. *)
Lemma getAvailableManifests_skips_failures_witness :
  let run := getAvailableManifests byPriority ["git"; "broken"; "vim"; "git"]
               (Some "/dots") exampleWorld in
  fs_exists (files exampleWorld) "/dots" = Ok true ∧
  run.1 = Ok [vimManifest; gitManifest; gitManifest] ∧
  console run.2
  = [{| level := LWarn;
        text := "Skipping component 'broken': Failed to resolve manifest for component 'broken': Source file/directory not found for config 'missing' in component 'broken': /dots/broken/missing" |}].
Proof.
  intros run. split; [reflexivity|].
  destruct (getAvailableManifests_skips_failures exampleWorld byPriority
              ["git"; "broken"; "vim"; "git"] (Some "/dots")) as (H & _ & _).
  destruct (H eq_refl) as [Hrun _].
  subst run. rewrite Hrun by discriminate. split; vm_compute; reflexivity.
Defined.

(** C5 as stated fails for a source root that is missing: the name
    [../dots/git] resolves under [/nowhere], alone, to the manifest of
    [git], and the catalog of that name is empty. *)
Lemma getAvailableManifests_missing_root_resolves :
  resolved exampleWorld "/nowhere" "../dots/git" = Some gitManifest ∧
  (getAvailableManifests byPriority ["../dots/git"] (Some "/nowhere") exampleWorld).1
  = Ok [].
Proof. split; vm_compute; reflexivity. Qed.

(** C6 fails on the code for a source root that leads through a regular
    file: nothing is at [/dots/git/gitconfig/components], the file
    [/dots/git/gitconfig] is in the way, and [exists] does not answer
    [false] but throws what [Deno.stat] threw; the catalog throws it on,
    and nothing is reported.  (Whenever [exists] throws, the catalog
    throws the same.)  Where [exists] answers [false], as for
    [/nowhere] with nothing in the way, the catalog is empty, the error
    is reported and nothing is thrown. *)
Lemma getAvailableManifests_root_through_file :
  (∀ (host : Host) (w : World) sortBy cmpNames source e,
     fs_exists (files w) (componentsPathOf source (cwd w)) = Err e →
     getAvailableManifests sortBy cmpNames source w = (Err e, w)) ∧
  (∀ (host : Host) (w : World) sortBy cmpNames source,
     fs_exists (files w) (componentsPathOf source (cwd w)) = Ok false →
     getAvailableManifests sortBy cmpNames source w
     = (Ok [],
        addLine {| level := LError;
                   text := "Components source directory not found: "
                           +:+ componentsPathOf source (cwd w) |} w)) ∧
  files exampleWorld !! "/dots/git/gitconfig/components" = None ∧
  tree_lstat (files exampleWorld) "/dots/git/gitconfig"
  = Ok {| isFile := true; isDirectory := false; isSymlink := false;
          mode := Some 420%Z |} ∧
  getAvailableManifests byName ["git"] (Some "/dots/git/gitconfig/components")
    exampleWorld
  = (Err (notADirectory "/dots/git/gitconfig/components"), exampleWorld) ∧
  errorClass (notADirectory "/dots/git/gitconfig/components") = PlainError ∧
  getAvailableManifests byName ["git"] (Some "/nowhere") exampleWorld
  = (Ok [],
     addLine {| level := LError;
                text := "Components source directory not found: /nowhere" |}
       exampleWorld).
Proof.
  split.
  { intros host w sortBy cmpNames source e He.
    rewrite getAvailableManifests_run. cbn zeta. now rewrite He. }
  split.
  { intros host w sortBy cmpNames source Hno.
    rewrite getAvailableManifests_run. cbn zeta. now rewrite Hno. }
  split; [reflexivity|]. split; [reflexivity|]. split; [|split].
  - vm_compute. reflexivity.
  - reflexivity.
  - exact (getAvailableManifests_missing_root exampleWorld byName ["git"]
             (Some "/nowhere") eq_refl).
Qed.

(** The theorem on the source root of the examples: [git] is named
    twice and is twice in the catalog. *)
Lemma getAvailableManifests_keeps_duplicates_witness :
  ∃ sorted,
    (getAvailableManifests byPriority ["git"; "broken"; "vim"; "git"]
       (Some "/dots") exampleWorld).1 = Ok sorted ∧
    occurrences gitManifest sorted = 2%nat.
Proof.
  destruct (getAvailableManifests_keeps_duplicates exampleWorld byPriority
              ["git"; "broken"; "vim"; "git"] (Some "/dots"))
    as (collected & -> & Hrun & _ & Hcount); [reflexivity | discriminate |].
  eexists. split; [exact Hrun|].
  destruct (Hcount "git" gitManifest) as (_ & _ & _ & Hexact); [reflexivity|].
  rewrite Hexact; [reflexivity|].
  intros n' Hn' Hres.
  repeat (apply elem_of_cons in Hn' as [->|Hn']; [first [reflexivity | vm_compute in Hres; discriminate]|]).
  exfalso. exact (not_elem_of_nil _ Hn').
Defined.

(** C10 as stated fails where two names of the list lead to the same
    component: [git] and [./git] occur once each, and the manifest of
    [git] is twice in the catalog. *)
Lemma getAvailableManifests_aliases :
  occurrences "git" ["git"; "./git"] = 1%nat ∧
  resolved exampleWorld "/dots" "git" = Some gitManifest ∧
  (getAvailableManifests byPriority ["git"; "./git"] (Some "/dots") exampleWorld).1
  = Ok [gitManifest; gitManifest] ∧
  occurrences gitManifest [gitManifest; gitManifest] = 2%nat.
Proof. repeat split; vm_compute; reflexivity. Qed.

(** * Further properties of the library *)

#[local] Arguments isWhiteSpace : simpl never.
#[local] Arguments isWhiteSpace2 : simpl never.
#[local] Arguments isWhiteSpace3 : simpl never.
#[local] Arguments isLineTerminator : simpl never.
#[local] Arguments isLineTerminator3 : simpl never.
#[local] Arguments isAlnum : simpl never.
(** ** strListToArray *)



(** Induction along [trimStart]. *)
Lemma trimStart_cases (P : string → Prop) :
  (∀ s, startsWhite s = false → trimStart s = s → P s) →
  (∀ c r, isWhiteSpace c = true → trimStart (String c r) = trimStart r →
          P r → P (String c r)) →
  (∀ c1 c2 r, isWhiteSpace c1 = false → isWhiteSpace2 c1 c2 = true →
              trimStart (String c1 (String c2 r)) = trimStart r →
              P r → P (String c1 (String c2 r))) →
  (∀ c1 c2 c3 r,
     isWhiteSpace c1 = false → isWhiteSpace2 c1 c2 = false →
     isWhiteSpace3 c1 c2 c3 = true →
     trimStart (String c1 (String c2 (String c3 r))) = trimStart r →
     P r → P (String c1 (String c2 (String c3 r)))) →
  ∀ s, P s.
Proof.
  intros Hstop H1 H2 H3 s.
  assert (H : ∀ n s, (String.length s < n)%nat → P s); [|exact (H _ s (Nat.lt_succ_diag_r _))].
  clear s. induction n as [|n IH]; intros s Hn; [lia|].
  destruct s as [|c1 r1]; [now apply Hstop|].
  destruct (isWhiteSpace c1) eqn:W1.
  { apply H1; [exact W1 | cbn; now rewrite W1 | apply IH; cbn in Hn; lia]. }
  destruct r1 as [|c2 r2]; [apply Hstop; cbn; now rewrite W1|].
  destruct (isWhiteSpace2 c1 c2) eqn:W2.
  { apply H2; [exact W1 | exact W2 | cbn; now rewrite W1, W2 | apply IH; cbn in Hn; lia]. }
  destruct r2 as [|c3 r3]; [apply Hstop; cbn; now rewrite W1, W2|].
  destruct (isWhiteSpace3 c1 c2 c3) eqn:W3.
  { apply H3; [exact W1 | exact W2 | exact W3 | cbn; now rewrite W1, W2, W3
              | apply IH; cbn in Hn; lia]. }
  apply Hstop; cbn; now rewrite W1, W2, W3.
Qed.

Lemma has_char_app (c : ascii) (a b : string) :
  Str.has_char c (a +:+ b) = Str.has_char c a || Str.has_char c b.
Proof.
  induction a as [|d a IH]; [reflexivity|].
  change (String d a +:+ b) with (String d (a +:+ b)). cbn [Str.has_char].
  now rewrite IH, orb_assoc.
Qed.

Lemma trimStart_has_char (c : ascii) (s : string) :
  Str.has_char c s = false → Str.has_char c (trimStart s) = false.
Proof.
  induction s using trimStart_cases.
  - now rewrite H0.
  - rewrite H0. cbn [Str.has_char]. intros [_ ?]%orb_false_iff. auto.
  - rewrite H1. cbn [Str.has_char].
    intros [_ [_ ?]%orb_false_iff]%orb_false_iff. auto.
  - rewrite H2. cbn [Str.has_char].
    intros [_ [_ [_ ?]%orb_false_iff]%orb_false_iff]%orb_false_iff. auto.
Qed.

(** What [trimStart] leaves does not begin with white space. *)
Lemma trimStart_head (s : string) : startsWhite (trimStart s) = false.
Proof.
  induction s using trimStart_cases; [now rewrite H0 | congruence..].
Qed.

Lemma trimStart_fixed (s : string) : startsWhite s = false → trimStart s = s.
Proof.
  destruct s as [|c1 r1]; [reflexivity|]. cbn [startsWhite trimStart].
  destruct (isWhiteSpace c1); [discriminate|]. cbn [orb].
  destruct r1 as [|c2 r2]; [reflexivity|].
  destruct (isWhiteSpace2 c1 c2); [discriminate|]. cbn [orb].
  destruct r2 as [|c3 r3]; [reflexivity|].
  now destruct (isWhiteSpace3 c1 c2 c3).
Qed.

(** White space a text begins with, it begins with however it goes on. *)
Lemma startsWhite_app (u v : string) :
  startsWhite u = true → startsWhite (u +:+ v) = true.
Proof.
  destruct u as [|c1 r1]; [discriminate|].
  change (String c1 r1 +:+ v) with (String c1 (r1 +:+ v)). cbn [startsWhite].
  destruct (isWhiteSpace c1); [reflexivity|]. cbn [orb].
  destruct r1 as [|c2 r2]; [discriminate|].
  change (String c2 r2 +:+ v) with (String c2 (r2 +:+ v)). cbv iota.
  destruct (isWhiteSpace2 c1 c2); [reflexivity|]. cbn [orb].
  destruct r2 as [|c3 r3]; [discriminate|].
  change (String c3 r3 +:+ v) with (String c3 (r3 +:+ v)). cbv iota. auto.
Qed.

Lemma trimStart_app (u v : string) :
  isBlank u = true → trimStart (u +:+ v) = trimStart v.
Proof.
  unfold isBlank. induction u using trimStart_cases.
  - rewrite H0. destruct u; [reflexivity | discriminate].
  - rewrite H0. intros Hb.
    change (String c u +:+ v) with (String c (u +:+ v)).
    cbn [trimStart]. rewrite H. auto.
  - rewrite H1. intros Hb.
    change (String c1 (String c2 u) +:+ v) with (String c1 (String c2 (u +:+ v))).
    cbn [trimStart]. rewrite H, H0. auto.
  - rewrite H2. intros Hb.
    change (String c1 (String c2 (String c3 u)) +:+ v)
      with (String c1 (String c2 (String c3 (u +:+ v)))).
    cbn [trimStart]. rewrite H, H0, H1. auto.
Qed.

(** [trimEnd] cuts white space off the end. *)
Lemma trimEnd_split (s : string) :
  ∃ w, s = trimEnd s +:+ w ∧ isBlank w = true.
Proof.
  induction s as [|c s (w & Hs & Hw)].
  - exists "". split; reflexivity.
  - cbn [trimEnd]. destruct (isBlank (String c s)) eqn:E.
    + exists (String c s). split; [reflexivity | exact E].
    + exists w. split; [|exact Hw].
      change (String c (trimEnd s) +:+ w) with (String c (trimEnd s +:+ w)).
      now rewrite <- Hs.
Qed.

Lemma isBlank_app (u v : string) :
  isBlank u = true → isBlank v = true → isBlank (u +:+ v) = true.
Proof. intros Hu Hv. unfold isBlank. now rewrite trimStart_app. Qed.

Lemma append_empty (s : string) : s +:+ "" = s.
Proof.
  induction s as [|c s IH]; [reflexivity|].
  change (String c s +:+ "") with (String c (s +:+ "")). now rewrite IH.
Qed.

Lemma trimEnd_idem (s : string) : trimEnd (trimEnd s) = trimEnd s.
Proof.
  induction s as [|c s IH]; [reflexivity|].
  cbn [trimEnd]. destruct (isBlank (String c s)) eqn:E; [reflexivity|].
  cbn [trimEnd]. rewrite IH.
  destruct (isBlank (String c (trimEnd s))) eqn:E'; [|reflexivity].
  destruct (trimEnd_split s) as (w & Hs & Hw).
  rewrite Hs in E.
  change (String c (trimEnd s +:+ w)) with (String c (trimEnd s) +:+ w) in E.
  rewrite (isBlank_app _ _ E' Hw) in E. discriminate.
Qed.

Lemma trimEnd_has_char (c : ascii) (s : string) :
  Str.has_char c s = false → Str.has_char c (trimEnd s) = false.
Proof.
  destruct (trimEnd_split s) as (w & Hs & _). rewrite Hs at 1.
  rewrite has_char_app. now intros [? _]%orb_false_iff.
Qed.

(** [trimEnd] leaves no white space at the beginning where there was none. *)
Lemma trimEnd_head (s : string) :
  startsWhite s = false → startsWhite (trimEnd s) = false.
Proof.
  intros Hs. destruct (startsWhite (trimEnd s)) eqn:E; [|reflexivity].
  destruct (trimEnd_split s) as (w & Hsplit & _).
  rewrite Hsplit, (startsWhite_app _ w E) in Hs. discriminate.
Qed.

Lemma trim_idem (s : string) : trim (trim s) = trim s.
Proof.
  unfold trim.
  rewrite (trimStart_fixed (trimEnd (trimStart s))).
  - apply trimEnd_idem.
  - apply trimEnd_head, trimStart_head.
Qed.

Lemma trim_has_char (c : ascii) (s : string) :
  Str.has_char c s = false → Str.has_char c (trim s) = false.
Proof. intros H. now apply trimEnd_has_char, trimStart_has_char. Qed.

(** White space is blank, and holds no comma. *)
Lemma whiteSpaces_blank (w : string) :
  w ∈ whiteSpaces → isBlank w = true ∧ Str.has_char "," w = false.
Proof.
  intros Hw. apply list_elem_of_In in Hw.
  repeat (destruct Hw as [<-|Hw]; [split; reflexivity|]). destruct Hw.
Qed.

(** The pieces of a split hold no separator. *)
Lemma split_has_char (sep : ascii) (s : string) :
  Forall (λ piece, Str.has_char sep piece = false) (Str.split sep s).
Proof.
  induction s as [|c s IH]; simpl; [repeat constructor|].
  destruct (Ascii.eqb_spec c sep) as [->|Hne].
  - constructor; [reflexivity | exact IH].
  - destruct (Str.split sep s) as [|piece pieces]; [repeat constructor; simpl|].
    + apply orb_false_iff. split; [|reflexivity].
      apply Ascii.eqb_neq. congruence.
    + apply Forall_cons in IH as [Hp Hps]. constructor; [|exact Hps].
      simpl. rewrite Hp. rewrite orb_false_r. apply Ascii.eqb_neq. congruence.
Qed.

Lemma nonEmpty_true (s : string) : nonEmpty s = true ↔ s ≠ "".
Proof.
  unfold nonEmpty. destruct (String.eqb_spec s ""); split; simpl; congruence.
Qed.

(** Splitting what was joined gives the pieces back. *)
Lemma split_append (sep : ascii) (piece rest : string) :
  Str.has_char sep piece = false →
  Str.split sep (piece +:+ String sep rest) = piece :: Str.split sep rest.
Proof.
  induction piece as [|c piece IH]; simpl.
  - intros _. now rewrite Ascii.eqb_refl.
  - intros H. apply orb_false_iff in H as [Hc Hp].
    rewrite Ascii.eqb_sym, Hc, (IH Hp). reflexivity.
Qed.

Lemma split_piece (sep : ascii) (piece : string) :
  Str.has_char sep piece = false → Str.split sep piece = [piece].
Proof.
  induction piece as [|c piece IH]; simpl; [reflexivity|].
  intros H. apply orb_false_iff in H as [Hc Hp].
  rewrite Ascii.eqb_sym, Hc, (IH Hp). reflexivity.
Qed.

Lemma split_concat (sep : ascii) (l : list string) :
  l ≠ [] → Forall (λ piece, Str.has_char sep piece = false) l →
  Str.split sep (String.concat (String sep EmptyString) l) = l.
Proof.
  induction l as [|x l IH]; [congruence|]. intros _ H.
  apply Forall_cons in H as [Hx Hl].
  destruct l as [|y l]; [now apply split_piece|].
  change (String.concat (String sep EmptyString) (x :: y :: l))
    with (x +:+ String sep (String.concat (String sep EmptyString) (y :: l))).
  rewrite split_append by exact Hx. f_equal. apply IH; [discriminate | exact Hl].
Qed.

Lemma strListToArray_listItems (s : string) :
  Forall listItem (List.filter nonEmpty (map trim (Str.split "," s))).
Proof.
  apply Forall_forall. intros t Ht.
  apply list_elem_of_In, filter_In in Ht as [Ht Hne].
  apply in_map_iff in Ht as (piece & <- & Hpiece).
  split; [now apply nonEmpty_true|]. split; [|apply trim_idem].
  apply trim_has_char.
  pose proof (split_has_char "," s) as H.
  rewrite Forall_forall in H. apply H. now apply list_elem_of_In.
Qed.

Lemma filter_items (l : list string) :
  Forall listItem l → List.filter nonEmpty (map trim l) = l.
Proof.
  induction 1 as [|t l (Hne & _ & Ht) Hl IH]; simpl; [reflexivity|].
  rewrite Ht. apply nonEmpty_true in Hne. rewrite Hne. now f_equal.
Qed.

Lemma join_listItems (l : list string) :
  Forall listItem l → strListToArray (Some (String.concat "," l)) = Some l.
Proof.
  intros Hl. unfold strListToArray. f_equal.
  destruct l as [|x l]; [reflexivity|].
  rewrite split_concat; [now apply filter_items | discriminate |].
  eapply Forall_impl; [exact Hl|]. now intros t (_ & Hc & _).
Qed.

(** Splitting a text that begins with something without separator. *)
Lemma split_prefix (sep : ascii) (w t : string) :
  Str.has_char sep w = false →
  ∃ piece pieces,
    Str.split sep t = piece :: pieces ∧
    Str.split sep (w +:+ t) = (w +:+ piece) :: pieces.
Proof.
  induction w as [|c w IH]; intros Hw.
  - change ("" +:+ t) with t.
    assert (Hsome : ∃ piece pieces, Str.split sep t = piece :: pieces).
    { destruct t as [|d t]; cbn [Str.split]; [eauto|].
      destruct (Ascii.eqb d sep); [eauto|].
      destruct (Str.split sep t); eauto. }
    destruct Hsome as (piece & pieces & Ht).
    exists piece, pieces. split; [exact Ht|]. exact Ht.
  - cbn [Str.has_char] in Hw. apply orb_false_iff in Hw as [Hc Hw].
    destruct (IH Hw) as (piece & pieces & Ht & Hwt).
    exists piece, pieces. split; [exact Ht|].
    change (String c w +:+ t) with (String c (w +:+ t)).
    cbn [Str.split]. now rewrite Ascii.eqb_sym, Hc, Hwt.
Qed.

Lemma split_blank (texts : list string) :
  Forall (λ w, w ∈ whiteSpaces ∨ w = ",") texts →
  Forall (λ piece, isBlank piece = true) (Str.split "," (joined texts)).
Proof.
  induction 1 as [|w texts Hw _ IH]; [repeat constructor|].
  cbn [joined foldr]. fold (joined texts).
  destruct Hw as [Hw| ->].
  - apply whiteSpaces_blank in Hw as [Hblank Hcomma].
    destruct (split_prefix "," w (joined texts) Hcomma)
      as (piece & pieces & Ht & ->).
    rewrite Ht in IH. apply Forall_cons in IH as [Hp Hps].
    constructor; [now apply isBlank_app | exact Hps].
  - change ("," +:+ joined texts) with (String "," (joined texts)).
    cbn [Str.split]. now constructor.
Qed.

Lemma blank_items (l : list string) :
  Forall (λ piece, isBlank piece = true) l →
  List.filter nonEmpty (map trim l) = [].
Proof.
  induction 1 as [|piece l Hp _ IH]; simpl; [reflexivity|].
  unfold trim at 1. unfold isBlank in Hp.
  destruct (trimStart piece); [exact IH | discriminate].
Qed.

Lemma isWhiteSpace2_continues (c1 c2 : ascii) :
  isWhiteSpace2 c1 c2 = true → leadByte c2 = false.
Proof.
  unfold isWhiteSpace2, leadByte.
  intros [_ H%N.eqb_eq]%andb_true_iff. rewrite H. reflexivity.
Qed.

Lemma isWhiteSpace3_continues (c1 c2 c3 : ascii) :
  isWhiteSpace3 c1 c2 c3 = true → leadByte c2 = false ∧ leadByte c3 = false.
Proof.
  unfold isWhiteSpace3, leadByte.
  rewrite !orb_true_iff, !andb_true_iff, !orb_true_iff, !andb_true_iff,
    !N.eqb_eq, !N.leb_le, !orb_false_iff, !N.ltb_ge, !N.leb_gt.
  lia.
Qed.

Lemma startsWhite_lead (x post : string) :
  x ≠ "" → startsLead post = true →
  startsWhite x = false → startsWhite (x +:+ post) = false.
Proof.
  intros Hx Hpost. destruct x as [|c1 r1]; [congruence|]. clear Hx.
  change (String c1 r1 +:+ post) with (String c1 (r1 +:+ post)).
  cbn [startsWhite].
  destruct (isWhiteSpace c1); [discriminate|]. cbn [orb].
  destruct r1 as [|c2 r2].
  - intros _. change ("" +:+ post) with post.
    destruct post as [|p0 post]; [reflexivity|]. cbn [startsLead] in Hpost.
    destruct (isWhiteSpace2 c1 p0) eqn:W2;
      [apply isWhiteSpace2_continues in W2; congruence|]. cbn [orb].
    destruct post as [|p1 post]; [reflexivity|].
    destruct (isWhiteSpace3 c1 p0 p1) eqn:W3; [|reflexivity].
    apply isWhiteSpace3_continues in W3 as [? _]. congruence.
  - change (String c2 r2 +:+ post) with (String c2 (r2 +:+ post)). cbv iota.
    destruct (isWhiteSpace2 c1 c2); [discriminate|]. cbn [orb].
    destruct r2 as [|c3 r3].
    + intros _. change ("" +:+ post) with post.
      destruct post as [|p0 post]; [reflexivity|]. cbn [startsLead] in Hpost.
      destruct (isWhiteSpace3 c1 c2 p0) eqn:W3; [|reflexivity].
      apply isWhiteSpace3_continues in W3 as [_ ?]. congruence.
    + change (String c3 r3 +:+ post) with (String c3 (r3 +:+ post)). cbv iota. auto.
Qed.

Lemma trimStart_keeps (x post : string) :
  startsLead post = true → isBlank x = false →
  trimStart (x +:+ post) = trimStart x +:+ post.
Proof.
  intros Hpost. unfold isBlank.
  induction x as [x Hstop Hfixed|c r W1 Hrun IH|c1 c2 r W1 W2 Hrun IH
                  |c1 c2 c3 r W1 W2 W3 Hrun IH] using trimStart_cases.
  - rewrite Hfixed. intros Hx. apply trimStart_fixed, startsWhite_lead; auto.
    now destruct x.
  - rewrite Hrun. intros Hb.
    change (String c r +:+ post) with (String c (r +:+ post)).
    cbn [trimStart]. rewrite W1. auto.
  - rewrite Hrun. intros Hb.
    change (String c1 (String c2 r) +:+ post) with (String c1 (String c2 (r +:+ post))).
    cbn [trimStart]. rewrite W1, W2. auto.
  - rewrite Hrun. intros Hb.
    change (String c1 (String c2 (String c3 r)) +:+ post)
      with (String c1 (String c2 (String c3 (r +:+ post)))).
    cbn [trimStart]. rewrite W1, W2, W3. auto.
Qed.

Lemma isBlank_lead (x post : string) :
  startsLead post = true → isBlank post = true →
  isBlank (x +:+ post) = isBlank x.
Proof.
  intros Hlead Hpost. destruct (isBlank x) eqn:Hx; [now apply isBlank_app|].
  unfold isBlank. rewrite (trimStart_keeps x post Hlead Hx).
  unfold isBlank in Hx. now destruct (trimStart x).
Qed.

Lemma trimEnd_blank (s : string) : isBlank s = true → trimEnd s = "".
Proof. destruct s as [|c s]; [reflexivity|]. cbn [trimEnd]. now intros ->. Qed.

Lemma trimEnd_lead (a post : string) :
  startsLead post = true → isBlank post = true →
  trimEnd (a +:+ post) = trimEnd a.
Proof.
  intros Hlead Hpost. induction a as [|c a IH]; [now apply trimEnd_blank|].
  change (String c a +:+ post) with (String c (a +:+ post)).
  cbn [trimEnd].
  change (String c (a +:+ post)) with (String c a +:+ post).
  now rewrite (isBlank_lead (String c a) post Hlead Hpost), IH.
Qed.

Lemma joined_whiteSpaces (texts : list string) :
  Forall (.∈ whiteSpaces) texts →
  isBlank (joined texts) = true ∧ startsLead (joined texts) = true.
Proof.
  induction 1 as [|w texts Hw _ [IHb IHl]]; [split; reflexivity|].
  cbn [joined foldr]. fold (joined texts). split.
  - apply isBlank_app; [now apply whiteSpaces_blank | exact IHb].
  - apply list_elem_of_In in Hw.
    repeat (destruct Hw as [<-|Hw]; [reflexivity|]). destruct Hw.
Qed.

Lemma trim_around (pre t post : string) :
  isBlank pre = true → isBlank post = true → startsLead post = true →
  trim (pre +:+ t +:+ post) = trim t.
Proof.
  intros Hpre Hpost Hlead. unfold trim. rewrite (trimStart_app pre _ Hpre).
  destruct (isBlank t) eqn:Ht.
  - rewrite (trimStart_app t post Ht). unfold isBlank in Hpost, Ht.
    destruct (trimStart post); [|discriminate].
    now destruct (trimStart t).
  - rewrite (trimStart_keeps t post Hlead Ht). now apply trimEnd_lead.
Qed.

Lemma length_append (a b : string) :
  String.length (a +:+ b) = (String.length a + String.length b)%nat.
Proof.
  induction a as [|c a IH]; [reflexivity|].
  change (String c a +:+ b) with (String c (a +:+ b)). cbn [String.length].
  now rewrite IH.
Qed.

Lemma trimStart_length (s : string) :
  (String.length (trimStart s) ≤ String.length s)%nat.
Proof.
  induction s as [x Hstop Hfixed|c r W1 Hrun IH|c1 c2 r W1 W2 Hrun IH
                  |c1 c2 c3 r W1 W2 W3 Hrun IH] using trimStart_cases;
    [now rewrite Hfixed | rewrite Hrun; cbn [String.length]; lia..].
Qed.

Lemma trimEnd_length (s : string) :
  (String.length (trimEnd s) ≤ String.length s)%nat.
Proof.
  destruct (trimEnd_split s) as (w & Hs & _). rewrite Hs at 2.
  rewrite length_append. lia.
Qed.

Lemma whiteSpaces_startsWhite (w : string) :
  w ∈ whiteSpaces → startsWhite w = true ∧ w ≠ "".
Proof.
  intros Hw. apply list_elem_of_In in Hw.
  repeat (destruct Hw as [<-|Hw]; [split; [reflexivity | discriminate]|]).
  destruct Hw.
Qed.

Lemma whiteSpaces_lead (w : string) :
  w ∈ whiteSpaces → isBlank w = true ∧ startsLead w = true.
Proof.
  intros Hw. apply list_elem_of_In in Hw.
  repeat (destruct Hw as [<-|Hw]; [split; reflexivity|]). destruct Hw.
Qed.

(** What [trim] leaves as it is has white space at neither end. *)
Lemma trim_fixed_ends (t w u : string) :
  trim t = t → w ∈ whiteSpaces → t ≠ w +:+ u ∧ t ≠ u +:+ w.
Proof.
  intros Ht Hw. split; intros ->.
  - apply whiteSpaces_startsWhite in Hw as [Hw _].
    pose proof (trimEnd_head _ (trimStart_head (w +:+ u))) as Hhead.
    fold (trim (w +:+ u)) in Hhead.
    rewrite Ht, (startsWhite_app w u Hw) in Hhead. discriminate.
  - destruct (whiteSpaces_lead w Hw) as [Hblank Hlead].
    apply whiteSpaces_startsWhite in Hw as [_ Hne].
    pose proof (trim_around "" u w eq_refl Hblank Hlead) as Hu.
    change ("" +:+ u +:+ w) with (u +:+ w) in Hu. rewrite Ht in Hu.
    pose proof (trimEnd_length (trimStart u)) as H1.
    pose proof (trimStart_length u) as H2.
    fold (trim u) in H1. rewrite <- Hu, length_append in H1.
    destruct w; [congruence|]. cbn [String.length] in H1. lia.
Qed.

Lemma joined_has_char (texts : list string) :
  Forall (.∈ whiteSpaces) texts → Str.has_char "," (joined texts) = false.
Proof.
  induction 1 as [|w texts Hw _ IH]; [reflexivity|].
  cbn [joined foldr]. fold (joined texts).
  rewrite has_char_app, IH. now apply whiteSpaces_blank in Hw as [_ ->].
Qed.

Lemma trim_padded (p : list string * string * list string) :
  padding p → trim (padded p) = trim p.1.2.
Proof.
  intros [Hbefore Hafter]. unfold padded.
  apply joined_whiteSpaces in Hbefore as [Hb _], Hafter as [Ha Hl].
  now apply trim_around.
Qed.

(** Elements with white space around them, joined with commas, are read
    as the elements. *)
Lemma join_padded (l : list (list string * string * list string)) :
  Forall (λ p, padding p ∧ listItem p.1.2) l →
  strListToArray (Some (String.concat "," (padded <$> l))) = Some ((λ p, p.1.2) <$> l).
Proof.
  intros Hl. unfold strListToArray. f_equal.
  destruct l as [|p l]; [reflexivity|].
  rewrite split_concat; [|discriminate|].
  - induction Hl as [|q l' [Hpad (Hne & _ & Ht)] _ IH]; [reflexivity|].
    cbn [fmap list_fmap map List.filter].
    rewrite (trim_padded q Hpad), Ht.
    apply nonEmpty_true in Hne. rewrite Hne. f_equal. exact IH.
  - apply Forall_fmap. eapply Forall_impl; [exact Hl|].
    intros q [[Hbefore Hafter] (_ & Hcomma & _)]. unfold padded. cbn.
    now rewrite !has_char_app, (joined_has_char _ Hbefore),
      (joined_has_char _ Hafter), Hcomma.
Qed.

(** X1: [strListToArray] gives [undefined] for [undefined] only; every
    element of the list it gives is not empty, holds no comma and has no
    white space at either end: [trim] leaves it as it is, and it neither
    begins nor ends with one of the white spaces and line terminators of
    JavaScript, those beyond ASCII included; a string of nothing but
    white space and commas gives the empty list; and [trim] takes all
    white space off both ends. *)
Theorem strListToArray_items (str : option string) :
  (strListToArray str = None ↔ str = None) ∧
  (∀ l, strListToArray str = Some l →
        Forall (λ t, listItem t ∧
                     ∀ w u, w ∈ whiteSpaces → t ≠ w +:+ u ∧ t ≠ u +:+ w) l) ∧
  (∀ texts, str = Some (joined texts) →
        Forall (λ w, w ∈ whiteSpaces ∨ w = ",") texts →
        strListToArray str = Some []) ∧
  (∀ before t after,
     Forall (.∈ whiteSpaces) before → Forall (.∈ whiteSpaces) after →
     trim (joined before +:+ t +:+ joined after) = trim t).
Proof.
  split; [destruct str; simpl; split; congruence|]. split; [|split].
  - destruct str as [s|]; simpl; [|discriminate].
    intros l [= <-].
    eapply Forall_impl; [apply strListToArray_listItems|].
    intros t Ht. split; [exact Ht|]. intros w u Hw.
    destruct Ht as (_ & _ & Ht). now apply trim_fixed_ends.
  - intros texts -> Hblank. simpl. f_equal.
    apply blank_items, split_blank, Hblank.
  - intros before t after Hbefore Hafter.
    apply (trim_padded (before, t, after)). now split.
Qed.

(** X2: joining with commas and splitting again is the identity on
    lists of such elements; so what [strListToArray] gave, joined with
    commas as the actions print it, is read back as the same list; and
    so is a list of such elements written with white space around
    them, be it the no-break spaces of [a&nbsp;,&nbsp;b]. *)
Theorem strListToArray_join (str : option string) :
  (∀ l, Forall listItem l → strListToArray (Some (String.concat "," l)) = Some l) ∧
  (∀ l, strListToArray str = Some l →
        strListToArray (Some (String.concat "," l)) = Some l) ∧
  (∀ l : list (list string * string * list string),
     Forall (λ p, padding p ∧ listItem p.1.2) l →
     strListToArray (Some (String.concat "," (padded <$> l)))
     = Some ((λ p, p.1.2) <$> l)) ∧
  strListToArray (Some ("a" +:+ noBreakSpace +:+ "," +:+ noBreakSpace +:+ "b"))
  = Some ["a"; "b"].
Proof.
  split; [exact join_listItems|]. split; [|split; [exact join_padded | reflexivity]].
  intros l Hl. apply join_listItems.
  destruct str as [s|]; simpl in Hl; [|discriminate].
  injection Hl as <-. apply strListToArray_listItems.
Qed.

(** [trim] on texts with white space beyond ASCII. *)
Example trim_examples :
  trim (lineSeparator +:+ " git" +:+ bytes [239; 187; 191] +:+ bytes [9]) = "git" ∧
  trim (noBreakSpace +:+ "a b" +:+ bytes [227; 128; 128]) = "a b" ∧
  trim (bytes [9; 10; 11; 12; 13; 32]) = "".
Proof. repeat split. Qed.

(** The pattern on some texts. *)
Example matchId_examples :
  matchId true asahiText = Some "fedora" ∧
  matchId true ("ID=" +:+ dquote +:+ "Arch" +:+ dquote) = Some "Arch" ∧
  matchId true "ID=" = None ∧
  matchId true "BUILD_ID=rolling" = None ∧
  matchId true separatorText = Some "arch" ∧
  (detectDistro (session (treeWorld [] (osReleaseTree asahiText) None "/" ∅))).1
    = Returned "fedora".
Proof. repeat split. Qed.

(** ** The pattern of detectDistro *)












(** ** detectDistro *)

Lemma includes_elem_of (x : string) (l : list string) :
  Str.includes x l = true ↔ x ∈ l.
Proof.
  unfold Str.includes. rewrite existsb_exists. split.
  - intros (y & Hy & ->%String.eqb_eq). now apply list_elem_of_In.
  - intros Hx. exists x. split; [now apply list_elem_of_In | apply String.eqb_refl].
Qed.

Lemma session_eta `{host : Host} (s : Session) :
  {| world := world s; events := events s |} = s.
Proof. now destruct s. Qed.

(** What [detectDistro] does with the text of [/etc/os-release]. *)
Lemma detectDistro_text `{host : Host} (s : Session) (text : string) :
  fs_readTextFile (files (world s)) "/etc/os-release" = Ok text →
  detectDistro s =
  match toLowerCase <$> matchId true text with
  | Some id =>
      if String.eqb id "" || negb (Str.includes id getAvailableDistros)
      then (Exited 1,
            {| world :=
                 addLine {| level := LError;
                            text := if String.eqb id ""
                                    then "Could not detect distribution ID from /etc/os-release."
                                    else "Failed to detect distribution: Detected distribution "
                                         +:+ dquote +:+ id +:+ dquote
                                         +:+ " is not supported. "
                                         +:+ "Supported distributions are: "
                                         +:+ String.concat ", " getAvailableDistros +:+ "." |}
                   (world s);
               events := events s |})
      else (Returned id, s)
  | None =>
      (Exited 1,
       {| world :=
            addLine {| level := LError;
                       text := "Could not detect distribution ID from /etc/os-release." |}
              (world s);
          events := events s |})
  end.
Proof.
  intros Hread.
  unfold detectDistro, tryP, mbind, Proc_bind, bindP, liftM, Deno_readTextFile, liftResult.
  rewrite Hread. cbn [world events].
  destruct (matchId true text) as [id|]; cbn [fmap option_fmap option_map]; [|reflexivity].
  destruct (String.eqb (toLowerCase id) ""); cbn [orb]; [reflexivity|].
  destruct (Str.includes (toLowerCase id) getAvailableDistros); cbn [negb].
  - unfold retP. now rewrite session_eta.
  - reflexivity.
Qed.

(** X3: [detectDistro] never throws.  It returns an identifier of
    [getAvailableDistros] and leaves the session as it is, or it prints
    one error line and ends the process with exit code 1: when the file
    cannot be read, when no line gives an identifier, and when the
    distribution is not a supported one. *)
Theorem detectDistro_outcomes `{host : Host} (s : Session) :
  (∃ id, detectDistro s = (Returned id, s) ∧ id ∈ getAvailableDistros) ∨
  (∃ msg,
     detectDistro s
     = (Exited 1,
        {| world := addLine {| level := LError; text := msg |} (world s);
           events := events s |})).
Proof.
  destruct (fs_readTextFile (files (world s)) "/etc/os-release") as [text|e] eqn:Hread.
  - rewrite (detectDistro_text s text Hread).
    destruct (toLowerCase <$> matchId true text) as [id|]; [|right; eauto].
    destruct (String.eqb id "" || negb (Str.includes id getAvailableDistros)) eqn:E;
      [right; eauto|].
    left. exists id. split; [reflexivity|].
    apply orb_false_iff in E as [_ E]. apply negb_false_iff in E.
    now apply includes_elem_of.
  - right. exists ("Failed to detect distribution: " +:+ message e).
    unfold detectDistro, tryP, mbind, Proc_bind, bindP, liftM, Deno_readTextFile, liftResult.
    rewrite Hread. reflexivity.
Qed.






(** ** isExecutable and ensureExecutable *)

Lemma testbit_73 (i : Z) :
  Z.testbit 73 i = (i =? 0)%Z || (i =? 3)%Z || (i =? 6)%Z.
Proof.
  destruct (Z.ltb_spec i 0) as [Hneg|Hpos].
  - rewrite Z.testbit_neg_r by exact Hneg.
    symmetry. repeat (apply orb_false_iff; split); apply Z.eqb_neq; lia.
  - destruct (Z.ltb_spec i 7) as [Hlt|Hge].
    + assert (i = 0 ∨ i = 1 ∨ i = 2 ∨ i = 3 ∨ i = 4 ∨ i = 5 ∨ i = 6)%Z as H by lia.
      destruct H as [->|[->|[->|[->|[->|[->| ->]]]]]]; reflexivity.
    + rewrite Z.bits_above_log2; [| lia | simpl; lia].
      symmetry. repeat (apply orb_false_iff; split); apply Z.eqb_neq; lia.
Qed.

(** X5: [isExecutable] tests the three execute bits of a mode, those of
    the owner, the group and the others, and nothing else. *)
Theorem isExecutable_bits (m : Z) :
  isExecutable m = Z.testbit m 0 || Z.testbit m 3 || Z.testbit m 6.
Proof.
  unfold isExecutable.
  destruct (Z.testbit m 0 || Z.testbit m 3 || Z.testbit m 6) eqn:E.
  - apply negb_true_iff, Z.eqb_neq. intros H.
    assert (Hbits : ∀ i, Z.testbit (Z.land m 73) i = false)
      by (intros i; rewrite H; apply Z.bits_0).
    pose proof (Hbits 0%Z) as H0. pose proof (Hbits 3%Z) as H3.
    pose proof (Hbits 6%Z) as H6.
    rewrite Z.land_spec in H0, H3, H6.
    change (Z.testbit 73 0) with true in H0.
    change (Z.testbit 73 3) with true in H3.
    change (Z.testbit 73 6) with true in H6.
    rewrite andb_true_r in H0, H3, H6. rewrite H0, H3, H6 in E. discriminate.
  - apply negb_false_iff, Z.eqb_eq, Z.bits_inj'. intros i _.
    rewrite Z.land_spec, testbit_73, Z.bits_0.
    apply orb_false_iff in E as [E H6]. apply orb_false_iff in E as [H0 H3].
    destruct (Z.eqb_spec i 0) as [->|_]; [now rewrite H0|].
    destruct (Z.eqb_spec i 3) as [->|_]; [now rewrite H3|].
    destruct (Z.eqb_spec i 6) as [->|_]; [now rewrite H6|].
    apply andb_false_r.
Qed.

Section EnsureExecutable.
Context `{host : Host}.

Lemma ensureExecutable_run (path : string) (w : World) :
  ensureExecutable path w =
  match fs_lstat (files w) path with
  | Err e => caught path e w
  | Ok stat =>
      if negb (isFile stat) then
        (Ok false,
         addLine {| level := LWarn;
                    text := "Path is not a file, skipping executable check: " +:+ path |} w)
      else
        match mode stat with
        | None =>
            (Ok false,
             addLine {| level := LWarn;
                        text := "Could not determine file mode for: " +:+ path |} w)
        | Some m =>
            if isExecutable m then (Ok true, w)
            else
              let changed := fs_chmod path 493 (files w) in
              let w' :=
                setFiles changed.2
                  (addCall (CallChmod path 493)
                     (addLine {| level := LInfo;
                                 text := "Making file executable: " +:+ path |} w)) in
              match changed.1 with
              | Err e => caught path e w'
              | Ok _ =>
                  match fs_lstat changed.2 path with
                  | Err e => caught path e w'
                  | Ok newStat =>
                      (Ok match mode newStat with
                          | Some m' => isExecutable m'
                          | None => false
                          end, w')
                  end
              end
        end
  end.
Proof.
  unfold ensureExecutable, try, mbind, M_bind, bind, Deno_lstat, liftResult, caught.
  destruct (fs_lstat (files w) path) as [stat|e]; cbn [fst snd].
  - destruct (isFile stat); cbn [negb]; [|reflexivity].
    destruct (mode stat) as [m|]; [|reflexivity].
    destruct (isExecutable m); cbn [negb]; [reflexivity|].
    unfold log, Deno_chmod, fsCall, ret. cbn [files addLine].
    destruct (fs_chmod path 493 (files w)) as [[[]|e] fs]; cbn [fst snd files setFiles addCall].
    + destruct (fs_lstat fs path) as [newStat|e]; [reflexivity|].
      destruct (errorClass e); reflexivity.
    + destruct (errorClass e); reflexivity.
  - destruct (errorClass e); reflexivity.
Qed.

End EnsureExecutable.

(** X6: when [ensureExecutable] answers [true], the path is there
    afterwards and its mode has an execute bit. *)
Theorem ensureExecutable_true `{host : Host} (path : string) (w : World) :
  (ensureExecutable path w).1 = Ok true →
  ∃ stat m,
    fs_lstat (files (ensureExecutable path w).2) path = Ok stat ∧
    mode stat = Some m ∧ isExecutable m = true.
Proof.
  rewrite ensureExecutable_run. unfold caught.
  destruct (fs_lstat (files w) path) as [stat|e] eqn:Hstat.
  - destruct (isFile stat); cbn [negb]; [|discriminate].
    destruct (mode stat) as [m|] eqn:Hm; [|discriminate].
    destruct (isExecutable m) eqn:Hx; [intros _; exists stat, m; auto|].
    cbn zeta.
    destruct (fs_chmod path 493 (files w)) as [[[]|e] fs]; cbn [fst snd].
    + destruct (fs_lstat fs path) as [newStat|e] eqn:Hnew.
      * cbn [fst snd files setFiles].
        destruct (mode newStat) as [m'|] eqn:Hm'; [|discriminate].
        intros [= Hx']. exists newStat, m'. auto.
      * destruct (errorClass e); discriminate.
    + destruct (errorClass e); discriminate.
  - destruct (errorClass e); discriminate.
Qed.

(** The theorem on a file of mode 0o644: it is made executable. *)
Lemma ensureExecutable_true_witness :
  let run := ensureExecutable "/dots/setup.sh"
               (treeWorld [] plainScriptTree None "/" ∅) in
  run.1 = Ok true ∧
  calls run.2 = [CallChmod "/dots/setup.sh" 493] ∧
  ∃ stat m,
    fs_lstat (files run.2) "/dots/setup.sh" = Ok stat ∧
    mode stat = Some m ∧ isExecutable m = true.
Proof.
  intros run. split; [reflexivity|]. split; [reflexivity|].
  apply (ensureExecutable_true "/dots/setup.sh"
           (treeWorld [] plainScriptTree None "/" ∅)).
  reflexivity.
Defined.

(** X7: the only change [ensureExecutable] ever asks of the file system
    is one [chmod] of the path to 0o755, and it asks it only for a
    regular file whose mode has no execute bit; the environment and the
    heap stay as they are. *)
Theorem ensureExecutable_frame `{host : Host} (path : string) (w : World) :
  let run := ensureExecutable path w in
  HOME run.2 = HOME w ∧ cwd run.2 = cwd w ∧ heap run.2 = heap w ∧
  ((calls run.2 = calls w ∧ files run.2 = files w) ∨
   (calls run.2 = calls w ++ [CallChmod path 493] ∧
    files run.2 = (fs_chmod path 493 (files w)).2 ∧
    ∃ stat m,
      fs_lstat (files w) path = Ok stat ∧ isFile stat = true ∧
      mode stat = Some m ∧ isExecutable m = false)).
Proof.
  cbn zeta. rewrite ensureExecutable_run. unfold caught.
  destruct (fs_lstat (files w) path) as [stat|e] eqn:Hstat.
  - destruct (isFile stat) eqn:Hfile; cbn [negb]; [|cbn; auto 6].
    destruct (mode stat) as [m|] eqn:Hm; [|cbn; auto 6].
    destruct (isExecutable m) eqn:Hx; [cbn; auto 6|].
    cbn zeta.
    assert (Hchanged : ∃ stat' m',
               Ok (E := exn) stat = Ok stat' ∧ isFile stat' = true ∧
               mode stat' = Some m' ∧ isExecutable m' = false)
      by (exists stat, m; auto).
    destruct (fs_chmod path 493 (files w)) as [[[]|e] fs]; cbn [fst snd].
    + destruct (fs_lstat fs path) as [newStat|e];
        [|destruct (errorClass e)]; cbn; auto 10.
    + destruct (errorClass e); cbn; auto 10.
  - destruct (errorClass e); cbn; auto 6.
Qed.

(** X8: [ensureExecutable] throws only errors that are not
    [Deno.errors.NotFound], each after an error line that carries its
    message; a path that is not found gives [false] and a warning. *)
Theorem ensureExecutable_errors `{host : Host} (path : string) (w : World) :
  let run := ensureExecutable path w in
  (∀ e, run.1 = Err e →
     errorClass e = PlainError ∧
     ∃ before,
       console run.2
       = before ++ [{| level := LError;
                       text := "Error ensuring executable for " +:+ path +:+ ": "
                               +:+ message e |}]) ∧
  (∀ e, fs_lstat (files w) path = Err e → errorClass e = NotFound →
     run = (Ok false,
            addLine {| level := LWarn;
                       text := "File not found, cannot ensure executable: " +:+ path |}
              w)).
Proof.
  cbn zeta. rewrite ensureExecutable_run. unfold caught. split.
  - intros e.
    destruct (fs_lstat (files w) path) as [stat|e0].
    + destruct (isFile stat); cbn [negb]; [|discriminate].
      destruct (mode stat) as [m|]; [|discriminate].
      destruct (isExecutable m); [discriminate|]. cbn zeta.
      destruct (fs_chmod path 493 (files w)) as [[[]|e1] fs]; cbn [fst snd].
      * destruct (fs_lstat fs path) as [newStat|e1]; [discriminate|].
        destruct (errorClass e1) eqn:He1; [|discriminate].
        intros [= <-]. split; [exact He1|]. cbn. eauto.
      * destruct (errorClass e1) eqn:He1; [|discriminate].
        intros [= <-]. split; [exact He1|]. cbn. eauto.
    + destruct (errorClass e0) eqn:He0; [|discriminate].
      intros [= <-]. split; [exact He0|]. cbn. eauto.
  - intros e -> ->. reflexivity.
Qed.



(** ** performFileOperation, in general *)

Section Operation.
Context `{host : Host}.

(** The run of [performFileOperation], step by step. *)
Lemma performFileOperation_run (w : World) (sourcePath cmpName : string)
    (entry : ConfigSrc) (force_ : bool) (from_ to_ : string) :
  (getResolvedConfigPaths sourcePath cmpName entry w).1 = Ok (from_, to_) →
  performFileOperation sourcePath cmpName entry force_ w =
  match fs_stat (files w) from_ with
  | Err e => (Err e, addLine (operationFailed cmpName from_ to_ e) w)
  | Ok sourceStat =>
      let ensured := fs_ensureDir (urlParentDirectory to_) (files w) in
      let w1 := setFiles ensured.2 (addCall (CallEnsureDir (urlParentDirectory to_)) w) in
      match ensured.1 with
      | Err e => (Err e, addLine (operationFailed cmpName from_ to_ e) w1)
      | Ok _ =>
          match fs_lstat ensured.2 to_ with
          | Err _ => place cmpName entry sourceStat from_ to_ w1
          | Ok _ =>
              if negb (force_ || force entry) then
                (Ok tt,
                 addLine {| level := LSkip;
                            text := "Destination exists and force not set -- skipping: "
                                    +:+ to_ |} w1)
              else
                let removed := fs_remove to_ ensured.2 in
                let w2 :=
                  setFiles removed.2
                    (addCall (CallRemove to_)
                       (addLine {| level := LInfo;
                                   text := "Force removing existing destination: "
                                           +:+ to_ |} w1)) in
                match removed.1 with
                | Err e =>
                    (Err e,
                     addLine (operationFailed cmpName from_ to_ e)
                       (addLine {| level := LError;
                                   text := "Failed to remove existing destination "
                                           +:+ to_ +:+ ": " +:+ message e |} w2))
                | Ok _ => place cmpName entry sourceStat from_ to_ w2
                end
          end
      end
  end.
Proof.
  intros Hpaths.
  unfold performFileOperation, mbind, M_bind, bind.
  rewrite getResolvedConfigPaths_run, Hpaths. cbn [fst snd].
  unfold try at 1. unfold Deno_stat, liftResult.
  destruct (fs_stat (files w) from_) as [sourceStat|e]; [|reflexivity].
  unfold ensureDir, fsCall. cbn [files setFiles addCall].
  destruct (fs_ensureDir (urlParentDirectory to_) (files w)) as [[[]|e] fs1];
    cbn [fst snd]; [|reflexivity].
  unfold try, Deno_lstat, liftResult, bind, ret. cbn [files setFiles addCall].
  destruct (fs_lstat fs1 to_) as [info|e].
  - destruct (force_ || force entry); cbn [negb]; [|reflexivity].
    unfold log at 1. unfold Deno_remove, fsCall. cbn [files addLine setFiles addCall].
    destruct (fs_remove to_ fs1) as [[[]|e] fs2]; cbn [fst snd];
      [|unfold log, throw, operationFailed; reflexivity].
    unfold place, placement, log, copy, Deno_symlink, fsCall, throw, operationFailed.
    destruct (method entry); cbn [files addLine setFiles addCall].
    + destruct (fs_copy from_ to_ fs2) as [[[]|e] fs]; reflexivity.
    + destruct (fs_symlink from_ to_ _ fs2) as [[[]|e] fs]; reflexivity.
  - unfold place, placement, log, copy, Deno_symlink, fsCall, throw, operationFailed.
    destruct (method entry); cbn [files addLine setFiles addCall].
    + destruct (fs_copy from_ to_ fs1) as [[[]|e'] fs]; reflexivity.
    + destruct (fs_symlink from_ to_ _ fs1) as [[[]|e'] fs]; reflexivity.
Qed.

End Operation.

(** X9: what [performFileOperation] asks of the file system, once the
    paths are resolved: nothing when the source does not exist;
    otherwise [ensureDir] of the parent of the destination and then at
    most a removal of the destination and one copy or link from the
    source to the destination, in this order.  The removal is asked only
    when a force flag is set and the destination exists, the link has
    the type of the source, and the environment and the heap stay as
    they are. *)
Theorem performFileOperation_calls `{host : Host} (w : World)
    (sourcePath cmpName : string) (entry : ConfigSrc) (force_ : bool)
    (from_ to_ : string) :
  (getResolvedConfigPaths sourcePath cmpName entry w).1 = Ok (from_, to_) →
  let run := performFileOperation sourcePath cmpName entry force_ w in
  let parent := urlParentDirectory to_ in
  HOME run.2 = HOME w ∧ cwd run.2 = cwd w ∧ heap run.2 = heap w ∧
  match fs_stat (files w) from_ with
  | Err _ => calls run.2 = calls w ∧ files run.2 = files w
  | Ok sourceStat =>
      let put := placement entry (isDirectory sourceStat) from_ to_ in
      ∃ after,
        calls run.2 = calls w ++ CallEnsureDir parent :: after ∧
        (after = [] ∨
         (after = [put] ∧
          ∃ e, fs_lstat (fs_ensureDir parent (files w)).2 to_ = Err e) ∨
         ((after = [CallRemove to_] ∨ after = [CallRemove to_; put]) ∧
          force_ || force entry = true ∧
          ∃ info, fs_lstat (fs_ensureDir parent (files w)).2 to_ = Ok info))
  end.
Proof.
  intros Hpaths run parent. subst run parent.
  rewrite (performFileOperation_run w _ _ _ _ from_ to_ Hpaths).
  destruct (fs_stat (files w) from_) as [sourceStat|e]; [|cbn; auto].
  cbn zeta.
  destruct (fs_ensureDir (urlParentDirectory to_) (files w)) as [[[]|e] fs1];
    cbn [fst snd]; [|cbn; eauto 10].
  assert (Hplace : ∀ w0,
    let r := place cmpName entry sourceStat from_ to_ w0 in
    HOME r.2 = HOME w0 ∧ cwd r.2 = cwd w0 ∧ heap r.2 = heap w0 ∧
    calls r.2 = calls w0 ++ [placement entry (isDirectory sourceStat) from_ to_]).
  { intros w0. unfold place. cbn zeta.
    destruct (method entry);
      match goal with |- context [fs_copy ?a ?b ?c] =>
          destruct (fs_copy a b c) as [[[]|?] ?]
      | |- context [fs_symlink ?a ?b ?t ?c] =>
          destruct (fs_symlink a b t c) as [[[]|?] ?]
      end; cbn; auto. }
  destruct (fs_lstat fs1 to_) as [info|e].
  - destruct (force_ || force entry); cbn [negb]; [|cbn; eauto 10].
    destruct (fs_remove to_ fs1) as [[[]|e] fs2]; cbn [fst snd].
    + match goal with |- context [place _ _ _ _ _ ?w0] =>
        destruct (Hplace w0) as (-> & -> & -> & ->) end.
      cbn. repeat split; try reflexivity.
      exists [CallRemove to_; placement entry (isDirectory sourceStat) from_ to_].
      split; [now rewrite <- !app_assoc|]. eauto 10.
    + cbn. repeat split; try reflexivity.
      exists [CallRemove to_]. split; [now rewrite <- !app_assoc|]. eauto 10.
  - match goal with |- context [place _ _ _ _ _ ?w0] =>
      destruct (Hplace w0) as (-> & -> & -> & ->) end.
    cbn. repeat split; try reflexivity.
    exists [placement entry (isDirectory sourceStat) from_ to_].
    split; [now rewrite <- !app_assoc|]. eauto 10.
Qed.

(** The theorem on the host of the examples: [~/.gitconfig] is not
    there, and [git]'s entry is linked as a file. *)
Lemma performFileOperation_calls_witness :
  let run := performFileOperation "/dots" "git" gitConfig false exampleWorld in
  heap run.2 = heap exampleWorld ∧
  calls run.2
  = [CallEnsureDir "/home/u/";
     CallSymlink "/dots/git/gitconfig" "/home/u/.gitconfig" TypeFile].
Proof.
  intros run. split; [|reflexivity].
  apply (performFileOperation_calls exampleWorld "/dots" "git" gitConfig false
           "/dots/git/gitconfig" "/home/u/.gitconfig" eq_refl).
Defined.

(** X10: how [performFileOperation] reports.  When the destination path
    cannot be resolved it throws at once, with nothing printed and
    nothing touched; afterwards every error it throws is the last line
    of the console, and when it returns the last line says that the
    entry was skipped or that the operation succeeded. *)
Theorem performFileOperation_reports `{host : Host} (w : World)
    (sourcePath cmpName : string) (entry : ConfigSrc) (force_ : bool) :
  let run := performFileOperation sourcePath cmpName entry force_ w in
  (∀ e, (getResolvedConfigPaths sourcePath cmpName entry w).1 = Err e →
     run = (Err e, w)) ∧
  (∀ from_ to_,
     (getResolvedConfigPaths sourcePath cmpName entry w).1 = Ok (from_, to_) →
     match run.1 with
     | Err e =>
         ∃ before, console run.2 = before ++ [operationFailed cmpName from_ to_ e]
     | Ok _ =>
         ∃ before,
           console run.2
           = before ++ [{| level := LSkip;
                           text := "Destination exists and force not set -- skipping: "
                                   +:+ to_ |}] ∨
           console run.2
           = before ++ [{| level := LSuccess;
                           text := "Operation successful for " +:+ cmpName +:+ ": "
                                   +:+ from_ +:+ " -> " +:+ to_ |}]
     end).
Proof.
  intros run. subst run. split.
  - intros e He. unfold performFileOperation, mbind, M_bind, bind.
    rewrite getResolvedConfigPaths_run, He. reflexivity.
  - intros from_ to_ Hpaths.
    rewrite (performFileOperation_run w _ _ _ _ from_ to_ Hpaths).
    destruct (fs_stat (files w) from_) as [sourceStat|e]; [|cbn; eauto].
    cbn zeta.
    destruct (fs_ensureDir (urlParentDirectory to_) (files w)) as [[[]|e] fs1];
      cbn [fst snd]; [|cbn; eauto].
    assert (Hplace : ∀ w0,
      match (place cmpName entry sourceStat from_ to_ w0).1 with
      | Err e =>
          ∃ before, console (place cmpName entry sourceStat from_ to_ w0).2
                    = before ++ [operationFailed cmpName from_ to_ e]
      | Ok _ =>
          ∃ before, console (place cmpName entry sourceStat from_ to_ w0).2
                    = before ++ [{| level := LSuccess;
                                    text := "Operation successful for " +:+ cmpName
                                            +:+ ": " +:+ from_ +:+ " -> " +:+ to_ |}]
      end).
    { intros w0. unfold place. cbn zeta.
      destruct (method entry);
        match goal with |- context [fs_copy ?a ?b ?c] =>
            destruct (fs_copy a b c) as [[[]|?] ?]
        | |- context [fs_symlink ?a ?b ?t ?c] =>
            destruct (fs_symlink a b t c) as [[[]|?] ?]
        end; cbn; eauto. }
    destruct (fs_lstat fs1 to_) as [info|e].
    + destruct (force_ || force entry); cbn [negb]; [|cbn; eauto].
      destruct (fs_remove to_ fs1) as [[[]|e] fs2]; cbn [fst snd]; [|cbn; eauto].
      match goal with |- context [place _ _ _ _ _ ?w0] =>
        specialize (Hplace w0);
        destruct (place cmpName entry sourceStat from_ to_ w0) as [[[]|e] w'] end;
        cbn [fst snd] in *; destruct Hplace as [before ->]; eauto.
    + match goal with |- context [place _ _ _ _ _ ?w0] =>
        specialize (Hplace w0);
        destruct (place cmpName entry sourceStat from_ to_ w0) as [[[]|e'] w'] end;
        cbn [fst snd] in *; destruct Hplace as [before ->]; eauto.
Qed.

(** ** getResolvedConfigPaths *)

Lemma resolve_absolute_last (dir : string) (before : list string) (path : string) :
  Str.isAbsolute path = true →
  Path.resolve dir (before ++ [path])
  = "/" +:+ Path.normalizeString (path +:+ "/" +:+ "") false.
Proof.
  intros Habs. unfold Path.resolve. rewrite rev_app_distr. simpl.
  destruct (String.eqb_spec path "") as [->|_]; [discriminate|].
  now rewrite Habs.
Qed.

(** X11: an absolute [from] is taken as it is: the source root and the
    component name play no part in the paths of the entry, so an entry
    can name a source outside its component. *)
Theorem getResolvedConfigPaths_absolute_from `{host : Host} (w : World)
    (sourcePath cmpName : string) (entry : ConfigSrc) :
  Str.isAbsolute (from entry) = true →
  (∀ sourcePath' cmpName',
     getResolvedConfigPaths sourcePath cmpName entry w
     = getResolvedConfigPaths sourcePath' cmpName' entry w) ∧
  (∀ from_ to_,
     (getResolvedConfigPaths sourcePath cmpName entry w).1 = Ok (from_, to_) →
     from_ = Path.resolve "/" [from entry]).
Proof.
  intros Habs.
  assert (Hfrom : ∀ s c dir,
            Path.resolve dir [s; c; from entry] = Path.resolve "/" [from entry]).
  { intros s c dir.
    exact (eq_trans (resolve_absolute_last dir [s; c] (from entry) Habs)
             (eq_sym (resolve_absolute_last "/" [] (from entry) Habs))). }
  split.
  - intros s' c'.
    unfold getResolvedConfigPaths, mbind, M_bind, bind, Deno_cwd, reads.
    cbn [fst snd]. now rewrite !Hfrom.
  - intros from_ to_.
    unfold getResolvedConfigPaths, mbind, M_bind, bind, Deno_cwd, reads.
    cbn [fst snd]. rewrite Hfrom.
    destruct (resolveHomePath (to entry) w) as [[t|e] w']; [|discriminate].
    unfold ret. cbn [fst]. now intros [= <- _].
Qed.

(** The theorem on an entry whose source is under [/etc]. *)
Lemma getResolvedConfigPaths_absolute_from_witness :
  let entry := {| from := "/etc/../etc/gitconfig"; to := "~/.gitconfig";
                  method := copy_; force := false; tags := ["*"] |} in
  (getResolvedConfigPaths "/dots" "git" entry exampleWorld).1
    = Ok ("/etc/gitconfig", "/home/u/.gitconfig") ∧
  getResolvedConfigPaths "/dots" "git" entry exampleWorld
    = getResolvedConfigPaths "/elsewhere" "vim" entry exampleWorld.
Proof.
  intros entry. split; [reflexivity|].
  apply (getResolvedConfigPaths_absolute_from exampleWorld "/dots" "git" entry eq_refl).
Defined.



(** ** resolveManifest *)

Section Resolve.
Context `{host : Host}.

(** The loop over the configs: all sources are there, or the first
    missing one is reported. *)
Lemma configs_checked (cmpName srcPath : string) (cs : list ConfigSrc) (w : World) :
  let check := forEach cs (λ config,
                 let fullFromPath := Path.join [srcPath; from config] in
                 found ← exists_ fullFromPath;
                 if negb found
                 then throw (Error ("Source file/directory not found for config '"
                                    +:+ from config +:+ "' in component '" +:+ cmpName
                                    +:+ "': " +:+ fullFromPath))
                 else ret tt) in
  (check w).2 = w ∧
  ((check w).1 = Ok tt ↔
   ∀ c, c ∈ cs → fs_exists (files w) (Path.join [srcPath; from c]) = Ok true).
Proof.
  induction cs as [|c cs [IHw IH]]; cbn zeta in *.
  - split; [reflexivity|]. split; [intros _ c Hc; inversion Hc | reflexivity].
  - cbn [forEach]. unfold mbind, M_bind, bind, exists_, liftResult in *.
    cbn [fst snd].
    destruct (fs_exists (files w) (Path.join [srcPath; from c])) as [[|]|e] eqn:E;
      cbn [negb].
    + unfold ret at 1. split; [exact IHw|]. rewrite IH. split.
      * intros H c' Hc'. apply elem_of_cons in Hc' as [->|Hc']; auto.
      * intros H c' Hc'. apply H. now right.
    + unfold throw. split; [reflexivity|]. split; [discriminate|].
      intros H. rewrite H in E by now left. discriminate.
    + split; [reflexivity|]. split; [discriminate|].
      intros H. rewrite H in E by now left. discriminate.
Qed.

End Resolve.

(** X12: what a resolved manifest guarantees: the manifest file exists,
    the manifest is what the schema makes of the parsed file, the
    component directory is a directory, and the source of every config
    entry exists under it. *)
Theorem resolveManifest_resolved `{host : Host} (w : World)
    (cmpName sourcePath : string) (manifest : Manifest) :
  (resolveManifest cmpName sourcePath w).1 = Ok manifest →
  fs_exists (files w) (manifestPathOf sourcePath cmpName) = Ok true ∧
  (∃ text document,
     fs_readTextFile (files w) (manifestPathOf sourcePath cmpName) = Ok text ∧
     jsonc_parse text = Ok document ∧
     DotfileManifestSchema (Some document) = Ok manifest) ∧
  (∃ stat,
     fs_stat (files w) (srcPathOf sourcePath cmpName) = Ok stat ∧
     isDirectory stat = true) ∧
  (∀ cs c,
     configs manifest = Some cs → c ∈ cs →
     fs_exists (files w) (Path.join [srcPathOf sourcePath cmpName; from c]) = Ok true).
Proof.
  unfold manifestPathOf, srcPathOf, resolveManifest.
  unfold try at 1. unfold mbind, M_bind, bind, exists_, Deno_readTextFile,
    Deno_stat, liftResult. cbn [fst snd].
  destruct (fs_exists (files w) _) as [[|]|e0] eqn:Hfile; cbn [negb];
    [|discriminate..].
  unfold ret at 1.
  destruct (fs_readTextFile (files w) _) as [text|e] eqn:Hread; [|discriminate].
  destruct (jsonc_parse text) as [document|e] eqn:Hparse; [|discriminate].
  destruct (DotfileManifestSchema (Some document)) as [m|issues] eqn:Hschema;
    [|discriminate].
  unfold ret at 1. unfold try at 1.
  destruct (fs_stat (files w) _) as [stat|e] eqn:Hstat; [|discriminate].
  unfold ret at 1.
  destruct (isDirectory stat) eqn:Hdir; cbn [negb]; [|discriminate].
  unfold ret at 1.
  destruct (configs m) as [cs|] eqn:Hcs.
  - pose proof (configs_checked cmpName (Path.join [Path.join [sourcePath; cmpName]])
                  cs w) as [_ Hok].
    cbn zeta in Hok. unfold mbind, M_bind, bind, exists_, liftResult in Hok.
    match type of Hok with (?x.1 = _ ↔ _) =>
      destruct x as [[[]|e] w'] eqn:Hloop end; cbn [fst snd] in *; [|discriminate].
    unfold ret. cbn [fst]. intros [= <-].
    split; [reflexivity|]. split; [eauto|]. split; [eauto|].
    intros cs' c. rewrite Hcs. intros [= <-]. now apply (proj1 Hok eq_refl).
  - unfold ret. cbn [fst]. intros [= <-].
    split; [reflexivity|]. split; [eauto|]. split; [eauto|].
    intros cs' c. rewrite Hcs. discriminate.
Qed.

(** The theorem on the component [git] of the examples. *)
Lemma resolveManifest_resolved_witness :
  (resolveManifest "git" "/dots" exampleWorld).1 = Ok gitManifest ∧
  fs_exists (files exampleWorld) "/dots/git/gitconfig" = Ok true.
Proof.
  split; [reflexivity|].
  destruct (resolveManifest_resolved exampleWorld "git" "/dots" gitManifest eq_refl)
    as (_ & _ & _ & Hconfigs).
  apply (Hconfigs [gitConfig] gitConfig eq_refl). now left.
Defined.


(** ** The catalog only reads *)

Lemma skipWarnings_levels `{host : Host} (w : World) (componentsPath : string)
    (names : list string) :
  Forall (λ l, level l = LWarn) (skipWarnings w componentsPath names).
Proof.
  unfold skipWarnings. induction names as [|n names IH]; [constructor|].
  cbn [omap list_omap].
  destruct (resolveManifest n componentsPath w).1; [exact IH|].
  constructor; [reflexivity | exact IH].
Qed.

(** What [getAvailableManifests] leaves behind: lines on the console. *)
Lemma getAvailableManifests_lines `{host : Host} (w : World)
    (sortBy : SortBy) (cmpNames : list string) (source : option string) :
  ∃ lines,
    (getAvailableManifests sortBy cmpNames source w).2 = addLines lines w ∧
    Forall (λ l, level l = LWarn ∨ level l = LError) lines.
Proof.
  rewrite getAvailableManifests_run. cbn zeta.
  destruct (fs_exists (files w) (componentsPathOf source (cwd w))) as [[|]|e].
  - destruct cmpNames as [|n ns].
    + destruct (fs_readDir (files w) (componentsPathOf source (cwd w)))
        as [entries|e].
      * cbn [fst snd]. eexists. split; [reflexivity|].
        eapply Forall_impl; [apply skipWarnings_levels | auto].
      * exists []. split; [now rewrite addLines_nil | constructor].
    + cbn [fst snd]. eexists. split; [reflexivity|].
      eapply Forall_impl; [apply skipWarnings_levels | auto].
  - cbn [fst snd].
    exists [{| level := LError;
               text := "Components source directory not found: "
                       +:+ componentsPathOf source (cwd w) |}].
    split; [reflexivity|]. constructor; [now right | constructor].
  - exists []. split; [now rewrite addLines_nil | constructor].
Qed.

(** When [getAvailableManifests] throws. *)
Lemma getAvailableManifests_throws `{host : Host} (w : World)
    (sortBy : SortBy) (cmpNames : list string) (source : option string) (e : exn) :
  let run := getAvailableManifests sortBy cmpNames source w in
  let componentsPath := componentsPathOf source (cwd w) in
  (run.1 = Err e ↔
   fs_exists (files w) componentsPath = Err e ∨
   cmpNames = [] ∧ fs_exists (files w) componentsPath = Ok true ∧
   fs_readDir (files w) componentsPath = Err e) ∧
  (run.1 = Err e → run.2 = w).
Proof.
  cbn zeta. rewrite getAvailableManifests_run. cbn zeta.
  destruct (fs_exists (files w) (componentsPathOf source (cwd w)))
    as [[|]|e0] eqn:Hroot.
  - destruct cmpNames as [|n ns].
    + destruct (fs_readDir (files w) (componentsPathOf source (cwd w)))
        as [entries|e'] eqn:Hdir; cbn [fst snd].
      * split; [|discriminate].
        split; [discriminate | intros [[=] | (_ & _ & [=])]].
      * split; [|reflexivity].
        split; [intros [= <-]; auto | now intros [[=] | (_ & _ & [= <-])]].
    + cbn [fst snd]. split; [|discriminate].
      split; [discriminate | intros [[=] | ([=] & _)]].
  - cbn [fst snd]. split; [|discriminate].
    split; [discriminate | intros [[=] | (_ & [=] & _)]].
  - cbn [fst snd]. split; [|reflexivity].
    split; [intros [= <-]; auto | now intros [[= <-] | (_ & [=] & _)]].
Qed.

(** X14: [getAvailableManifests] only reads: it leaves the file system,
    the environment and the heap as they are and prints warnings and
    errors only.  It throws in two cases, and in those always: the
    question whether the source root exists is itself answered by an
    error, which is thrown; or no component is named and the source root
    exists but cannot be listed, and the error of the listing is thrown.
    In both nothing is printed. *)
Theorem getAvailableManifests_frame `{host : Host} (w : World)
    (sortBy : SortBy) (cmpNames : list string) (source : option string) :
  let run := getAvailableManifests sortBy cmpNames source w in
  let componentsPath := componentsPathOf source (cwd w) in
  (∃ lines,
     run.2 = addLines lines w ∧
     Forall (λ l, level l = LWarn ∨ level l = LError) lines) ∧
  (∀ e, run.1 = Err e ↔
        fs_exists (files w) componentsPath = Err e ∨
        cmpNames = [] ∧ fs_exists (files w) componentsPath = Ok true ∧
        fs_readDir (files w) componentsPath = Err e) ∧
  (∀ e, run.1 = Err e → run.2 = w).
Proof.
  cbn zeta. split; [apply getAvailableManifests_lines|].
  split; intros e.
  - apply (getAvailableManifests_throws w sortBy cmpNames source e).
  - apply (getAvailableManifests_throws w sortBy cmpNames source e).
Qed.

(** ** getComponentBuilds, in general *)

Section Builds.
Context `{host : Host}.

Lemma ensureExecutable_env (path : string) (w : World) :
  HOME (ensureExecutable path w).2 = HOME w ∧
  cwd (ensureExecutable path w).2 = cwd w ∧
  heap (ensureExecutable path w).2 = heap w.
Proof.
  unfold ensureExecutable, try, mbind, M_bind, bind, Deno_lstat, liftResult.
  destruct (fs_lstat (files w) path) as [stat|e]; cbn [fst snd].
  - destruct (isFile stat); cbn [negb]; [|cbn; auto].
    destruct (mode stat) as [m|]; [|cbn; auto].
    destruct (isExecutable m); cbn [negb]; [cbn; auto|].
    unfold log, Deno_chmod, fsCall, ret. cbn [files addLine].
    destruct (fs_chmod path 493 (files w)) as [[[]|e] fs];
      cbn [fst snd files setFiles addCall].
    + destruct (fs_lstat fs path) as [newStat|e]; [cbn; auto|].
      destruct (errorClass e); cbn; auto.
    + destruct (errorClass e); cbn; auto.
  - destruct (errorClass e); cbn; auto.
Qed.

(** The first list that is there, or a new one; no other array changes. *)
Lemma initialCommands_heap (w : World) (machineId : string)
    (man : DotfileManifest loc) :
  allocated (heap w) man →
  ∃ commands h',
    initialCommands machineId man w = (Ok commands, setHeap h' w) ∧
    h' !! commands = Some (specStartingCommands (snapshot (heap w) man) machineId) ∧
    ∀ l, l ≠ commands → h' !! l = heap w !! l.
Proof.
  intros Hal. unfold initialCommands, specStartingCommands, snapshot. simpl.
  assert (Hnew : ∃ commands h',
             newArray [] w = (Ok commands, setHeap h' w) ∧ h' !! commands = Some [] ∧
             ∀ l, l ≠ commands → h' !! l = heap w !! l).
  { eexists _, _. split; [reflexivity|]. split; [apply lookup_insert_eq|].
    intros l Hl. now apply lookup_insert_ne. }
  destruct (builds man) as [b|] eqn:Hb; simpl; [|exact Hnew].
  rewrite !lookup_omap.
  destruct (b !! machineId) as [l|] eqn:Hl; simpl.
  { destruct (Hal b machineId l Hb Hl) as [c Hc]. rewrite Hc.
    exists l, (heap w). split; [now destruct w | auto]. }
  destruct (b !! "*") as [l|] eqn:Hs; simpl; [|exact Hnew].
  destruct (Hal b "*" l Hb Hs) as [c Hc]. rewrite Hc.
  exists l, (heap w). split; [now destruct w | auto].
Qed.

(** The loop over the scripts directory: one command for each script
    of the machine id, in the order of the directory. *)
Lemma scripts_pushed (machineId fullPath : string) (commands : loc)
    (entries : list DirEntry) (w w' : World) :
  forEach entries (λ entry,
    let matched :=
      String.eqb (default "" (head (Str.split "." (entry_name entry)))) machineId in
    if negb (entry_isFile entry) || negb matched then ret tt
    else
      let filePath := fullPath +:+ "/" +:+ entry_name entry in
      ensureExecutable filePath;;
      push commands ("bash -c " +:+ dquote +:+ filePath +:+ dquote)) w = (Ok tt, w') →
  HOME w' = HOME w ∧ cwd w' = cwd w ∧
  (∀ l, l ≠ commands → heap w' !! l = heap w !! l) ∧
  heap w' !! commands
  = (λ items, items ++ map (scriptCommand fullPath)
                          (List.filter (scriptFor machineId) entries))
    <$> heap w !! commands.
Proof.
  revert w. induction entries as [|entry entries IH]; intros w.
  - cbn [forEach]. unfold ret. intros [= <-]. cbn [List.filter map].
    repeat split; try reflexivity.
    destruct (heap w !! commands) as [items|]; cbn; [|reflexivity].
    now rewrite app_nil_r.
  - cbn [forEach List.filter]. unfold scriptFor at 1. cbn zeta.
    unfold mbind at 1. unfold M_bind, bind at 1.
    destruct (entry_isFile entry); cbn [negb orb andb];
      [destruct (String.eqb _ machineId); cbn [negb]|].
    + unfold mbind at 1. unfold M_bind, bind at 1.
      pose proof (ensureExecutable_env (fullPath +:+ "/" +:+ entry_name entry) w)
        as (Hh & Hc & Hp).
      destruct (ensureExecutable (fullPath +:+ "/" +:+ entry_name entry) w)
        as [[b|e] w1]; cbn [fst snd] in *; [|discriminate].
      unfold push at 1. intros Hloop. apply IH in Hloop as (Hh' & Hc' & Hother & Hcmds).
      cbn [HOME cwd heap setHeap] in *.
      split; [congruence|]. split; [congruence|]. split.
      * intros l Hl. rewrite (Hother l Hl), lookup_alter_ne by congruence.
        now rewrite Hp.
      * rewrite Hcmds, lookup_alter_eq, Hp.
        destruct (heap w !! commands) as [items|]; cbn; [|reflexivity].
        unfold scriptCommand at 2. now rewrite <- app_assoc.
    + unfold ret at 1. apply IH.
    + unfold ret at 1. apply IH.
Qed.

End Builds.

(** X15: what [getComponentBuilds] returns when the scripts directory
    exists: the starting list, followed by one [bash -c] command for
    each regular file of the directory whose name matches the machine
    id, in the order of the listing.  No other array of the heap
    changes. *)
Theorem getComponentBuilds_commands `{host : Host} (w : World)
    (machineId : string) (man : DotfileManifest loc) (source : option string)
    (fullPath : string) (entries : list DirEntry) :
  allocated (heap w) man →
  (resolveHomePath (buildsDir source man) w).1 = Ok fullPath →
  fs_exists (files w) fullPath = Ok true →
  fs_readDir (files w) fullPath = Ok entries →
  ∀ commands w',
    getComponentBuilds machineId man source w = (Ok commands, w') →
    heap w' !! commands
    = Some (specStartingCommands (snapshot (heap w) man) machineId
            ++ map (scriptCommand fullPath)
                 (List.filter (scriptFor machineId) entries)) ∧
    (∀ l, l ≠ commands → heap w' !! l = heap w !! l) ∧
    HOME w' = HOME w ∧ cwd w' = cwd w.
Proof.
  intros Hal Hres Hfound Hdir commands w'.
  destruct (initialCommands_heap w machineId man Hal)
    as (commands0 & h' & Hrun & Hget & Hrest).
  unfold getComponentBuilds, mbind, M_bind, bind. rewrite Hrun.
  rewrite resolveHomePath_run.
  rewrite (resolveHomePath_env _ (setHeap h' w) w eq_refl eq_refl), Hres.
  unfold exists_, reads, Deno_readDir, liftResult. cbn [fst snd files setHeap negb].
  rewrite Hfound. cbn [negb fst snd files setHeap]. rewrite Hdir.
  match goal with |- context [forEach entries ?body ?w0] =>
    destruct (forEach entries body w0) as [[[]|e] w1] eqn:Hloop end;
    [|discriminate].
  unfold ret. intros [= <- <-].
  apply scripts_pushed in Hloop as (Hh & Hc & Hother & Hcmds).
  cbn [HOME cwd heap setHeap] in *.
  split; [now rewrite Hcmds, Hget|]. split; [|auto].
  intros l Hl. rewrite (Hother l Hl). now apply Hrest.
Qed.

(** The theorem on the component [shell] and its script for [fedora]. *)
Lemma getComponentBuilds_commands_witness :
  let w := treeWorld [] scriptTree None "/work" buildsHeap in
  let run := getComponentBuilds "fedora" shellManifest (Some "/dots") w in
  run.1 = Ok 1%positive ∧
  heap run.2 !! 1%positive = Some ["a"; fedoraScript] ∧
  heap run.2 !! 2%positive = Some ["b"].
Proof.
  intros w run.
  destruct (getComponentBuilds_commands w "fedora" shellManifest (Some "/dots")
              "/dots/shell/builds"
              [{| entry_name := "fedora.sh"; entry_isFile := true;
                  entry_isDirectory := false |}]
              shellManifest_allocated eq_refl eq_refl eq_refl
              1%positive run.2 eq_refl) as (Hcmds & Hother & _).
  split; [reflexivity|]. split; [exact Hcmds|].
  rewrite (Hother 2%positive); [reflexivity | discriminate].
Defined.

(** ** Which scripts belong to a machine id *)

Lemma firstPiece_head (sep : ascii) (s : string) :
  head (Str.split sep s) = Some (firstPiece sep s).
Proof.
  induction s as [|c s IH]; cbn [Str.split firstPiece]; [reflexivity|].
  destruct (Ascii.eqb c sep); [reflexivity|].
  destruct (Str.split sep s) as [|piece pieces]; [discriminate|].
  cbn [head] in *. now injection IH as ->.
Qed.

Lemma firstPiece_spec (sep : ascii) (name piece : string) :
  firstPiece sep name = piece ↔
  Str.has_char sep piece = false ∧
  (name = piece ∨ ∃ rest, name = piece +:+ String sep rest).
Proof.
  revert piece. induction name as [|c name IH]; intros piece; cbn [firstPiece].
  - split.
    + intros <-. auto.
    + intros [_ [<-|[rest H]]]; [reflexivity|]. destruct piece; discriminate.
  - destruct (Ascii.eqb_spec c sep) as [->|Hne].
    + split.
      * intros <-. split; [reflexivity|]. right. now exists name.
      * intros [Hp Hshape]. destruct piece as [|d piece]; [reflexivity|].
        cbn in Hp. apply orb_false_iff in Hp as [Hd _].
        assert (d = sep) as -> by (destruct Hshape as [H|[rest H]]; now injection H).
        now rewrite Ascii.eqb_refl in Hd.
    + split.
      * intros <-. destruct (proj1 (IH _) eq_refl) as [Hp Hshape]. split.
        -- cbn. rewrite Hp, orb_false_r. apply Ascii.eqb_neq. congruence.
        -- destruct Hshape as [H|[rest H]]; [left | right; exists rest];
             now rewrite H at 1.
      * intros [Hp Hshape]. destruct piece as [|d piece].
        { destruct Hshape as [H|[rest H]]; [discriminate|].
          injection H as -> _. congruence. }
        cbn in Hp. apply orb_false_iff in Hp as [_ Hp].
        assert (d = c ∧ (name = piece ∨ ∃ rest, name = piece +:+ String sep rest))
          as [-> Hname].
        { destruct Hshape as [H|[rest H]]; injection H as -> ->; eauto. }
        f_equal. apply IH. auto.
Qed.

Lemma startsWith_append (p s : string) :
  Str.startsWith p s = true ↔ ∃ rest, s = p +:+ rest.
Proof.
  revert s. induction p as [|a p IH]; intros s.
  - split; [intros _; now exists s | reflexivity].
  - destruct s as [|b s]; cbn [Str.startsWith].
    + split; [discriminate | intros [rest H]; discriminate].
    + rewrite andb_true_iff, IH, Ascii.eqb_eq. split.
      * intros [-> [rest ->]]. now exists rest.
      * intros [rest H]. injection H as -> ->. eauto.
Qed.

(** X16: a file of the scripts directory is taken for a machine id
    exactly when its name is the id, or the id followed by a dot and
    anything; an id that holds a dot is matched by no file. *)
Theorem scriptFor_names (machineId : string) (entry : DirEntry) :
  scriptFor machineId entry = true ↔
  entry_isFile entry = true ∧ Str.has_char "." machineId = false ∧
  (entry_name entry = machineId ∨
   Str.startsWith (machineId +:+ ".") (entry_name entry) = true).
Proof.
  unfold scriptFor.
  rewrite firstPiece_head.
  change (default "" (Some (firstPiece "." (entry_name entry))))
    with (firstPiece "." (entry_name entry)).
  rewrite andb_true_iff, String.eqb_eq, firstPiece_spec, startsWith_append.
  assert (Happ : ∀ rest, (machineId +:+ ".") +:+ rest = machineId +:+ String "." rest).
  { intros rest. induction machineId as [|c m IH]; [reflexivity|].
    change (String c ((m +:+ ".") +:+ rest) = String c (m +:+ String "." rest)).
    now rewrite IH. }
  split.
  - intros (Hf & Hm & [H|[rest H]]); repeat split; auto.
    right. exists rest. now rewrite Happ.
  - intros (Hf & Hm & [H|[rest H]]); repeat split; auto.
    right. exists rest. now rewrite <- Happ.
Qed.



(** ** The schema, further *)

Section SchemaFacts.
Context `{host : Host}.

Lemma z_tag_known (v : option json) (t : string) :
  z_tag v = Ok t → t ∈ availableTags ∧ v = Some (JString t).
Proof.
  unfold z_tag, z_enum.
  destruct v as [[| | |s| |]|]; try discriminate.
  assert (H : ∀ l, property s (map (λ t, (t, t)) l) = Some t → t ∈ l ∧ s = t).
  { induction l as [|x l IH]; cbn [map property]; [discriminate|].
    destruct (String.eqb_spec x s) as [->|_].
    - intros [= <-]. split; [now left | reflexivity].
    - intros Hl. destruct (IH Hl). split; [now right | assumption]. }
  destruct (property s _) as [a|] eqn:E; [|discriminate].
  intros [= <-]. destruct (H _ E) as [Hin ->]. auto.
Qed.

Lemma parseItems_Forall {A} (s : Schema A) (P : A → Prop) (i : nat)
    (items : list json) (l : list A) :
  (∀ v a, s v = Ok a → P a) →
  parseItems s i items = Ok l → Forall P l.
Proof.
  intros Hs. revert i l. induction items as [|x items IH]; intros i l; cbn [parseItems].
  - intros [= <-]. constructor.
  - destruct (both _ _) as [[a l']|e] eqn:E; intros [=]; subst.
    apply both_Ok in E as [Ha Hl]. apply under_Ok in Ha.
    constructor; eauto.
Qed.

Lemma parseItems_strings (tags : list string) (i : nat) :
  Forall (λ t, t ∈ availableTags) tags →
  parseItems z_tag i (map JString tags) = Ok tags.
Proof.
  intros H. revert i. induction H as [|t tags Ht _ IH]; intros i; [reflexivity|].
  cbn [map parseItems]. rewrite IH.
  assert (z_tag (Some (JString t)) = Ok t) as ->; [|reflexivity].
  unfold z_tag, z_enum.
  assert (H : ∀ l, t ∈ l → property t (map (λ t, (t, t)) l) = Some t).
  { induction l as [|x l IHl]; [inversion 1|]. cbn [map property].
    intros Hin. destruct (String.eqb_spec x t) as [->|Hne]; [reflexivity|].
    apply IHl. apply elem_of_cons in Hin as [->|Hin]; [congruence | assumption]. }
  now rewrite (H _ Ht).
Qed.

Lemma ConfigSrcSchema_fields (v : option json) (c : ConfigSrc) :
  ConfigSrcSchema v = Ok c →
  ∃ o, v = Some (JObject o) ∧
       field "force" (z_default z_coerce_boolean false) o = Ok (force c) ∧
       field "tags" (z_default (z_array z_tag) ["*"]) o = Ok (tags c).
Proof.
  unfold ConfigSrcSchema. destruct v as [[| | | | |o]|]; try discriminate.
  match goal with |- context [match ?b with Ok _ => _ | Err _ => _ end] =>
    destruct b as [[f [t [m [fo tg]]]]|e] eqn:E end; [|discriminate].
  intros [= <-]. cbn [force tags].
  apply both_Ok in E as [_ E]. apply both_Ok in E as [_ E].
  apply both_Ok in E as [_ E]. apply both_Ok in E as [Hf Ht]. eauto.
Qed.

Lemma ConfigSrcSchema_tags (v : option json) (c : ConfigSrc) :
  ConfigSrcSchema v = Ok c → Forall (λ t, t ∈ availableTags) (tags c).
Proof.
  intros H. apply ConfigSrcSchema_fields in H as (o & _ & _ & Ht).
  unfold field in Ht. apply under_Ok in Ht. unfold z_default in Ht.
  destruct (property "tags" o) as [j|].
  - unfold z_array in Ht. destruct j; try discriminate.
    eapply parseItems_Forall; [|exact Ht].
    intros v' a Ha. now apply z_tag_known in Ha.
  - injection Ht as <-. repeat constructor.
Qed.

Lemma parseEntries_keys {B} (value : Schema B) (fields : list (string * json))
    (l : list (string * B)) :
  parseEntries z_tag value fields = Ok l → Forall (λ kv, kv.1 ∈ availableTags) l.
Proof.
  revert l. induction fields as [|[k v] fields IH]; intros l; cbn [parseEntries].
  - intros [= <-]. constructor.
  - destruct (String.eqb k "__proto__"); [apply IH|].
    destruct (both _ _) as [[[a b] l']|e] eqn:E; intros [=]; subst.
    apply both_Ok in E as [E Hl]. apply both_Ok in E as [Ha _].
    apply under_Ok, z_tag_known in Ha as [Hin [= ->]].
    constructor; [exact Hin | now apply IH].
Qed.

Lemma manifest_fields (v : option json) (m : Manifest) :
  DotfileManifestSchema v = Ok m →
  ∃ o, v = Some (JObject o) ∧
       field "priority" (z_optional z_coerce_number) o = Ok (priority m) ∧
       field "builds"
         (z_optional
            (z_partialRecord z_tag
               (z_array (z_string "Invalid input: expected string")))) o
       = Ok (builds m) ∧
       field "configs" (z_optional (z_array ConfigSrcSchema)) o = Ok (configs m).
Proof.
  unfold DotfileManifestSchema. destruct v as [[| | | | |o]|]; try discriminate.
  match goal with |- context [match ?b with Ok _ => _ | Err _ => _ end] =>
    destruct b as [[n [d [p [b' [c cl]]]]]|e] eqn:E end; [|discriminate].
  intros [= <-]. cbn [priority builds configs].
  apply both_Ok in E as [_ E]. apply both_Ok in E as [_ E].
  apply both_Ok in E as [Hp E]. apply both_Ok in E as [Hb E].
  apply both_Ok in E as [Hc _]. eauto 6.
Qed.

Lemma manifest_configs (v : option json) (m : Manifest) (cs : list ConfigSrc) :
  DotfileManifestSchema v = Ok m → configs m = Some cs →
  ∃ o items,
    v = Some (JObject o) ∧ property "configs" o = Some (JArray items) ∧
    parseItems ConfigSrcSchema 0 items = Ok cs.
Proof.
  intros Hm Hcs. apply manifest_fields in Hm as (o & -> & _ & _ & Hc).
  rewrite Hcs in Hc. unfold field in Hc. apply under_Ok in Hc.
  unfold z_optional in Hc.
  destruct (property "configs" o) as [j|] eqn:Hprop; [|discriminate].
  unfold z_array in Hc. destruct j; try (cbn in Hc; discriminate).
  destruct (parseItems ConfigSrcSchema 0 items) as [cs'|e] eqn:E; [|discriminate].
  injection Hc as ->. exists o, items. auto.
Qed.

End SchemaFacts.

(** X17: a validated manifest holds known tags only: every tag of
    every config entry and every key of [builds] is a supported
    distribution or ["*"]. *)
Theorem DotfileManifestSchema_known_tags `{host : Host} (v : option json)
    (manifest : Manifest) :
  DotfileManifestSchema v = Ok manifest →
  (∀ cs c t, configs manifest = Some cs → c ∈ cs → t ∈ tags c → t ∈ availableTags) ∧
  (∀ b key, builds manifest = Some b → is_Some (b !! key) → key ∈ availableTags).
Proof.
  intros Hm. split.
  - intros cs c t Hcs Hc Ht.
    destruct (manifest_configs v manifest cs Hm Hcs) as (o & items & _ & _ & Hitems).
    assert (Hall : Forall (λ c, Forall (λ t, t ∈ availableTags) (tags c)) cs).
    { eapply parseItems_Forall; [|exact Hitems]. apply ConfigSrcSchema_tags. }
    rewrite Forall_forall in Hall. specialize (Hall c Hc).
    rewrite Forall_forall in Hall. auto.
  - intros b key Hb [commands Hkey].
    apply manifest_fields in Hm as (o & _ & _ & Hbuilds & _).
    rewrite Hb in Hbuilds. unfold field in Hbuilds. apply under_Ok in Hbuilds.
    unfold z_optional in Hbuilds.
    destruct (property "builds" o) as [j|]; [|discriminate].
    unfold z_partialRecord in Hbuilds. destruct j; try (cbn in Hbuilds; discriminate).
    destruct (parseEntries _ _ fields) as [l|e] eqn:E; [|discriminate].
    injection Hbuilds as <-.
    apply parseEntries_keys in E. rewrite Forall_forall in E.
    apply elem_of_list_to_map_2 in Hkey. exact (E _ Hkey).
Qed.

(** The theorem on the manifest of [git]. *)
Lemma DotfileManifestSchema_known_tags_witness :
  DotfileManifestSchema (host := treeHost []) (Some gitDocument) = Ok gitManifest ∧
  "*" ∈ availableTags.
Proof.
  split; [reflexivity|].
  destruct (@DotfileManifestSchema_known_tags (treeHost []) (Some gitDocument)
              gitManifest eq_refl) as [Htags _].
  apply (Htags [gitConfig] gitConfig "*" eq_refl); now left.
Defined.

(** X18: what the coercions of the schema make of a value that is set:
    [priority] is [Number(v)], so [null] and [false] give priority 0 and
    [true] gives 1; [force] is [Boolean(v)], so every string but the
    empty one, also ["false"], forces. *)
Theorem DotfileManifestSchema_coercions `{host : Host}
    (fields : list (string * json)) (manifest : Manifest) :
  DotfileManifestSchema (Some (JObject fields)) = Ok manifest →
  (∀ v, property "priority" fields = Some v → priority manifest = toNumber (Some v)) ∧
  (∀ b, property "priority" fields = Some (JBool b) →
        priority manifest = Some (if b then 1%Q else 0%Q)) ∧
  (property "priority" fields = Some JNull → priority manifest = Some 0%Q) ∧
  (∀ items i o v,
     property "configs" fields = Some (JArray items) →
     items !! i = Some (JObject o) → property "force" o = Some v →
     ∃ cs c,
       configs manifest = Some cs ∧ cs !! i = Some c ∧
       force c = toBoolean (Some v) ∧
       (∀ s, v = JString s → s ≠ "" → force c = true)).
Proof.
  intros Hm.
  assert (Hpriority : ∀ v, property "priority" fields = Some v →
                           priority manifest = toNumber (Some v)).
  { intros v Hv. apply manifest_fields in Hm as (o & [= <-] & Hp & _).
    unfold field in Hp. apply under_Ok in Hp. rewrite Hv in Hp.
    unfold z_optional, z_coerce_number in Hp.
    destruct (toNumber (Some v)); [now injection Hp | discriminate]. }
  split; [exact Hpriority|]. split; [|split].
  - intros b Hb. now rewrite (Hpriority _ Hb).
  - intros Hnull. now rewrite (Hpriority _ Hnull).
  - intros items i o v Hitems Hi Hv.
    destruct (configs manifest) as [cs|] eqn:Hcs.
    + destruct (manifest_configs _ manifest cs Hm Hcs)
        as (o' & items' & [= <-] & Hitems' & Hparse).
      rewrite Hitems in Hitems'. injection Hitems' as <-.
      destruct (parseItems_lookup _ _ _ _ _ _ Hparse Hi) as (c & Hc & Hschema).
      exists cs, c. split; [reflexivity|]. split; [exact Hc|].
      apply ConfigSrcSchema_fields in Hschema as (o'' & [= <-] & Hforce & _).
      unfold field in Hforce. apply under_Ok in Hforce. rewrite Hv in Hforce.
      unfold z_default, z_coerce_boolean in Hforce. injection Hforce as <-.
      split; [reflexivity|]. intros s -> Hs. cbn.
      apply negb_true_iff, String.eqb_neq, Hs.
    + apply manifest_fields in Hm as (o' & [= <-] & _ & _ & Hc).
      rewrite Hcs in Hc. unfold field in Hc. apply under_Ok in Hc.
      rewrite Hitems in Hc. unfold z_optional, z_array in Hc.
      destruct (parseItems ConfigSrcSchema 0 items); discriminate.
Qed.

(** The theorem on a manifest with [priority: null] and
    [force: "false"]. *)
Lemma DotfileManifestSchema_coercions_witness :
  ∃ manifest c,
    DotfileManifestSchema (host := treeHost []) (Some coercedDocument) = Ok manifest ∧
    priority manifest = Some 0%Q ∧
    configs manifest = Some [c] ∧ force c = true.
Proof.
  destruct (DotfileManifestSchema (host := treeHost []) (Some coercedDocument))
    as [manifest|issues] eqn:E; [|vm_compute in E; discriminate].
  pose proof (@DotfileManifestSchema_coercions (treeHost []) _ manifest E)
    as (_ & _ & Hnull & Hforce).
  destruct (Hforce _ 0%nat _ (JString "false") eq_refl eq_refl eq_refl)
    as (cs & c & Hcs & Hc & _ & Htrue).
  exists manifest, c. split; [reflexivity|]. split; [now apply Hnull|].
  vm_compute in E. injection E as <-. injection Hcs as <-. injection Hc as <-.
  split; [reflexivity|]. now apply (Htrue "false").
Defined.

Lemma ConfigSrc_value_parses `{host : Host} (c : ConfigSrc) :
  Forall (λ t, t ∈ availableTags) (tags c) →
  ConfigSrcSchema (Some (ConfigSrc_value c)) = Ok c.
Proof.
  destruct c as [f t m fo tg]. intros Htags. cbn [tags] in Htags.
  unfold ConfigSrcSchema, ConfigSrc_value, field. cbn [from to method force tags].
  change (property "from" _) with (Some (JString f)).
  change (property "to" _) with (Some (JString t)).
  change (property "method" _) with (Some (JString (methodName m))).
  change (property "force" _) with (Some (JBool fo)).
  change (property "tags" _) with (Some (JArray (map JString tg))).
  unfold z_default, z_array. rewrite (parseItems_strings tg 0 Htags).
  destruct m; reflexivity.
Qed.

(** X19: a config entry whose tags are known is what the schema makes
    of it, read as a JavaScript object; so validating an entry of a
    validated manifest again, as [installConfigs] does, gives the same
    entry. *)
Theorem ConfigSrcSchema_round_trip `{host : Host} :
  (∀ c, Forall (λ t, t ∈ availableTags) (tags c) →
        ConfigSrcSchema (Some (ConfigSrc_value c)) = Ok c) ∧
  (∀ v manifest cs c,
     DotfileManifestSchema v = Ok manifest → configs manifest = Some cs → c ∈ cs →
     ConfigSrcSchema (Some (ConfigSrc_value c)) = Ok c).
Proof.
  split; [exact ConfigSrc_value_parses|].
  intros v manifest cs c Hm Hcs Hc. apply ConfigSrc_value_parses.
  destruct (manifest_configs v manifest cs Hm Hcs) as (o & items & _ & _ & Hitems).
  assert (Hall : Forall (λ c, Forall (λ t, t ∈ availableTags) (tags c)) cs).
  { eapply parseItems_Forall; [|exact Hitems]. apply ConfigSrcSchema_tags. }
  rewrite Forall_forall in Hall. auto.
Qed.

(** ** What validation refuses *)

Section Refusals.
Context `{host : Host}.

Lemma both_issue_l {A B} (x : result (list Issue) A) (y : result (list Issue) B)
    (e : list Issue) :
  x = Err e → ∃ e', both x y = Err e' ∧ e ⊆ e'.
Proof.
  intros ->. destruct y as [b|e2]; cbn.
  - eexists. split; [reflexivity|]. set_solver.
  - eexists. split; [reflexivity|]. set_solver.
Qed.

Lemma both_issue_r {A B} (x : result (list Issue) A) (y : result (list Issue) B)
    (e : list Issue) :
  y = Err e → ∃ e', both x y = Err e' ∧ e ⊆ e'.
Proof.
  intros ->. destruct x as [a|e1]; cbn.
  - eexists. split; [reflexivity|]. set_solver.
  - eexists. split; [reflexivity|]. set_solver.
Qed.

Lemma under_issue {A} (k : PathKey) (r : result (list Issue) A) (e : list Issue)
    (i : Issue) :
  r = Err e → i ∈ e →
  ∃ e', under k r = Err e' ∧
        {| issue_path := k :: issue_path i; issue_message := issue_message i |} ∈ e'.
Proof.
  intros -> Hi. eexists. split; [reflexivity|].
  apply list_elem_of_In, in_map_iff. exists i. split; [reflexivity|].
  now apply list_elem_of_In.
Qed.

Lemma parseItems_issue {A} (s : Schema A) (start : nat) (items : list json)
    (i : nat) (x : json) (e : list Issue) (bad : Issue) :
  items !! i = Some x → s (Some x) = Err e → bad ∈ e →
  ∃ e', parseItems s start items = Err e' ∧
        {| issue_path := Index (start + i) :: issue_path bad;
           issue_message := issue_message bad |} ∈ e'.
Proof.
  revert start i. induction items as [|y items IH]; intros start i; [discriminate|].
  cbn [parseItems]. destruct i as [|i]; cbn [lookup list_lookup].
  - intros [= ->] He Hbad.
    destruct (under_issue (Index start) _ e bad He Hbad) as (e1 & Hunder & Hin).
    destruct (both_issue_l _ (parseItems s (S start) items) e1 Hunder)
      as (e' & -> & Hsub).
    exists e'. split; [reflexivity|]. rewrite Nat.add_0_r. auto.
  - intros Hx He Hbad.
    destruct (IH (S start) i Hx He Hbad) as (e1 & Hrest & Hin).
    destruct (both_issue_r (under (Index start) (s (Some y))) _ e1 Hrest)
      as (e' & -> & Hsub).
    exists e'. split; [reflexivity|].
    replace (start + S i)%nat with (S start + i)%nat by lia. auto.
Qed.

End Refusals.

(** X20: what validation refuses, and where: a manifest whose [name] is
    not a string, with the issue at [name], and a config entry whose
    [method] is neither ["copy"] nor ["symlink"], with the issue at
    [configs[i].method]; whatever else the document holds. *)
Theorem DotfileManifestSchema_refuses `{host : Host} (fields : list (string * json)) :
  ((∀ s, property "name" fields ≠ Some (JString s)) →
   ∃ issues,
     DotfileManifestSchema (Some (JObject fields)) = Err issues ∧
     {| issue_path := [Key "name"];
        issue_message := "Component 'name' is required." |} ∈ issues) ∧
  (∀ items i o,
     property "configs" fields = Some (JArray items) →
     items !! i = Some (JObject o) →
     property "method" o ≠ Some (JString "copy") →
     property "method" o ≠ Some (JString "symlink") →
     ∃ issues,
       DotfileManifestSchema (Some (JObject fields)) = Err issues ∧
       {| issue_path := [Key "configs"; Index i; Key "method"];
          issue_message := "'method' must be either 'copy' or 'symlink'." |}
       ∈ issues).
Proof.
  split.
  - intros Hname. unfold DotfileManifestSchema.
    assert (Hfield : field "name" (z_string "Component 'name' is required.") fields
                     = Err [{| issue_path := [Key "name"];
                               issue_message := "Component 'name' is required." |}]).
    { unfold field, z_string.
      destruct (property "name" fields) as [[| | |s| |]|]; try reflexivity.
      now destruct (Hname s). }
    match goal with |- context [both ?x ?y] =>
      destruct (both_issue_l x y _ Hfield) as (e' & -> & Hsub) end.
    exists e'. split; [reflexivity|]. apply Hsub. now left.
  - intros items i o Hitems Hi Hcopy Hlink. unfold DotfileManifestSchema.
    assert (Hmethod : ∃ e,
      ConfigSrcSchema (Some (JObject o)) = Err e ∧
      {| issue_path := [Key "method"];
         issue_message := "'method' must be either 'copy' or 'symlink'." |} ∈ e).
    { unfold ConfigSrcSchema.
      assert (Hfield : field "method"
                         (z_enum [("copy", copy_); ("symlink", symlink_)]
                            "'method' must be either 'copy' or 'symlink'.") o
                       = Err [{| issue_path := [Key "method"];
                                 issue_message :=
                                   "'method' must be either 'copy' or 'symlink'." |}]).
      { unfold field, z_enum.
        destruct (property "method" o) as [[| | |s| |]|]; try reflexivity.
        cbn [property].
        destruct (String.eqb_spec "copy" s) as [<-|_]; [congruence|].
        destruct (String.eqb_spec "symlink" s) as [<-|_]; [congruence|].
        reflexivity. }
      match goal with |- context [both ?a (both ?b (both ?c ?d))] =>
        destruct (both_issue_l c d _ Hfield) as (e1 & H1 & Hsub1);
        destruct (both_issue_r b (both c d) _ H1) as (e2 & H2 & Hsub2);
        destruct (both_issue_r a (both b (both c d)) _ H2) as (e3 & -> & Hsub3)
      end.
      exists e3. split; [reflexivity|]. apply Hsub3, Hsub2, Hsub1. now left. }
    destruct Hmethod as (e & Hschema & Hbad).
    destruct (parseItems_issue ConfigSrcSchema 0 items i _ e _ Hi Hschema Hbad)
      as (e1 & Hparse & Hin1).
    assert (Hconfigs : ∃ e2,
      field "configs" (z_optional (z_array ConfigSrcSchema)) fields = Err e2 ∧
      {| issue_path := [Key "configs"; Index i; Key "method"];
         issue_message := "'method' must be either 'copy' or 'symlink'." |} ∈ e2).
    { unfold field. rewrite Hitems. unfold z_optional, z_array. rewrite Hparse.
      eexists. split; [reflexivity|].
      apply list_elem_of_In, in_map_iff. eexists. split; [|apply list_elem_of_In, Hin1].
      reflexivity. }
    destruct Hconfigs as (e2 & Hfield & Hin2).
    match goal with
    | |- context [both ?a (both ?b (both ?c (both ?d (both ?x ?y))))] =>
        destruct (both_issue_l x y _ Hfield) as (e3 & H3 & Hsub3);
        destruct (both_issue_r d (both x y) _ H3) as (e4 & H4 & Hsub4);
        destruct (both_issue_r c (both d (both x y)) _ H4) as (e5 & H5 & Hsub5);
        destruct (both_issue_r b (both c (both d (both x y))) _ H5)
          as (e6 & H6 & Hsub6);
        destruct (both_issue_r a (both b (both c (both d (both x y)))) _ H6)
          as (e7 & -> & Hsub7)
    end.
    exists e7. split; [reflexivity|]. now apply Hsub7, Hsub6, Hsub5, Hsub4, Hsub3.
Qed.

(** ** The selection, further *)

Lemma filter_sublist {X} (f : X → bool) (l : list X) : sublist (List.filter f l) l.
Proof.
  induction l as [|x l IH]; cbn [List.filter]; [constructor|].
  destruct (f x); now constructor.
Qed.

(** X21: who is selected.  A component is in the final list exactly when
    it is in the catalog, has a config with one of the tags when tags
    are given (an empty list of tags selects all), and is not excluded
    by name.  The order of the catalog is kept, and the machine id plays
    no part. *)
Theorem finalList_selection {Arr} (tags exclude : option (list string))
    (machineId : string) (all : list (DotfileManifest Arr)) :
  (∀ x, x ∈ finalList tags exclude machineId all ↔
        x ∈ all ∧
        (∀ t, tags = Some t → t ≠ [] → hasTaggedConfig t x = true) ∧
        (∀ e, exclude = Some e → name x ∉ e)) ∧
  sublist (finalList tags exclude machineId all) all ∧
  (∀ machineId', finalList tags exclude machineId' all
                 = finalList tags exclude machineId all).
Proof.
  assert (Htags : ∀ id x, x ∈ filteredByTags tags id all ↔
            x ∈ all ∧ (∀ t, tags = Some t → t ≠ [] → hasTaggedConfig t x = true)).
  { intros id x. unfold filteredByTags.
    destruct tags as [[|t ts]|]; cbn [hasLength autoTags].
    - split; [intros H; split; [exact H|]; intros t [= <-]; congruence | tauto].
    - rewrite list_elem_of_In, filter_In, <- list_elem_of_In. split.
      + intros [H Ht]. split; [exact H|]. now intros t' [= <-].
      + intros [H Ht]. split; [exact H|]. now apply Ht.
    - split; [intros H; split; [exact H|]; discriminate | tauto]. }
  split; [|split].
  - intros x. unfold finalList.
    destruct exclude as [[|e es]|]; cbn [hasLength default from_option id].
    + rewrite Htags. split.
      * intros [H Ht]. repeat split; auto. intros e [= <-]. inversion 1.
      * tauto.
    + rewrite list_elem_of_In, filter_In, <- list_elem_of_In, Htags, negb_true_iff.
      split.
      * intros [[H Ht] Hex]. repeat split; auto. intros e' [= <-] Hin.
        apply includes_elem_of in Hin. congruence.
      * intros (H & Ht & Hex). repeat split; auto.
        destruct (Str.includes (name x) (e :: es)) eqn:E; [|reflexivity].
        apply includes_elem_of in E. now destruct (Hex _ eq_refl).
    + rewrite Htags. split.
      * intros [H Ht]. repeat split; auto. discriminate.
      * tauto.
  - unfold finalList, filteredByTags.
    destruct (hasLength exclude), (hasLength tags);
      [ etrans; apply filter_sublist | apply filter_sublist
      | apply filter_sublist | reflexivity ].
  - intros id'. unfold finalList, filteredByTags.
    destruct tags as [[|t ts]|]; reflexivity.
Qed.

(** ** The order of the catalog does not depend on the order of the listing *)

Lemma names_inj {Arr} (l : list (DotfileManifest Arr)) (x y : DotfileManifest Arr) :
  NoDup (name <$> l) → x ∈ l → y ∈ l → name x = name y → x = y.
Proof.
  induction l as [|z l IH]; [inversion 2|].
  rewrite fmap_cons, NoDup_cons. intros [Hz Hl] Hx Hy Hname.
  apply elem_of_cons in Hx as [->|Hx], Hy as [->|Hy]; auto.
  - destruct Hz. rewrite Hname. now apply list_elem_of_fmap_2.
  - destruct Hz. rewrite <- Hname. now apply list_elem_of_fmap_2.
Qed.

Section Canonical.
Context `{host : Host} {Arr : Type}.
Hypothesis collation : consistentCollation.

Lemma precedesByPriority_antisym (a b : DotfileManifest Arr) :
  precedesByPriority a b → precedesByPriority b a →
  localeCompare (name a) (name b) = 0%Z.
Proof.
  unfold precedesByPriority.
  destruct (priority a) as [x|], (priority b) as [y|]; cbn;
    intros [H1|[H1 N1]] [H2|[H2 N2]]; try tauto; try lra;
    now apply (collates_antisym collation).
Qed.

End Canonical.

(** X22: the sorted catalog does not depend on the order the components
    were found in, when the collation compares consistently and takes
    no two different components of the catalog for equal in name: as
    with components of pairwise different names that the collation
    tells apart.  Of the collation nothing is asked about other
    names. *)
Theorem sortManifests_canonical `{host : Host} {Arr : Type} (sortBy : SortBy)
    (manifests manifests' : list (DotfileManifest Arr)) :
  consistentCollation →
  (∀ a b, a ∈ manifests → b ∈ manifests →
     localeCompare (name a) (name b) = 0%Z → a = b) →
  manifests ≡ₚ manifests' →
  sortManifests sortBy manifests = sortManifests sortBy manifests'.
Proof.
  intros collation Hapart Hperm.
  assert (Hsorted : ∀ l : list (DotfileManifest Arr), sortManifests sortBy l ≡ₚ l).
  { intros l. destruct sortBy; apply Array_sort_Permutation. }
  assert (Hin : ∀ x, x ∈ sortManifests sortBy manifests → x ∈ manifests)
    by (intros x; now rewrite Hsorted).
  assert (Hin' : ∀ x, x ∈ sortManifests sortBy manifests' → x ∈ manifests)
    by (intros x; now rewrite Hsorted, Hperm).
  destruct sortBy; cbn [sortManifests] in *.
  - apply (StronglySorted_unique_strong (notAfter comparePriority)).
    + intros x y Hx Hy Hxy Hyx.
      apply Hapart; auto.
      apply comparePriority_notAfter in Hxy, Hyx.
      now apply (precedesByPriority_antisym collation).
    + apply Array_sort_StronglySorted;
        eauto using comparePriority_total, comparePriority_trans.
    + apply Array_sort_StronglySorted;
        eauto using comparePriority_total, comparePriority_trans.
    + now rewrite !Array_sort_Permutation.
  - apply (StronglySorted_unique_strong (notAfter compareName)).
    + intros x y Hx Hy Hxy Hyx.
      apply Hapart; auto.
      apply compareName_notAfter in Hxy, Hyx.
      now apply (collates_antisym collation).
    + apply Array_sort_StronglySorted;
        eauto using compareName_total, compareName_trans.
    + apply Array_sort_StronglySorted;
        eauto using compareName_total, compareName_trans.
    + now rewrite !Array_sort_Permutation.
Qed.

(** The theorem on the catalog of the examples and its reverse, on the
    host whose collation takes the two spellings of [café] for equal:
    the names of the catalog are pairwise different and the collation
    tells them apart. *)
Lemma sortManifests_canonical_witness :
  NoDup (name <$> exampleCatalog) ∧
  (∀ a b, a ∈ exampleCatalog → b ∈ exampleCatalog →
     @localeCompare (treeHostWith canonicalCollation []) (name a) (name b) = 0%Z →
     name a = name b) ∧
  @sortManifests (treeHostWith canonicalCollation []) _ byPriority exampleCatalog
  = @sortManifests (treeHostWith canonicalCollation []) _ byPriority
      (rev exampleCatalog).
Proof.
  assert (Hnames : NoDup (name <$> exampleCatalog)).
  { cbn. repeat constructor; rewrite ?elem_of_cons, ?elem_of_nil;
      intuition discriminate. }
  assert (Hapart : ∀ a b, a ∈ exampleCatalog → b ∈ exampleCatalog →
            @localeCompare (treeHostWith canonicalCollation []) (name a) (name b) = 0%Z →
            name a = name b).
  { intros a b Ha Hb.
    unfold exampleCatalog in Ha, Hb.
    rewrite !elem_of_cons, elem_of_nil in Ha, Hb.
    destruct Ha as [->|[->|[->|[->|[->|[]]]]]];
      destruct Hb as [->|[->|[->|[->|[->|[]]]]]];
      first [reflexivity | intros Hz; vm_compute in Hz; discriminate Hz]. }
  split; [exact Hnames|]. split; [exact Hapart|].
  apply (@sortManifests_canonical (treeHostWith canonicalCollation []) _ byPriority).
  - apply canonicalCollation_consistent.
  - intros a b Ha Hb Hz. apply (names_inj exampleCatalog); auto.
  - apply Permutation_rev.
Defined.

(** * Properties of the actions *)

Section ProcessFacts.
Context `{host : Host} `{shell : !Shell host}.

Lemma printsOnly_refl (s : Session) : printsOnly s s.
Proof.
  unfold printsOnly. repeat split; try reflexivity.
  - exists []. now rewrite app_nil_r.
  - exists []. split; [now rewrite app_nil_r | constructor].
Qed.

Lemma printsOnly_trans (s1 s2 s3 : Session) :
  printsOnly s1 s2 → printsOnly s2 s3 → printsOnly s1 s3.
Proof.
  unfold printsOnly, runsNothing.
  intros (Hf & Hh & Hc & Hp & Hcalls & [l1 Hl1] & (p1 & Hp1 & Hall1))
         (Hf' & Hh' & Hc' & Hp' & Hcalls' & [l2 Hl2] & (p2 & Hp2 & Hall2)).
  repeat split; try congruence.
  - exists (l1 ++ l2). rewrite Hl2, Hl1. now rewrite app_assoc.
  - exists (p1 ++ p2). split; [rewrite Hp2, Hp1; now rewrite app_assoc|].
    now apply Forall_app.
Qed.

Lemma printsOnly_log (lvl : Level) (msg : list string) (s : Session) :
  liftM (log lvl msg) s
  = (Returned tt,
     {| world := addLine {| level := lvl; text := String.concat " " msg |} (world s);
        events := events s |}) ∧
  printsOnly s (liftM (log lvl msg) s).2.
Proof.
  split; [reflexivity|]. unfold printsOnly. cbn. repeat split; eauto.
  exists []. split; [now rewrite app_nil_r | constructor].
Qed.

Lemma printsOnly_console_log (text : string) (s : Session) :
  printsOnly s (console_log text s).2.
Proof.
  unfold printsOnly, console_log. cbn. repeat split.
  - exists []. now rewrite app_nil_r.
  - eexists. split; [reflexivity|]. repeat constructor.
Qed.

(** [runShellCommand], case by case. *)
Lemma runShellCommand_dry (cmd : string) (s : Session) :
  (runShellCommand cmd true s).1 = Returned tt ∧
  printsOnly s (runShellCommand cmd true s).2.
Proof.
  unfold runShellCommand, log_dryRun, mbind, Proc_bind, bindP. cbn [console_log fst snd].
  split; [reflexivity|].
  eapply printsOnly_trans; apply printsOnly_console_log.
Qed.

Lemma runShellCommand_run (cmd : string) (s : Session) :
  let done := sh_run cmd (files (world s)) in
  let started :=
    addLine {| level := LAction; text := "Executing command: " +:+ cmd |} (world s) in
  runShellCommand cmd false s =
  match done.1 with
  | Ok _ =>
      (Returned tt,
       {| world := setFiles done.2 started; events := events s ++ [Executed cmd] |})
  | Err e =>
      (Thrown e,
       {| world := addLine {| level := LError;
                              text := "Command failed: " +:+ cmd +:+ " " +:+ message e |}
                     (setFiles done.2 started);
          events := events s ++ [Executed cmd] |})
  end.
Proof.
  cbn zeta. unfold runShellCommand, mbind, Proc_bind, bindP, tryP, dax, liftM, log.
  cbn [world events fst snd files addLine].
  destruct (sh_run cmd (files (world s))) as [[[]|e] fs]; reflexivity.
Qed.

(** A loop whose steps return or throw does not end the process. *)
Lemma forEachP_never_exits {A} (xs : list A) (body : A → Proc unit) (s : Session) :
  (∀ x s0 code, (body x s0).1 ≠ Exited code) →
  ∀ code, (forEachP xs body s).1 ≠ Exited code.
Proof.
  intros Hbody. revert s. induction xs as [|x xs IH]; intros s code; [discriminate|].
  cbn [forEachP]. unfold mbind, Proc_bind, bindP.
  pose proof (Hbody x s) as Hx.
  destruct (body x s) as [[[]|e|c] s1]; cbn [fst] in *; [apply IH | discriminate|].
  now destruct (Hx c).
Qed.

(** A loop of quiet steps is quiet. *)
Lemma forEachP_printsOnly {A} (xs : list A) (body : A → Proc unit) (s : Session) :
  (∀ x s0, printsOnly s0 (body x s0).2) →
  printsOnly s (forEachP xs body s).2.
Proof.
  intros Hbody. revert s. induction xs as [|x xs IH]; intros s.
  - apply printsOnly_refl.
  - cbn [forEachP]. unfold mbind, Proc_bind, bindP.
    pose proof (Hbody x s) as Hx.
    destruct (body x s) as [[[]|e|c] s1]; cbn [snd] in *; [|exact Hx..].
    eapply printsOnly_trans; [exact Hx | apply IH].
Qed.

Lemma runShellCommand_never_exits (cmd : string) (dryRun : bool) (s : Session)
    (code : Z) :
  (runShellCommand cmd dryRun s).1 ≠ Exited code.
Proof.
  destruct dryRun.
  - now rewrite (proj1 (runShellCommand_dry cmd s)).
  - rewrite runShellCommand_run. cbn zeta.
    destruct (sh_run cmd (files (world s))).1; discriminate.
Qed.

End ProcessFacts.

(** ** installConfigs *)

Section InstallConfigs.
Context `{host : Host}.

Lemma tryP_log_returns (m : Proc unit) (lvl : Level) (msg : exn → list string)
    (s : Session) :
  (∀ code, (m s).1 ≠ Exited code) →
  (tryP m (λ err, liftM (log lvl (msg err))) s).1 = Returned tt.
Proof.
  intros Hm. unfold tryP.
  destruct (m s) as [[[]|e|code] s1]; cbn [fst] in *; [reflexivity..|].
  now destruct (Hm code).
Qed.

Lemma tryP_log_printsOnly (m : Proc unit) (lvl : Level) (msg : exn → list string)
    (s : Session) :
  printsOnly s (m s).2 →
  printsOnly s (tryP m (λ err, liftM (log lvl (msg err))) s).2.
Proof.
  intros Hm. unfold tryP.
  destruct (m s) as [[[]|e|code] s1]; cbn [snd] in *; [exact Hm| |exact Hm].
  eapply printsOnly_trans; [exact Hm | apply printsOnly_log].
Qed.

Lemma liftM_never_exits {A} (m : M A) (s : Session) (code : Z) :
  (liftM m s).1 ≠ Exited code.
Proof. unfold liftM. destruct (m (world s)) as [[a|e] w]; discriminate. Qed.

Lemma parse_run {A} (schema : Schema A) (value : json) (s : Session) :
  parse schema value s
  = (match schema (Some value) with
     | Ok a => Returned a
     | Err issues => Thrown (ZodError issues)
     end, s).
Proof. unfold parse. now destruct (schema (Some value)). Qed.

End InstallConfigs.

Lemma installConfigs_returns `{host : Host} {Arr} (id_ : string)
    (entry : DotfileManifest Arr) (f : Flags) (s : Session) :
  (installConfigs id_ entry f s).1 = Returned tt.
Proof.
  unfold installConfigs.
  apply tryP_log_returns. intros code.
  destruct (flag_skipFiles f); [apply liftM_never_exits|].
  destruct (hasLength (configs entry)); cbn [negb]; [|apply liftM_never_exits].
  unfold mbind at 1 2. unfold Proc_bind, bindP.
  rewrite (proj1 (printsOnly_log _ _ _)). cbn [fst snd].
  match goal with |- context [forEachP ?xs ?body ?s0] =>
    pose proof (forEachP_never_exits xs body s0) as Hloop;
    destruct (forEachP xs body s0) as [[[]|e|c] s1] end; cbn [fst] in *;
    [apply liftM_never_exits | discriminate |].
  apply Hloop. clear. intros c s0 code.
  unfold mbind, Proc_bind, bindP. rewrite parse_run.
  destruct (ConfigSrcSchema _) as [config|issues]; [|discriminate].
  destruct (hasTagged _ config); cbn [negb fst]; [|discriminate].
  cbn [console_log fst snd].
  destruct (flag_source f) as [source|]; [|discriminate].
  destruct (flag_dryRun f || String.eqb source ""); [discriminate|].
  apply liftM_never_exits.
Qed.

Lemma installConfigs_quiet `{host : Host} {Arr} (id_ : string)
    (entry : DotfileManifest Arr) (f : Flags) (s : Session) :
  flag_skipFiles f = true ∨ flag_dryRun f = true ∨
  flag_source f = None ∨ flag_source f = Some "" →
  printsOnly s (installConfigs id_ entry f s).2.
Proof.
  unfold installConfigs.
  intros Hquiet. apply tryP_log_printsOnly.
  destruct (flag_skipFiles f) eqn:Hskip; [apply printsOnly_log|].
  destruct (hasLength (configs entry)); cbn [negb]; [|apply printsOnly_log].
  unfold mbind at 1 2. unfold Proc_bind, bindP.
  rewrite (proj1 (printsOnly_log _ _ _)). cbn [fst snd].
  match goal with |- context [forEachP ?xs ?body ?s0] =>
    assert (Hloop : printsOnly s0 (forEachP xs body s0).2);
    [|destruct (forEachP xs body s0) as [[[]|e|c] s1]] end; cbn [snd] in *.
  + apply forEachP_printsOnly. intros c s0.
    unfold mbind, Proc_bind, bindP. rewrite parse_run.
    destruct (ConfigSrcSchema _) as [config|issues]; [|apply printsOnly_refl].
    destruct (hasTagged _ config); cbn [negb snd]; [|apply printsOnly_refl].
    cbn [console_log fst snd].
    assert (Hprinted : ∀ t, printsOnly s0 (console_log t s0).2)
      by (intros t; apply printsOnly_console_log).
    destruct (flag_source f) as [source|] eqn:Hsource; [|apply Hprinted].
    destruct (flag_dryRun f) eqn:Hdry; cbn [orb]; [apply Hprinted|].
    destruct (String.eqb_spec source "") as [->|Hne]; [apply Hprinted|].
    exfalso. destruct Hquiet as [H|[H|[H|H]]]; congruence.
  + eapply printsOnly_trans; [|eapply printsOnly_trans; [exact Hloop|]];
      apply printsOnly_log.
  + eapply printsOnly_trans; [apply printsOnly_log | exact Hloop].
  + eapply printsOnly_trans; [apply printsOnly_log | exact Hloop].
Qed.

(** X23: [installConfigs] always returns: what goes wrong with an entry
    is printed, not thrown, and the process does not exit.  With
    [--skip-files], with [--dry-run] and without a source it only
    prints: the file system, the environment and the heap stay as they
    are and nothing is asked of the file system. *)
Theorem installConfigs_safe `{host : Host} {Arr} (id : string)
    (entry : DotfileManifest Arr) (f : Flags) (s : Session) :
  let run := installConfigs id entry f s in
  run.1 = Returned tt ∧
  (flag_skipFiles f = true ∨ flag_dryRun f = true ∨
   flag_source f = None ∨ flag_source f = Some "" →
   printsOnly s run.2).
Proof.
  cbn zeta. split.
  - apply installConfigs_returns.
  - apply installConfigs_quiet.
Qed.

(** X24: entries none of whose tags is selected are passed over without
    a word: when no entry of a component has a selected tag, nothing is
    asked of the file system and nothing is printed for an entry, and
    still the component is reported as installed.  This is the case of
    every component when the list of tags is given and empty. *)
Theorem installConfigs_untagged `{host : Host} {Arr} (distro : string)
    (entry : DotfileManifest Arr) (f : Flags) (s : Session) (cs : list ConfigSrc) :
  flag_skipFiles f = false →
  configs entry = Some cs → cs ≠ [] →
  Forall (λ c, Forall (λ t, t ∈ availableTags) (tags c)) cs →
  (flag_tags f = Some [] ∨
   Forall (λ c, hasTagged (autoTags (flag_tags f) distro) c = false) cs) →
  installConfigs distro entry f s
  = (Returned tt,
     {| world :=
          addLine {| level := LSuccess;
                     text := "✔ Config: '" +:+ name entry +:+ "' installed!" |}
            (addLine {| level := LInfo; text := "Configurations:" |} (world s));
        events := events s |}).
Proof.
  intros Hskip Hcs Hne Hknown Huntagged.
  assert (Hnone : Forall (λ c, hasTagged (autoTags (flag_tags f) distro) c = false) cs).
  { destruct Huntagged as [Hempty|H]; [|exact H].
    rewrite Hempty. apply Forall_forall. intros c _. unfold hasTagged. cbn [autoTags].
    induction (tags c) as [|t ts IH]; [reflexivity | exact IH]. }
  unfold installConfigs, tryP. rewrite Hskip, Hcs.
  replace (negb (hasLength (Some cs))) with false
    by (destruct cs; [congruence | reflexivity]).
  cbn [from_option id].
  match goal with |- context [forEachP cs ?body] =>
    assert (Hloop : ∀ s0, forEachP cs body s0 = (Returned tt, s0)) end.
  { clear Hne Hcs Huntagged.
    induction cs as [|c cs IH]; intros s0; [reflexivity|].
    apply Forall_cons in Hknown as [Hc Hknown], Hnone as [Hn Hnone].
    cbn [forEachP]. unfold mbind, Proc_bind, bindP. rewrite parse_run.
    rewrite (ConfigSrc_value_parses c Hc), Hn. cbn [negb].
    unfold retP at 1. now apply IH. }
  unfold mbind at 1 2. unfold Proc_bind, bindP.
  rewrite (proj1 (printsOnly_log _ _ _)). cbn [fst snd].
  rewrite Hloop. reflexivity.
Qed.

(** The theorem on the component [git], installed with an empty list of
    tags: its entry is not put in place, and it is reported as
    installed. *)
Lemma installConfigs_untagged_witness :
  let f := {| flag_tags := Some []; flag_exclude := None; flag_sort := byPriority;
              flag_dryRun := false; flag_force := false; flag_skipBuilds := false;
              flag_skipFiles := false; flag_source := Some "/dots" |} in
  let s := @session (treeHost exampleDocuments) exampleWorld in
  let run := @installConfigs (treeHost exampleDocuments) _ "fedora" gitManifest f s in
  run.1 = Returned tt ∧
  calls (world run.2) = [] ∧
  console (world run.2)
  = [{| level := LInfo; text := "Configurations:" |};
     {| level := LSuccess; text := "✔ Config: 'git' installed!" |}].
Proof.
  intros f s run. unfold run.
  rewrite (@installConfigs_untagged (treeHost exampleDocuments) _ "fedora" gitManifest
             f s [gitConfig]).
  - repeat split.
  - reflexivity.
  - reflexivity.
  - discriminate.
  - repeat constructor.
  - now left.
Defined.

(** ** installBuilds *)

Section InstallBuilds.
Context `{host : Host} `{shell : !Shell host}.

Lemma chmodsOnly_refl (w : World) : chmodsOnly w w.
Proof.
  unfold chmodsOnly. split; [reflexivity|]. split; [reflexivity|].
  exists []. split; [now rewrite app_nil_r | reflexivity].
Qed.

Lemma chmodsOnly_trans (w1 w2 w3 : World) :
  chmodsOnly w1 w2 → chmodsOnly w2 w3 → chmodsOnly w1 w3.
Proof.
  unfold chmodsOnly.
  intros (Hh & Hc & l1 & Hl1 & Hfs1) (Hh' & Hc' & l2 & Hl2 & Hfs2).
  split; [congruence|]. split; [congruence|].
  exists (l1 ++ l2). split.
  - rewrite Hl2, Hl1, map_app. now rewrite app_assoc.
  - now rewrite foldl_app, <- Hfs1.
Qed.

Lemma chmodsOnly_addLine (l : LogLine) (w w' : World) :
  chmodsOnly w w' → chmodsOnly w (addLine l w').
Proof. exact id. Qed.

Lemma chmodsOnly_chmod (path : string) (w w' : World) :
  chmodsOnly w w' →
  chmodsOnly w (setFiles (fs_chmod path 493 (files w')).2
                  (addCall (CallChmod path 493) w')).
Proof.
  unfold chmodsOnly. cbn [HOME cwd calls files setFiles addCall].
  intros (Hh & Hc & l & Hl & Hfs). split; [exact Hh|]. split; [exact Hc|].
  exists (l ++ [path]). split.
  - rewrite Hl, map_app. now rewrite app_assoc.
  - rewrite foldl_app. cbn [foldl]. now rewrite Hfs.
Qed.

Lemma ensureExecutable_chmods (path : string) (w : World) :
  chmodsOnly w (ensureExecutable path w).2.
Proof.
  assert (Hcaught : ∀ e w', chmodsOnly w w' → chmodsOnly w (caught path e w').2).
  { intros e w' Hw'. unfold caught. destruct (errorClass e); exact Hw'. }
  rewrite ensureExecutable_run.
  destruct (fs_lstat (files w) path) as [stat|e]; [|apply Hcaught, chmodsOnly_refl].
  destruct (isFile stat); cbn [negb snd]; [|apply chmodsOnly_addLine, chmodsOnly_refl].
  destruct (mode stat) as [m|]; cbn [snd]; [|apply chmodsOnly_addLine, chmodsOnly_refl].
  destruct (isExecutable m); cbn [snd]; [apply chmodsOnly_refl|].
  cbn zeta.
  pose proof (chmodsOnly_chmod path w
                (addLine {| level := LInfo;
                            text := "Making file executable: " +:+ path |} w)
                (chmodsOnly_refl w)) as Hchanged.
  cbn [files addLine] in Hchanged.
  destruct (fs_chmod path 493 (files w)) as [[[]|e] fs]; cbn [fst snd] in *;
    [|now apply Hcaught].
  destruct (fs_lstat fs path) as [newStat|e]; [exact Hchanged | now apply Hcaught].
Qed.

(** Whatever [getComponentBuilds] returns or throws, it asked nothing
    of the file system but to make scripts executable. *)
Lemma getComponentBuilds_chmods (machineId : string) (man : DotfileManifest loc)
    (source : option string) (w : World) :
  chmodsOnly w (getComponentBuilds machineId man source w).2.
Proof.
  assert (Hinit : ∃ commands h,
            initialCommands machineId man w = (Ok commands, setHeap h w)).
  { unfold initialCommands.
    destruct (builds man ≫= (.!! machineId)) as [l|];
      [exists l, (heap w); now destruct w|].
    destruct (builds man ≫= (.!! "*")) as [l|];
      [exists l, (heap w); now destruct w|].
    eexists _, _. reflexivity. }
  destruct Hinit as (commands & h & Hinit).
  assert (Hheap : chmodsOnly w (setHeap h w)) by exact (chmodsOnly_refl w).
  unfold getComponentBuilds, mbind, M_bind, bind. rewrite Hinit.
  rewrite resolveHomePath_run.
  destruct (resolveHomePath _ (setHeap h w)).1 as [fullPath|e]; [|exact Hheap].
  unfold exists_, Deno_readDir, liftResult. cbn [fst snd files setHeap].
  destruct (fs_exists (files w) fullPath) as [[|]|e]; cbn [negb files setHeap];
    [|exact Hheap..].
  destruct (fs_readDir (files w) fullPath) as [entries|e]; [|exact Hheap].
  match goal with |- context [forEach entries ?body ?w0] =>
    assert (Hloop : ∀ w1, chmodsOnly w w1 → chmodsOnly w (forEach entries body w1).2) end.
  { clear. induction entries as [|entry entries IH]; intros w1 Hw1; [exact Hw1|].
    cbn [forEach]. unfold mbind, M_bind, bind.
    destruct (negb (entry_isFile entry) || _); [now apply IH|].
    pose proof (ensureExecutable_chmods (fullPath +:+ "/" +:+ entry_name entry) w1)
      as Hexe.
    destruct (ensureExecutable _ w1) as [[b|e] w2]; cbn [snd] in *.
    - unfold push at 1. apply IH. eapply chmodsOnly_trans; [exact Hw1 | exact Hexe].
    - eapply chmodsOnly_trans; [exact Hw1 | exact Hexe]. }
  match goal with |- context [forEach entries ?body ?w0] =>
    pose proof (Hloop w0 Hheap) as Hend;
    destruct (forEach entries body w0) as [[[]|e] w1] end; exact Hend.
Qed.

(** What holds step by step holds of [installBuilds]. *)
Section Steps.
Variable R : Session → Session → Prop.
Hypothesis R_refl : ∀ s, R s s.
Hypothesis R_trans : ∀ s1 s2 s3, R s1 s2 → R s2 s3 → R s1 s3.

Lemma forEachP_steps {A} (xs : list A) (body : A → Proc unit) (s : Session) :
  (∀ x s0, R s0 (body x s0).2) → R s (forEachP xs body s).2.
Proof.
  intros Hbody. revert s. induction xs as [|x xs IH]; intros s; [apply R_refl|].
  cbn [forEachP]. unfold mbind, Proc_bind, bindP.
  pose proof (Hbody x s) as Hx.
  destruct (body x s) as [[[]|e|c] s1]; cbn [snd] in *; [|exact Hx..].
  eapply R_trans; [exact Hx | apply IH].
Qed.

Lemma installBuilds_steps (id_ : string) (entry : DotfileManifest loc) (f : Flags)
    (s : Session) :
  (∀ lvl msg s0, R s0 (liftM (log lvl msg) s0).2) →
  (∀ s0, R s0 (liftM (getComponentBuilds id_ entry (flag_source f)) s0).2) →
  (∀ cmd s0, R s0 (runShellCommand cmd (flag_dryRun f) s0).2) →
  R s (installBuilds id_ entry f s).2.
Proof.
  intros Hlog Hbuilds Hrun. unfold installBuilds.
  destruct (flag_skipBuilds f); [apply Hlog|].
  unfold mbind at 1. unfold Proc_bind, bindP at 1.
  pose proof (Hlog LTitle ["Installing component " +:+ name entry +:+ "..."] s) as Htitle.
  destruct (liftM (log LTitle _) s) as [[[]|e|c] s1] eqn:E; cbn [snd] in Htitle;
    [|discriminate E..].
  eapply R_trans; [exact Htitle|]. unfold tryP.
  match goal with |- context [(?m ≫= ?k) s1] =>
    assert (Hbody : R s1 ((m ≫= k) s1).2);
    [|destruct ((m ≫= k) s1) as [[[]|e|c] s2]; cbn [snd] in *; [exact Hbody | | exact Hbody]]
  end.
  - unfold mbind at 1. unfold Proc_bind, bindP at 1.
    pose proof (Hbuilds s1) as Hcmds.
    destruct (liftM (getComponentBuilds _ _ _) s1) as [[commands|e|c] s2];
      cbn [snd] in *; [|exact Hcmds..].
    eapply R_trans; [exact Hcmds|].
    unfold mbind at 1. unfold Proc_bind, bindP at 1. unfold liftM at 1, reads at 1.
    rewrite <- (session_eta s2) at 1.
    destruct (negb _); [apply Hlog|].
    apply forEachP_steps. intros cmd s0. apply Hrun.
  - eapply R_trans; [exact Hbody | apply Hlog].
Qed.

End Steps.

Lemma runsNothing_refl (s : Session) : runsNothing s s.
Proof. exists []. split; [now rewrite app_nil_r | constructor]. Qed.

Lemma runsNothing_trans (s1 s2 s3 : Session) :
  runsNothing s1 s2 → runsNothing s2 s3 → runsNothing s1 s3.
Proof.
  intros (p1 & Hp1 & Hall1) (p2 & Hp2 & Hall2).
  exists (p1 ++ p2). split; [rewrite Hp2, Hp1; now rewrite app_assoc|].
  now apply Forall_app.
Qed.

Lemma runsNothing_liftM {A} (m : M A) (s : Session) : runsNothing s (liftM m s).2.
Proof.
  unfold liftM. destruct (m (world s)) as [[a|e] w]; cbn [snd];
    exists []; (split; [now rewrite app_nil_r | constructor]).
Qed.

(** The shell changes the files; it is not asked through [FsCall]s. *)
Lemma runShellCommand_world (cmd : string) (dryRun : bool) (s : Session) :
  let s' := (runShellCommand cmd dryRun s).2 in
  HOME (world s') = HOME (world s) ∧ cwd (world s') = cwd (world s) ∧
  heap (world s') = heap (world s) ∧ calls (world s') = calls (world s).
Proof.
  cbn zeta. destruct dryRun.
  - destruct (runShellCommand_dry cmd s) as [_ (_ & Hh & Hc & Hp & Hcalls & _)]. auto.
  - rewrite runShellCommand_run. cbn zeta.
    destruct (sh_run cmd (files (world s))) as [[[]|e] fs]; cbn; auto.
Qed.

Lemma installBuilds_never_exits (id_ : string) (entry : DotfileManifest loc)
    (f : Flags) (s : Session) :
  (installBuilds id_ entry f s).1 = Returned tt.
Proof.
  unfold installBuilds.
  destruct (flag_skipBuilds f); [reflexivity|].
  unfold mbind at 1. unfold Proc_bind, bindP at 1.
  rewrite (proj1 (printsOnly_log _ _ _)).
  apply tryP_log_returns with (msg := λ error, [_; message error]). intros code.
  unfold mbind at 1. unfold Proc_bind, bindP at 1.
  pose proof (liftM_never_exits (getComponentBuilds id_ entry (flag_source f))) as Hcmds.
  match goal with |- context [liftM (getComponentBuilds _ _ _) ?s1] =>
    specialize (Hcmds s1);
    destruct (liftM (getComponentBuilds id_ entry (flag_source f)) s1)
      as [[commands|e|c] s2] end; cbn [fst] in *; [|discriminate | now destruct (Hcmds c)].
  unfold mbind at 1. unfold Proc_bind, bindP at 1. unfold liftM at 1, reads at 1.
  destruct (negb _); [apply liftM_never_exits|].
  apply forEachP_never_exits. intros cmd s0 c. apply runShellCommand_never_exits.
Qed.

End InstallBuilds.

Section InstallBuildsFacts.
Context `{host : Host} `{shell : !Shell host}.

Lemma liftM_world {A} (m : M A) (s : Session) :
  world (liftM m s).2 = (m (world s)).2.
Proof. unfold liftM. now destruct (m (world s)) as [[a|e] w]. Qed.

Lemma printsOnly_chmodsOnly (s s' : Session) :
  printsOnly s s' → chmodsOnly (world s) (world s').
Proof.
  intros (Hf & Hh & Hc & _ & Hcalls & _). unfold chmodsOnly.
  split; [exact Hh|]. split; [exact Hc|].
  exists []. split; [now rewrite app_nil_r | exact Hf].
Qed.

End InstallBuildsFacts.

Lemma installBuilds_dry `{host : Host} `{shell : !Shell host} (distro : string)
    (entry : DotfileManifest loc) (f : Flags) (s : Session) :
  flag_dryRun f = true →
  runsNothing s (installBuilds distro entry f s).2 ∧
  chmodsOnly (world s) (world (installBuilds distro entry f s).2).
Proof.
  intros Hdry.
  apply (installBuilds_steps
           (λ s0 s1, runsNothing s0 s1 ∧ chmodsOnly (world s0) (world s1))).
  + intros s0. split; [apply runsNothing_refl | apply chmodsOnly_refl].
  + intros s1 s2 s3 [Hr1 Hc1] [Hr2 Hc2].
    split; [eapply runsNothing_trans | eapply chmodsOnly_trans]; eassumption.
  + intros lvl msg s0.
    split; [apply runsNothing_liftM | apply printsOnly_chmodsOnly, printsOnly_log].
  + intros s0. split; [apply runsNothing_liftM|].
    rewrite liftM_world. apply getComponentBuilds_chmods.
  + intros cmd s0. rewrite Hdry.
    destruct (runShellCommand_dry cmd s0) as [_ Hquiet].
    split; [apply Hquiet | now apply printsOnly_chmodsOnly].
Qed.

(** X25: [installBuilds] always returns: a command that fails and a
    scripts directory that cannot be read are printed, not thrown.
    With [--skip-builds] it only prints.  With [--dry-run] it runs no
    command, and yet it is not without effect: the scripts of the
    machine are made executable, and that is all that is done to the
    file system. *)
Theorem installBuilds_safe `{host : Host} `{shell : !Shell host} (distro : string)
    (entry : DotfileManifest loc) (f : Flags) (s : Session) :
  let run := installBuilds distro entry f s in
  run.1 = Returned tt ∧
  (flag_skipBuilds f = true → printsOnly s run.2) ∧
  (flag_dryRun f = true →
   runsNothing s run.2 ∧ chmodsOnly (world s) (world run.2)).
Proof.
  cbn zeta. split; [apply installBuilds_never_exits|]. split.
  - intros Hskip. unfold installBuilds. rewrite Hskip. apply printsOnly_log.
  - apply installBuilds_dry.
Qed.

(** A dry run of the builds of [shell], whose script is not executable
    yet: no command is run, and the script is made executable. *)
Example installBuilds_dry_run :
  let s := @session (treeHost []) (treeWorld [] plainBuildsTree None "/work" failingHeap) in
  let run := @installBuilds (treeHost []) (treeShell []) "fedora" shellManifest
               dryRunFlags s in
  calls (world run.2) = [CallChmod "/dots/shell/builds/fedora.sh" 493] ∧
  match tree_lstat (files (world run.2)) "/dots/shell/builds/fedora.sh" with
  | Ok stat => mode stat
  | Err _ => None
  end = Some 493%Z ∧
  length (events run.2) = 8%nat.
Proof. vm_compute. repeat split. Qed.

(** ** The commands of a component, run *)

Section CommandsRun.
Context `{host : Host} `{shell : !Shell host}.

(** A loop of [runShellCommand] runs the commands in order and stops
    at the first one that fails, which is thrown. *)
Lemma commands_run (cmds : list string) (s : Session) :
  let run := forEachP cmds (λ cmd, runShellCommand cmd false) s in
  (run.1 = Returned tt ∧ allRun cmds s run.2) ∨
  (∃ done cmd rest e,
     cmds = done ++ cmd :: rest ∧ run.1 = Thrown e ∧ stoppedAt done cmd e s run.2).
Proof.
  cbn zeta. revert s. induction cmds as [|c cmds IH]; intros s.
  - left. split; [reflexivity|]. unfold allRun. cbn. now rewrite !app_nil_r.
  - cbn [forEachP]. unfold mbind, Proc_bind, bindP. rewrite runShellCommand_run.
    cbn zeta. destruct (sh_run c (files (world s))) as [[[]|e] fs] eqn:Hc; cbn [fst snd].
    + match goal with |- context [forEachP cmds _ ?s1] =>
        destruct (IH s1) as [[Hret Hall]|(done & cmd & rest & e & -> & Hthrown & Hstop)]
      end.
      * left. split; [exact Hret|].
        destruct Hall as (Hok & Hev & Hfs & Hcon). unfold allRun.
        cbn [succeeds shFiles foldl map world events files setFiles addLine console] in *.
        rewrite Hc. cbn [fst snd]. repeat split; try assumption.
        -- rewrite Hev. now rewrite <- app_assoc.
        -- rewrite Hcon. now rewrite <- app_assoc.
      * right. exists (c :: done), cmd, rest, e. split; [reflexivity|].
        split; [exact Hthrown|].
        destruct Hstop as (Hok & Herr & Hev & Hfs & Hcon). unfold stoppedAt.
        cbn [succeeds shFiles foldl map app world events files setFiles addLine console]
          in *.
        rewrite Hc. cbn [fst snd]. repeat split; try assumption.
        -- rewrite Hev. now rewrite <- app_assoc.
        -- rewrite Hcon. now rewrite <- app_assoc.
    + right. exists [], c, cmds, e. split; [reflexivity|]. split; [reflexivity|].
      unfold stoppedAt.
      cbn [succeeds shFiles foldl map app world events files setFiles addLine console].
      rewrite Hc. cbn [fst snd]. repeat split. now rewrite <- app_assoc.
Qed.

End CommandsRun.

(** X26: what [installBuilds] runs without [--dry-run], when the
    component has commands: the commands of the list in their order,
    each on the file system the ones before it left.  At the first
    command that fails it stops: the commands after it are not run,
    the failure is printed twice, by [runShellCommand] and by
    [installBuilds], and [installBuilds] returns all the same. *)
Theorem installBuilds_runs `{host : Host} `{shell : !Shell host} (distro : string)
    (entry : DotfileManifest loc) (f : Flags) (s : Session)
    (commands : loc) (w : World) (cmds : list string) :
  flag_skipBuilds f = false → flag_dryRun f = false →
  getComponentBuilds distro entry (flag_source f)
    (addLine {| level := LTitle;
                text := "Installing component " +:+ name entry +:+ "..." |} (world s))
  = (Ok commands, w) →
  heap w !! commands = Some cmds → cmds ≠ [] →
  let s1 := {| world := w; events := events s |} in
  let run := installBuilds distro entry f s in
  run.1 = Returned tt ∧
  (allRun cmds s1 run.2 ∨
   ∃ done cmd rest e s2,
     cmds = done ++ cmd :: rest ∧ stoppedAt done cmd e s1 s2 ∧
     run.2 = {| world :=
                  addLine {| level := LError;
                             text := "Failed to execute builds for " +:+ name entry
                                     +:+ " " +:+ message e |} (world s2);
                events := events s2 |}).
Proof.
  intros Hskip Hdry Hbuilds Hcmds Hne. cbn zeta.
  split; [apply installBuilds_never_exits|].
  assert (Hrun : installBuilds distro entry f s
                 = tryP (forEachP cmds (λ cmd, runShellCommand cmd false))
                     (λ error,
                        liftM (log LError ["Failed to execute builds for " +:+ name entry;
                                           message error]))
                     {| world := w; events := events s |}).
  { unfold installBuilds. rewrite Hskip, Hdry.
    unfold mbind at 1. unfold Proc_bind, bindP at 1.
    rewrite (proj1 (printsOnly_log _ _ _)). unfold tryP.
    unfold mbind at 1. unfold Proc_bind, bindP at 1.
    unfold liftM at 1. cbn [world events String.concat]. rewrite Hbuilds.
    unfold mbind at 1. unfold Proc_bind, bindP at 1.
    unfold liftM at 1, reads at 1. cbn [world events]. rewrite Hcmds.
    cbn [from_option id].
    replace (negb (0 <? length cmds)%nat) with false
      by (destruct cmds; [congruence | reflexivity]).
    reflexivity. }
  rewrite Hrun. clear Hrun. unfold tryP.
  destruct (commands_run cmds {| world := w; events := events s |})
    as [[Hret Hall]|(done & cmd & rest & e & -> & Hthrown & Hstop)].
  - left. destruct (forEachP _ _ _) as [[[]|e|c] s2]; cbn [fst snd] in *;
      [exact Hall | discriminate..].
  - right. destruct (forEachP _ _ _) as [[[]|e'|c] s2]; cbn [fst snd] in *;
      [discriminate | | discriminate].
    injection Hthrown as ->. exists done, cmd, rest, e, s2.
    split; [reflexivity|]. split; [exact Hstop | reflexivity].
Qed.

(** The theorem on the component [shell], whose second command fails:
    the third command and the script are not run. *)
Lemma installBuilds_runs_witness :
  let s := @session (treeHost []) (treeWorld [] scriptTree None "/work" failingHeap) in
  let run := @installBuilds (treeHost []) (treeShell []) "fedora" shellManifest
               installFlags s in
  run.1 = Returned tt ∧ events run.2 = [Executed "a"; Executed "false"].
Proof.
  intros s run. split; [|reflexivity].
  apply (@installBuilds_runs (treeHost []) (treeShell []) "fedora" shellManifest
           installFlags s 1%positive
           (getComponentBuilds "fedora" shellManifest (Some "/dots")
              (addLine {| level := LTitle; text := "Installing component shell..." |}
                 (world s))).2
           ["a"; "false"; "b"; fedoraScript]).
  - reflexivity.
  - reflexivity.
  - reflexivity.
  - reflexivity.
  - discriminate.
Defined.

(** ** The remove action *)

Section RemoveFacts.
Context `{host : Host} `{shell : !Shell host}.

Lemma liftM_reader {A} (m : M A) (s : Session) :
  readsFiles m → (liftM m s).2 = s.
Proof.
  intros Hm. destruct (Hm (world s)) as [Hw _]. unfold liftM.
  destruct (m (world s)) as [[a|e] w]; cbn [snd] in *; subst w; apply session_eta.
Qed.

(** A loop whose steps always return goes through a list piece by piece. *)
Lemma forEachP_app {A} (xs ys : list A) (body : A → Proc unit) (s : Session) :
  (∀ x s0, (body x s0).1 = Returned tt) →
  (forEachP xs body s).1 = Returned tt ∧
  forEachP (xs ++ ys) body s = forEachP ys body (forEachP xs body s).2.
Proof.
  intros Hbody. revert s. induction xs as [|x xs IH]; intros s; [now split|].
  cbn [app forEachP]. unfold mbind, Proc_bind, bindP.
  pose proof (Hbody x s) as Hx.
  destruct (body x s) as [[[]|e|c] s1]; cbn [fst] in Hx; try discriminate.
  apply IH.
Qed.

Lemma actionRemoveComponent_run (rawFlags : json) (args : list json) (s : Session) :
  actionRemoveComponent rawFlags args s
  = match schemaActionRemove (Some rawFlags) with
    | Ok flags => forEachP (stringsOf args) (removeOne flags) s
    | Err issues => (Thrown (ZodError issues), s)
    end.
Proof.
  unfold actionRemoveComponent, mbind, Proc_bind, bindP. rewrite parse_run.
  now destruct (schemaActionRemove (Some rawFlags)).
Qed.

Lemma removeOne_returns (flags : RemoveFlags) (cmpName : string) (s : Session) :
  (removeOne flags cmpName s).1 = Returned tt.
Proof.
  unfold removeOne.
  apply tryP_log_returns
    with (msg := λ error, ["Failed to remove component " +:+ cmpName +:+ ": "
                           +:+ message error]).
  intros code.
  unfold mbind at 1. unfold Proc_bind, bindP at 1.
  pose proof (liftM_never_exits (resolveManifest cmpName (remove_sourcePath flags)) s)
    as Hm.
  destruct (liftM (resolveManifest _ _) s) as [[manifest|e|c] s1]; cbn [fst] in *;
    [|discriminate | now destruct (Hm c)].
  destruct (hasLength (cleanup manifest)); [|apply liftM_never_exits].
  unfold mbind, Proc_bind, bindP. rewrite (proj1 (printsOnly_log _ _ _)).
  apply forEachP_never_exits. intros cmd s0 c. apply runShellCommand_never_exits.
Qed.

Section Steps.
Variable R : Session → Session → Prop.
Hypothesis R_refl : ∀ s, R s s.
Hypothesis R_trans : ∀ s1 s2 s3, R s1 s2 → R s2 s3 → R s1 s3.

Lemma removeOne_steps (flags : RemoveFlags) (cmpName : string) (s : Session) :
  (∀ lvl msg s0, R s0 (liftM (log lvl msg) s0).2) →
  (∀ cmd s0, R s0 (runShellCommand cmd (remove_dryRun flags) s0).2) →
  R s (removeOne flags cmpName s).2.
Proof.
  intros Hlog Hrun. unfold removeOne, tryP.
  match goal with |- context [(?m ≫= ?k) s] =>
    assert (Hbody : R s ((m ≫= k) s).2);
    [|destruct ((m ≫= k) s) as [[[]|e|c] s2]; cbn [snd] in *; [exact Hbody | | exact Hbody]]
  end.
  - unfold mbind at 1. unfold Proc_bind, bindP at 1.
    pose proof (liftM_reader _ s
                  (resolveManifest_readsFiles cmpName (remove_sourcePath flags))) as Hm.
    destruct (liftM (resolveManifest _ _) s) as [[manifest|e|c] s1]; cbn [snd] in *;
      subst s1; [|apply R_refl..].
    destruct (hasLength (cleanup manifest)); [|apply Hlog].
    unfold mbind, Proc_bind, bindP. rewrite (proj1 (printsOnly_log _ _ _)).
    eapply R_trans; [apply (Hlog LInfo)|].
    apply (forEachP_steps R R_refl R_trans). intros cmd s0. apply Hrun.
  - eapply R_trans; [exact Hbody | apply Hlog].
Qed.

End Steps.

End RemoveFacts.

(** X27: the remove action.  Flags the schema refuses are thrown
    before anything is done.  With accepted flags the action returns
    whatever happens to a component: a manifest that cannot be resolved
    and a cleanup command that fails are printed, and the components
    after it are still handled, one after the other.  The action itself
    asks nothing of the file system; with [--dry-run] it only prints. *)
Theorem actionRemoveComponent_safe `{host : Host} `{shell : !Shell host}
    (rawFlags : json) (args : list json) (s : Session) :
  let run := actionRemoveComponent rawFlags args s in
  match schemaActionRemove (Some rawFlags) with
  | Err issues => run = (Thrown (ZodError issues), s)
  | Ok flags =>
      run.1 = Returned tt ∧
      (HOME (world run.2) = HOME (world s) ∧ cwd (world run.2) = cwd (world s) ∧
       heap (world run.2) = heap (world s) ∧ calls (world run.2) = calls (world s)) ∧
      (remove_dryRun flags = true → printsOnly s run.2) ∧
      (∀ names more,
         args = names ++ more →
         run = actionRemoveComponent rawFlags more
                 (actionRemoveComponent rawFlags names s).2)
  end.
Proof.
  cbn zeta. rewrite actionRemoveComponent_run.
  destruct (schemaActionRemove (Some rawFlags)) as [flags|issues] eqn:Hflags;
    [|reflexivity].
  split; [|split; [|split]].
  - apply (forEachP_app _ [] _ s), removeOne_returns.
  - apply (forEachP_steps
             (λ s0 s1, HOME (world s1) = HOME (world s0) ∧ cwd (world s1) = cwd (world s0) ∧
                       heap (world s1) = heap (world s0) ∧
                       calls (world s1) = calls (world s0))).
    + auto.
    + intros s1 s2 s3 (H1 & H2 & H3 & H4) (H1' & H2' & H3' & H4').
      repeat split; congruence.
    + intros cmpName s0. apply removeOne_steps.
      * auto.
      * intros s1 s2 s3 (H1 & H2 & H3 & H4) (H1' & H2' & H3' & H4').
        repeat split; congruence.
      * intros lvl msg s1. cbn. auto.
      * intros cmd s1. apply runShellCommand_world.
  - intros Hdry.
    apply (forEachP_steps printsOnly printsOnly_refl printsOnly_trans).
    intros cmpName s0.
    apply (removeOne_steps printsOnly printsOnly_refl printsOnly_trans).
    + intros lvl msg s1. apply printsOnly_log.
    + intros cmd s1. rewrite Hdry. apply runShellCommand_dry.
  - intros names more ->. rewrite !actionRemoveComponent_run, Hflags.
    unfold stringsOf. rewrite omap_app.
    apply forEachP_app, removeOne_returns.
Qed.

(** The remove action on the component [tmux], whose second cleanup
    command fails, and on a component that is not there; and with
    flags that name the source root [source]. *)
Example actionRemoveComponent_examples :
  let s := @session (treeHost tmuxDocuments)
             (treeWorld tmuxDocuments tmuxTree None "/work" ∅) in
  let remove := @actionRemoveComponent (treeHost tmuxDocuments)
                  (treeShell tmuxDocuments) in
  let run := remove (removeFlags false) [JString "tmux"; JString "nope"] s in
  run.1 = Returned tt ∧
  events run.2 = [Executed "rm -rf ~/.tmux"; Executed "false"] ∧
  level <$> console (world run.2) = [LInfo; LAction; LAction; LError; LError; LError] ∧
  (remove (JObject [("source", JString "/dots")]) [JString "tmux"] s).1
  = Thrown (@ZodError (treeHost tmuxDocuments)
              [{| issue_path := [Key "sourcePath"];
                  issue_message := "Invalid input: expected string" |}]).
Proof. vm_compute. repeat split. Qed.

(** * Properties of the runners *)

(** ** The tags of a row *)

(** The index of a value is the position [i] exactly when the value
    is at [i] and nowhere before. *)
Lemma indexOfFrom_here (k : nat) (value : string) (pre post : list string) :
  (indexOfFrom k value (pre ++ value :: post) =? Z.of_nat (k + length pre))%Z
  = negb (Str.includes value pre).
Proof.
  revert k. induction pre as [|x pre IH]; intros k; cbn [app indexOfFrom length].
  - rewrite String.eqb_refl, Nat.add_0_r. apply Z.eqb_refl.
  - change (Str.includes value (x :: pre))
      with (String.eqb value x || Str.includes value pre).
    rewrite (String.eqb_sym value x).
    destruct (String.eqb x value); cbn [orb negb].
    + apply Z.eqb_neq. lia.
    + rewrite <- (IH (S k)). f_equal. lia.
Qed.

(** What was seen matters as a set. *)
Lemma firsts_seen (seen seen' l : list string) :
  (∀ y, Str.includes y seen = Str.includes y seen') →
  firsts seen l = firsts seen' l.
Proof.
  revert seen seen'. induction l as [|y l IH]; intros seen seen' Hs; [reflexivity|].
  cbn [firsts]. rewrite (Hs y). destruct (Str.includes y seen').
  - now apply IH.
  - f_equal. apply IH. intros z.
    change (Str.includes z (y :: ?s)) with (String.eqb z y || Str.includes z s).
    now rewrite Hs.
Qed.

Lemma filterFrom_firsts (pre l : list string) :
  filterFrom (λ value index, (indexOf value (pre ++ l) =? Z.of_nat index)%Z)
    (length pre) l
  = firsts pre l.
Proof.
  revert pre. induction l as [|x l IH]; intros pre; [reflexivity|].
  cbn [filterFrom firsts]. unfold indexOf at 1.
  pose proof (indexOfFrom_here 0 x pre l) as Hhere. cbn [Nat.add] in Hhere.
  rewrite Hhere. clear Hhere.
  assert (Hnext : filterFrom (λ value index,
                     (indexOf value (pre ++ x :: l) =? Z.of_nat index)%Z)
                    (S (length pre)) l
                  = firsts (pre ++ [x]) l).
  { specialize (IH (pre ++ [x])).
    rewrite <- app_assoc, length_app, Nat.add_1_r in IH. exact IH. }
  rewrite Hnext.
  destruct (Str.includes x pre) eqn:Hseen; cbn [negb].
  - apply firsts_seen. intros y. apply eq_true_iff_eq.
    rewrite !includes_elem_of, elem_of_app, list_elem_of_singleton.
    split; [|now left]. intros [H| ->]; [exact H | now apply includes_elem_of].
  - f_equal. apply firsts_seen. intros y. apply eq_true_iff_eq.
    rewrite !includes_elem_of. set_solver.
Qed.

Lemma firsts_spec (seen l : list string) :
  NoDup (firsts seen l) ∧
  (∀ t, t ∈ firsts seen l ↔ t ∈ l ∧ t ∉ seen) ∧
  sublist (firsts seen l) l.
Proof.
  revert seen. induction l as [|x l IH]; intros seen; cbn [firsts].
  - split; [constructor|]. split; [set_solver | constructor].
  - destruct (Str.includes x seen) eqn:Hseen.
    + destruct (IH seen) as (Hnd & Hin & Hsub).
      apply includes_elem_of in Hseen.
      split; [exact Hnd|]. split; [|now constructor].
      intros t. rewrite Hin. set_solver.
    + destruct (IH (x :: seen)) as (Hnd & Hin & Hsub).
      assert (Hx : x ∉ seen).
      { intros H. apply includes_elem_of in H. congruence. }
      split; [|split; [|now constructor]].
      * constructor; [|exact Hnd]. rewrite Hin. set_solver.
      * intros t. rewrite elem_of_cons, Hin.
        destruct (decide (t = x)) as [->|Hne]; set_solver.
Qed.

(** The first occurrences of a list that begins with [x]: [x], then
    the first occurrences of the rest, without [x]. *)
Lemma firsts_filter (seen l : list string) :
  firsts seen l = List.filter (λ y, negb (Str.includes y seen)) (firsts [] l).
Proof.
  revert seen. induction l as [|x l IH]; intros seen; [reflexivity|].
  cbn [firsts List.filter]. change (Str.includes x []) with false. cbn iota.
  cbn [List.filter].
  rewrite (IH [x]), (IH (x :: seen)), (IH seen).
  assert (Hcomb : ∀ (p q : string → bool) (xs : list string),
            List.filter p (List.filter q xs) = List.filter (λ y, q y && p y) xs).
  { intros p q xs. induction xs as [|y xs IHx]; [reflexivity|].
    cbn [List.filter]. destruct (q y); cbn [List.filter andb];
      [destruct (p y)|]; now rewrite IHx. }
  destruct (Str.includes x seen) eqn:Hseen; cbn [negb].
  - rewrite Hcomb. apply filter_ext_in. intros y _.
    change (Str.includes y [x]) with (String.eqb y x || false).
    rewrite orb_false_r.
    destruct (String.eqb_spec y x) as [->|Hne]; cbn [negb andb]; [|reflexivity].
    now rewrite Hseen.
  - f_equal. rewrite Hcomb. apply filter_ext_in. intros y _.
    change (Str.includes y (x :: seen)) with (String.eqb y x || Str.includes y seen).
    change (Str.includes y [x]) with (String.eqb y x || false).
    rewrite orb_false_r, negb_orb. reflexivity.
Qed.

(** X28: the tags of a component in the table of
    [printComponentsSummaries]: each tag of its entries is listed once,
    in the order of the first appearance, and the cell is [N/A] when
    there is nothing to list. *)
Theorem tagsCell_unique (cmp : Manifest) :
  let all := flat_map tags (default [] (configs cmp)) in
  let shown := uniqueTags all in
  NoDup shown ∧
  (∀ t, t ∈ shown ↔ t ∈ all) ∧
  sublist shown all ∧
  (∀ x rest,
     uniqueTags (x :: rest)
     = x :: List.filter (λ y, negb (String.eqb y x)) (uniqueTags rest)) ∧
  tagsCell cmp
  = (if String.eqb (String.concat ", " shown) "" then " N/A "
     else String.concat ", " shown).
Proof.
  cbn zeta.
  assert (Hfirsts : ∀ l, uniqueTags l = firsts [] l)
    by (intros l; apply (filterFrom_firsts [] l)).
  rewrite !Hfirsts.
  destruct (firsts_spec [] (flat_map tags (default [] (configs cmp))))
    as (Hnd & Hin & Hsub).
  split; [exact Hnd|]. split; [|split; [exact Hsub|split]].
  - intros t. rewrite Hin. set_solver.
  - intros x rest. rewrite !Hfirsts. cbn [firsts Str.includes existsb].
    f_equal. rewrite (firsts_filter [x]). apply filter_ext_in. intros y _.
    change (Str.includes y [x]) with (String.eqb y x || false).
    now rewrite orb_false_r.
  - unfold tagsCell, orElse. destruct (configs cmp) as [cs|]; cbn [fmap option_fmap option_map from_option id].
    + now rewrite Hfirsts.
    + reflexivity.
Qed.

(** ** The list action *)

Section Runners.
Context `{host : Host} `{printer : Printer}.

Lemma detectDistro_cases (s : Session) :
  (∃ id, detectDistro s = (Returned id, s)) ∨
  (∃ msg,
     detectDistro s
     = (Exited 1,
        {| world := addLine {| level := LError; text := msg |} (world s);
           events := events s |})).
Proof.
  destruct (fs_readTextFile (files (world s)) "/etc/os-release") as [text|e] eqn:Hread.
  - rewrite (detectDistro_text s text Hread).
    destruct (toLowerCase <$> matchId true text) as [id|]; [|right; eauto].
    destruct (String.eqb id "" || negb (Str.includes id getAvailableDistros));
      [right; eauto | left; eauto].
  - right. exists ("Failed to detect distribution: " +:+ message e).
    unfold detectDistro, tryP, mbind, Proc_bind, bindP, liftM, Deno_readTextFile, liftResult.
    rewrite Hread. reflexivity.
Qed.

Lemma printsOnly_addLines (lines : list LogLine) (s : Session) :
  printsOnly s {| world := addLines lines (world s); events := events s |}.
Proof.
  unfold printsOnly. cbn. repeat split; eauto.
  exists []. split; [now rewrite app_nil_r | constructor].
Qed.

Lemma getAvailableManifests_quiet (sortBy : SortBy) (cmpNames : list string)
    (source : option string) (s : Session) :
  printsOnly s (liftM (getAvailableManifests sortBy cmpNames source) s).2.
Proof.
  destruct (getAvailableManifests_lines (world s) sortBy cmpNames source)
    as (lines & Hlines & _).
  unfold liftM.
  destruct (getAvailableManifests sortBy cmpNames source (world s)) as [[all|e] w];
    cbn [snd] in *; subst w; apply printsOnly_addLines.
Qed.

Lemma printComponentsSummaries_prints (entries : list Manifest)
    (printType : PrintType) (s : Session) :
  (printComponentsSummaries entries printType s).1 = Returned tt ∧
  printsOnly s (printComponentsSummaries entries printType s).2.
Proof.
  unfold printComponentsSummaries. destruct printType.
  - split; [reflexivity | apply printsOnly_console_log].
  - destruct (length entries =? 0)%nat.
    + split; [reflexivity | apply printsOnly_log].
    + split; [reflexivity | apply printsOnly_console_log].
Qed.

End Runners.

(** X29: the list action.  Flags the schema refuses, among them
    [--json] together with [--table], are thrown before anything is
    done.  With accepted flags the action only prints: nothing is asked
    of the file system and no command is run.  It returns, whatever the
    catalog, or the process exits with code 1: that is when the
    distribution is not detected, also when [--tags] makes the
    detected one of no use. *)
Theorem actionListComponents_safe `{host : Host} `{printer : Printer}
    (rawFlags : json) (s : Session) :
  let run := actionListComponents rawFlags s in
  match schemaActionList (Some rawFlags) with
  | Err issues => run = (Thrown (ZodError issues), s)
  | Ok f =>
      printsOnly s run.2 ∧
      ((∃ id, detectDistro s = (Returned id, s)) ∧ run.1 = Returned tt ∨
       (detectDistro s).1 = Exited 1 ∧ run = (Exited 1, (detectDistro s).2))
  end ∧
  (∀ o, rawFlags = JObject o →
        property "json" o = Some (JBool true) →
        property "table" o = Some (JBool true) →
        ∃ issues, run = (Thrown (ZodError issues), s)).
Proof.
  cbn zeta.
  assert (Hrefused : ∀ issues,
            schemaActionList (Some rawFlags) = Err issues →
            actionListComponents rawFlags s = (Thrown (ZodError issues), s)).
  { intros issues Hflags.
    unfold actionListComponents, mbind, Proc_bind, bindP at 1.
    now rewrite parse_run, Hflags. }
  split.
  - destruct (schemaActionList (Some rawFlags)) as [f|issues] eqn:Hflags;
      [|now apply Hrefused].
    unfold actionListComponents, tryP, mbind, Proc_bind, bindP.
    rewrite parse_run, Hflags.
    destruct (detectDistro_cases s) as [[id Hid]|[msg Hexit]].
    + rewrite Hid.
      pose proof (getAvailableManifests_quiet (list_sort f) [] (list_source f) s)
        as Hquiet.
      destruct (liftM (getAvailableManifests _ _ _) s) as [[all|e|c] s1] eqn:Hall;
        cbn [snd] in Hquiet.
      * rewrite (proj1 (printsOnly_log _ _ _)).
        match goal with |- context [printComponentsSummaries ?l ?t ?s2] =>
          destruct (printComponentsSummaries_prints l t s2) as [Hret Hprints];
          destruct (printComponentsSummaries l t s2) as [[[]|e|c] s3] end;
          cbn [fst snd] in *; try discriminate.
        split; [|left; eauto].
        eapply printsOnly_trans; [exact Hquiet|].
        eapply printsOnly_trans; [|exact Hprints].
        apply (printsOnly_log LTitle [_] s1).
      * split; [|left; eauto].
        eapply printsOnly_trans; [exact Hquiet | apply printsOnly_log].
      * exfalso. unfold liftM in Hall.
        destruct (getAvailableManifests _ _ _ _) as [[a|e] w]; discriminate.
    + rewrite Hexit. cbn [fst snd]. split; [|right; split; reflexivity].
      apply (printsOnly_log LError [msg] s).
  - intros o -> Hjson Htable.
    assert (Hflags : ∃ issues, schemaActionList (Some (JObject o)) = Err issues).
    { unfold schemaActionList, field. rewrite Hjson, Htable.
      cbn [z_optional z_boolean under].
      destruct (under (Key "tags") _) as [t|e1], (under (Key "exclude") _) as [e|e2],
        (under (Key "sort") _) as [so|e3], (under (Key "source") _) as [src|e4];
        cbn [both default from_option id andb]; eauto. }
    destruct Hflags as [issues Hflags]. exists issues. now apply Hrefused.
Qed.

(** The list action on a machine that runs Fedora: the table of the
    catalog; and on a machine without [/etc/os-release], where the tags
    are given all the same. *)
Example actionListComponents_examples :
  let list := @actionListComponents (treeHost fedoraDocuments) barPrinter in
  let run := list (JObject [("source", JString "/dots")]) fedoraSession in
  let other := list (JObject [("source", JString "/dots"); ("tags", JString "arch")])
                 (session (treeWorld fedoraDocuments exampleTree (Some "/home/u")
                             "/work" ∅)) in
  run.1 = Returned tt ∧
  level <$> console (world run.2) = [LWarn; LTitle] ∧
  text <$> last (console (world run.2)) = Some "Available components: Tags: fedora" ∧
  length (events run.2) = 1%nat ∧
  other.1 = Exited 1 ∧
  level <$> console (world other.2) = [LError].
Proof. vm_compute. repeat split. Qed.

(** ** The install action *)

Section InstallRunnerFacts.
Context `{host : Host} `{shell : !Shell host} `{printer : Printer}.

(** Putting a manifest in the heap changes the heap only. *)
Lemma allocate_heap (entry : Manifest) (w : World) :
  ∃ allocated h, allocate entry w = (Ok allocated, setHeap h w).
Proof.
  assert (Hall : ∀ lists w0 h0,
            ∃ arrays h, allocateAll lists (setHeap h0 w0) = (Ok arrays, setHeap h w0)).
  { clear. intros lists. induction lists as [|[key commands] lists IH]; intros w0 h0.
    - exists ∅, h0. reflexivity.
    - cbn [allocateAll]. unfold mbind, M_bind, bind, newArray.
      cbn [heap setHeap].
      change (setHeap ?h (setHeap h0 w0)) with (setHeap h w0).
      match goal with |- context [allocateAll lists (setHeap ?h1 w0)] =>
        destruct (IH w0 h1) as (arrays & h & Hrest) end.
      rewrite Hrest. eexists _, h. reflexivity. }
  unfold allocate, mbind, M_bind, bind.
  destruct (builds entry) as [lists|].
  - destruct (Hall (map_to_list lists) w (heap w)) as (arrays & h & Hrest).
    replace (setHeap (heap w) w) with w in Hrest by now destruct w.
    rewrite Hrest. eexists _, h. reflexivity.
  - eexists _, (heap w). unfold ret. f_equal. now destruct w.
Qed.

Lemma dryStep_refl (s : Session) : dryStep s s.
Proof. split; [apply runsNothing_refl | apply chmodsOnly_refl]. Qed.

Lemma dryStep_trans (s1 s2 s3 : Session) :
  dryStep s1 s2 → dryStep s2 s3 → dryStep s1 s3.
Proof.
  intros [Hr1 Hc1] [Hr2 Hc2].
  split; [eapply runsNothing_trans | eapply chmodsOnly_trans]; eassumption.
Qed.

Lemma printsOnly_dryStep (s s' : Session) : printsOnly s s' → dryStep s s'.
Proof. intros H. split; [apply H | now apply printsOnly_chmodsOnly]. Qed.

(** What the runner does with one component. *)
Lemma installOne_returns (machineId : string) (f : Flags) (manifest : Manifest)
    (s : Session) :
  ((entry ← liftM (allocate manifest);
    installBuilds machineId entry f;;
    installConfigs machineId entry f) s).1 = Returned tt.
Proof.
  unfold mbind, Proc_bind, bindP, liftM.
  destruct (allocate_heap manifest (world s)) as (entry & h & ->).
  match goal with |- context [installBuilds machineId entry f ?s1] =>
    pose proof (installBuilds_never_exits machineId entry f s1) as Hb;
    destruct (installBuilds machineId entry f s1) as [[[]|e|c] s2] end;
    cbn [fst] in Hb; try discriminate.
  apply installConfigs_returns.
Qed.

Lemma installOne_dry (machineId : string) (f : Flags) (manifest : Manifest)
    (s : Session) :
  flag_dryRun f = true →
  dryStep s ((entry ← liftM (allocate manifest);
              installBuilds machineId entry f;;
              installConfigs machineId entry f) s).2.
Proof.
  intros Hdry. unfold mbind, Proc_bind, bindP, liftM.
  destruct (allocate_heap manifest (world s)) as (entry & h & ->).
  match goal with |- context [installBuilds machineId entry f ?s1] =>
    assert (Hheap : dryStep s s1)
      by (split; [exact (runsNothing_refl s) | exact (chmodsOnly_refl (world s))]);
    pose proof (installBuilds_dry machineId entry f s1 Hdry) as Hb;
    destruct (installBuilds machineId entry f s1) as [[[]|e|c] s2] end;
    cbn [snd] in Hb.
  - eapply dryStep_trans; [exact Hheap|]. eapply dryStep_trans; [exact Hb|].
    apply printsOnly_dryStep, installConfigs_quiet. auto.
  - eapply dryStep_trans; [exact Hheap | exact Hb].
  - eapply dryStep_trans; [exact Hheap | exact Hb].
Qed.

End InstallRunnerFacts.

(** X30: the install action.  Flags the schema refuses are thrown
    before anything is done.  [--skip-files] with [--skip-builds] ends
    the process with code 1 after one error line.  Otherwise the
    process exits with code 1 when the distribution is not detected;
    an error of the catalog (a source root that cannot be listed) is
    thrown as it is, nothing is there to catch it; and in every other
    case the action returns, whatever happens to a component.  With
    [--dry-run] no command is run, and nothing is done to the file
    system but to make scripts executable. *)
Theorem actionInstallComponents_safe `{host : Host} `{shell : !Shell host}
    `{printer : Printer} (rawFlags : json) (args : list json) (s : Session) :
  let run := actionInstallComponents rawFlags args s in
  match schemaActionInstall (Some rawFlags) with
  | Err issues => run = (Thrown (ZodError issues), s)
  | Ok f =>
      (flag_skipFiles f && flag_skipBuilds f = true →
       run = (Exited 1,
              {| world :=
                   addLine {| level := LError;
                              text := "Can't use --only-files and --only-builds together." |}
                     (world s);
                 events := events s |})) ∧
      (flag_skipFiles f && flag_skipBuilds f = false →
       (detectDistro s).1 = Exited 1 ∧ run = (Exited 1, (detectDistro s).2) ∨
       (∃ id, detectDistro s = (Returned id, s)) ∧
       match (getAvailableManifests (flag_sort f) (stringsOf args) (flag_source f)
                (world s)).1 with
       | Err e => run = (Thrown e, s)
       | Ok _ => run.1 = Returned tt
       end) ∧
      (flag_dryRun f = true → dryStep s run.2)
  end.
Proof.
  cbn zeta. remember (actionInstallComponents rawFlags args s) as run eqn:Hrun.
  unfold actionInstallComponents in Hrun.
  unfold mbind at 1 in Hrun. unfold Proc_bind, bindP at 1 in Hrun.
  rewrite parse_run in Hrun.
  destruct (schemaActionInstall (Some rawFlags)) as [f|issues]; [|exact Hrun].
  unfold mbind at 1 in Hrun. unfold Proc_bind, bindP at 1 in Hrun.
  destruct (flag_skipFiles f && flag_skipBuilds f) eqn:Hboth.
  { subst run. split; [reflexivity|]. split; [discriminate|]. intros _.
    apply printsOnly_dryStep. apply (printsOnly_log LError [_] s). }
  unfold retP at 1 in Hrun. split; [discriminate|].
  unfold mbind at 1 in Hrun. unfold Proc_bind, bindP at 1 in Hrun.
  destruct (detectDistro_cases s) as [[id Hid]|[msg Hexit]].
  - rewrite Hid in *. unfold mbind at 1 in Hrun. unfold Proc_bind, bindP at 1 in Hrun.
    pose proof (getAvailableManifests_quiet (flag_sort f) (stringsOf args)
                  (flag_source f) s) as Hquiet.
    pose proof (λ e, proj2 (getAvailableManifests_throws (world s) (flag_sort f)
                              (stringsOf args) (flag_source f) e)) as Hthrown.
    cbn zeta in Hthrown. unfold liftM at 1 in Hrun. unfold liftM in Hquiet.
    destruct (getAvailableManifests (flag_sort f) (stringsOf args) (flag_source f)
                (world s)) as [[all|e] w]; cbn [fst snd] in *.
    + unfold mbind at 1 in Hrun. unfold Proc_bind, bindP at 1 in Hrun.
      rewrite (proj1 (printsOnly_log _ _ _)) in Hrun.
      unfold mbind at 1 in Hrun. unfold Proc_bind, bindP at 1 in Hrun.
      match type of Hrun with context [printComponentsSummaries ?l ?t ?s2] =>
        pose proof (printsOnly_log LTitle
                      [selectionTitle "Following component(s) will be installed." l
                         (autoTags (flag_tags f) id) (flag_exclude f)]
                      {| world := w; events := events s |}) as [_ Htitle];
        destruct (printComponentsSummaries_prints l t s2) as [Hret Hprints];
        destruct (printComponentsSummaries l t s2) as [[[]|e|c] s3] end;
        cbn [fst snd] in *; try discriminate.
      rewrite (proj1 (printsOnly_log _ _ _)) in Htitle. cbn [snd] in Htitle.
      subst run. split.
      * intros _. right. split; [eauto|].
        apply (forEachP_app _ [] _ s3). intros manifest s0.
        apply installOne_returns.
      * intros Hdry.
        eapply dryStep_trans; [apply printsOnly_dryStep, Hquiet|].
        eapply dryStep_trans; [apply printsOnly_dryStep, Htitle|].
        eapply dryStep_trans; [apply printsOnly_dryStep, Hprints|].
        apply (forEachP_steps dryStep dryStep_refl dryStep_trans).
        intros manifest s0. now apply installOne_dry.
    + rewrite (Hthrown e eq_refl), session_eta in Hrun. subst run. split.
      * intros _. right. split; [eauto | reflexivity].
      * intros _. apply dryStep_refl.
  - rewrite Hexit in *. subst run. cbn [fst snd]. split.
    + intros _. left. split; reflexivity.
    + intros _. apply printsOnly_dryStep. apply (printsOnly_log LError [msg] s).
Qed.

(** The install action on a machine that runs Fedora: a dry run of the
    whole catalog makes the script of [shell] executable and runs no
    command; an installation of [shell] and [git] stops the commands of
    [shell] at the one that fails and links the file of [git]. *)
Example actionInstallComponents_examples :
  let install := @actionInstallComponents (treeHost fedoraDocuments)
                   (treeShell fedoraDocuments) barPrinter in
  let dry := install (JObject [("source", JString "/dots"); ("dryRun", JBool true)])
               [] fedoraSession in
  let run := install (JObject [("source", JString "/dots")])
               [JString "shell"; JString "git"] fedoraSession in
  dry.1 = Returned tt ∧
  calls (world dry.2) = [CallChmod "/dots/shell/builds/fedora.sh" 493] ∧
  List.filter (λ e, negb (isPrinted e)) (events dry.2) = [] ∧
  run.1 = Returned tt ∧
  List.filter (λ e, negb (isPrinted e)) (events run.2)
  = [Executed "a"; Executed "false"] ∧
  calls (world run.2)
  = [CallChmod "/dots/shell/builds/fedora.sh" 493;
     CallEnsureDir "/home/u/";
     CallSymlink "/dots/git/gitconfig" "/home/u/.gitconfig" TypeFile].
Proof. vm_compute. repeat split. Qed.
